(** * RainDocument: resolution of a dotrain document

    A shallow embedding of [RainDocument] (the class that parses a dotrain
    text into imports, a namespace tree, bindings and problems) and the
    properties of its resolution steps.

    Conventions of the embedding.
    - A JavaScript string is a [string]; its characters are code units below
      256, and [\s] is the white space of that range.
    - An offset pair [[start, end]] is a pair of integers, inclusive at both
      ends as in the source.
    - A JavaScript object used as a map is an association list in insertion
      order ([Object.keys] order); keys are unique, and are neither array
      indices nor [__proto__].
      [obj_get] reads the keys of the object itself. A read [ns[k]] of a
      namespace also finds what every object inherits ([inherited]: the
      name [constructor] and the like), a value without keys of its own:
      [ns_read] reads it as an empty namespace. What a merge leaves on such
      an inherited value lies outside the document and is not followed.
    - [AST.Namespace] is the tagged tree its type declares: [NsLeaf] for a
      node that has an [Element], [NsInterior] for a nested namespace, so
      ["Element" in x] is the leaf test. The two agree on the trees in which
      no namespace holds an entry named [Element] ([plain]); the properties
      that depend on the test assume such trees.
    - Binding objects are shared between [bindings], the namespace and the
      namespaces of importing documents; they live in a [Heap] and are named
      by reference.
    - Awaited calls run to completion in the order they are issued
      ([Promise.all] over imports and over the payloads of one import):
      this is the schedule in which every awaited call has settled before a
      rejection is handled. [classify_meta_late] follows the payloads of one
      import on the schedule in which the look-ups settle afterwards.
    - What the source imports from files that are not part of it (helpers,
      language types, the meta library, toposort, the expression parser, the
      text document) is an interface whose operations are parameters. *)

From Stdlib Require Import List String Ascii ZArith Bool Arith Lia.
From Stdlib Require Import DecimalString.
Import ListNotations.

Set Warnings "-register-all".

Open Scope string_scope.
Open Scope list_scope.
Open Scope nat_scope.

(** ** JavaScript strings *)

Module JS.

Definition is_space (c : ascii) : bool :=
  let n := nat_of_ascii c in
  ((9 <=? n) && (n <=? 13)) || (n =? 32) || (n =? 160).

Definition is_lower (c : ascii) : bool :=
  let n := nat_of_ascii c in (97 <=? n) && (n <=? 122).

Definition is_upper (c : ascii) : bool :=
  let n := nat_of_ascii c in (65 <=? n) && (n <=? 90).

Definition is_digit (c : ascii) : bool :=
  let n := nat_of_ascii c in (48 <=? n) && (n <=? 57).

(** [\w] *)
Definition is_word_char (c : ascii) : bool :=
  is_lower c || is_upper c || is_digit c || (nat_of_ascii c =? 95).

Fixpoint some (p : ascii -> bool) (s : string) : bool :=
  match s with
  | EmptyString => false
  | String c s' => p c || some p s'
  end.

Fixpoint every (p : ascii -> bool) (s : string) : bool :=
  match s with
  | EmptyString => true
  | String c s' => p c && every p s'
  end.

(** [s.search(re)] for a one-character class: index of the first match or -1. *)
Fixpoint search (p : ascii -> bool) (s : string) : Z :=
  match s with
  | EmptyString => (-1)%Z
  | String c s' =>
      if p c then 0%Z
      else let i := search p s' in if (i <? 0)%Z then (-1)%Z else (i + 1)%Z
  end.

Definition double_quote : ascii := ascii_of_nat 34.

Definition indexOf (c : ascii) (s : string) : Z := search (Ascii.eqb c) s.

(** [s.slice(n)] and [s.slice(0, n)] for [0 <= n]. *)
Fixpoint drop (n : nat) (s : string) : string :=
  match n, s with
  | O, _ => s
  | S n', String _ s' => drop n' s'
  | S _, EmptyString => EmptyString
  end.

Fixpoint take (n : nat) (s : string) : string :=
  match n, s with
  | O, _ => EmptyString
  | S n', String c s' => String c (take n' s')
  | S _, EmptyString => EmptyString
  end.

Definition slice_from (i : Z) (s : string) : string := drop (Z.to_nat i) s.
Definition slice_to (i : Z) (s : string) : string := take (Z.to_nat i) s.

(** [s.slice(i, -1)] for [0 <= i]. *)
Definition slice_drop_last (i : Z) (s : string) : string :=
  take (length s - 1 - Z.to_nat i) (drop (Z.to_nat i) s).

Definition startsWith (p s : string) : bool := String.prefix p s.

Fixpoint includes (needle s : string) : bool :=
  String.prefix needle s ||
  match s with
  | EmptyString => false
  | String _ s' => includes needle s'
  end.

Fixpoint trimStart (s : string) : string :=
  match s with
  | EmptyString => EmptyString
  | String c s' => if is_space c then trimStart s' else s
  end.

Fixpoint rev (s : string) : string :=
  match s with
  | EmptyString => EmptyString
  | String c s' => rev s' ++ String c EmptyString
  end.

Definition trim (s : string) : string := rev (trimStart (rev (trimStart s))).

Definition lower_char (c : ascii) : ascii :=
  let n := nat_of_ascii c in
  if is_upper c then ascii_of_nat (n + 32)
  else if (192 <=? n) && (n <=? 222) && negb (n =? 215) then ascii_of_nat (n + 32)
  else c.

Fixpoint toLowerCase (s : string) : string :=
  match s with
  | EmptyString => EmptyString
  | String c s' => String (lower_char c) (toLowerCase s')
  end.

(** [/\bw\b/.test(s)] for a word [w] that starts and ends with a [\w]
    character: [w] occurs with no [\w] character right before or after. *)
Definition boundary_after (s : string) : bool :=
  match s with
  | EmptyString => true
  | String c _ => negb (is_word_char c)
  end.

Fixpoint test_word_from (prev_is_word : bool) (w s : string) : bool :=
  (negb prev_is_word && String.prefix w s && boundary_after (drop (length w) s)) ||
  match s with
  | EmptyString => false
  | String c s' => test_word_from (is_word_char c) w s'
  end.

Definition test_word (w s : string) : bool := test_word_from false w s.

(** [String(n)] for a natural number. *)
Definition of_nat (n : nat) : string := NilEmpty.string_of_uint (Nat.to_uint n).

(** [Number(s)] for a string of decimal digits. *)
Definition digit_value (c : ascii) : nat := nat_of_ascii c - 48.

Fixpoint to_nat_acc (acc : nat) (s : string) : nat :=
  match s with
  | EmptyString => acc
  | String c s' => to_nat_acc (10 * acc + digit_value c) s'
  end.

Definition to_nat (s : string) : nat := to_nat_acc 0 s.

(** A length the strings of every engine reach: [repeat] and [+] throw a
    [RangeError] only above the longest string, which is longer. *)
Definition safe_length : Z := 268435440.

Fixpoint repeat (s : string) (n : nat) : string :=
  match n with
  | O => EmptyString
  | S n' => s ++ repeat s n'
  end.

End JS.

(** ** JavaScript objects used as maps *)

Section Obj.
Context {V : Type}.

Definition obj : Type := list (string * V).

Fixpoint obj_get (k : string) (o : obj) : option V :=
  match o with
  | [] => None
  | (k', v) :: o' => if String.eqb k k' then Some v else obj_get k o'
  end.

(** [o[k] = v]: an existing key keeps its place, a new one goes last. *)
Fixpoint obj_set (k : string) (v : V) (o : obj) : obj :=
  match o with
  | [] => [(k, v)]
  | (k', v') :: o' =>
      if String.eqb k k' then (k, v) :: o' else (k', v') :: obj_set k v o'
  end.

(** [delete o[k]] *)
Fixpoint obj_delete (k : string) (o : obj) : obj :=
  match o with
  | [] => []
  | (k', v') :: o' =>
      if String.eqb k k' then obj_delete k o' else (k', v') :: obj_delete k o'
  end.

Definition obj_keys (o : obj) : list string := map fst o.
Definition obj_values (o : obj) : list V := map snd o.
Definition obj_has (k : string) (o : obj) : bool :=
  match obj_get k o with Some _ => true | None => false end.
End Obj.

Arguments obj : clear implicits.

Definition includes_key (k : string) (ks : list string) : bool :=
  existsb (String.eqb k) ks.

(** The names of the properties that an object literal inherits from
    [Object.prototype]: a read [o[k]] finds them when [k] is not a key of
    [o] itself. *)
Definition inherited (k : string) : bool :=
  includes_key k
    ["constructor"; "hasOwnProperty"; "isPrototypeOf"; "propertyIsEnumerable";
     "toLocaleString"; "toString"; "valueOf"; "__proto__"; "__defineGetter__";
     "__defineSetter__"; "__lookupGetter__"; "__lookupSetter__"].

(** ** Language types *)

Definition Offsets : Type := (Z * Z)%type.

Definition offsets_eqb (a b : Offsets) : bool :=
  (fst a =? fst b)%Z && (snd a =? snd b)%Z.

(** The error codes the document parser reports; [OtherCode] stands for the
    codes of the expression parser. *)
Inductive ErrorCode : Type :=
  | RuntimeError | DeepImport | DuplicateImportStatement | UnexpectedToken
  | ExpectedElisionOrRebinding | InvalidWordPattern | ExpectedName
  | UndefinedAuthoringMeta | ExpectedHash | InvalidHash | InvalidImport
  | UndefinedMeta | CorruptMeta | InconsumableMeta | DuplicateImport
  | InvalidRainDocument | UnexpectedEndOfComment | DuplicateIdentifier
  | MultipleWords | UndefinedDISpair | SingleWordModify | UndefinedIdentifier
  | UnexpectedRebinding | InvalidBindingIdentifier | InvalidEmptyBinding
  | CircularDependency | UnresolvableDependencies | SingletonWords
  | OtherCode (n : Z).

Definition ErrorCode_eq_dec (a b : ErrorCode) : {a = b} + {a <> b}.
Proof. decide equality. apply Z.eq_dec. Defined.

Definition code_eqb (a b : ErrorCode) : bool :=
  if ErrorCode_eq_dec a b then true else false.

Record Problem : Type := mkProblem {
  msg : string;
  position : Offsets;
  code : ErrorCode
}.

Definition ParsedChunk : Type := (string * Offsets)%type.

Record Comment : Type := mkComment {
  comment : string;
  cm_position : Offsets
}.

(** [Meta.Authoring]: the description of one word. *)
Record Authoring : Type := mkAuthoring {
  word : string;
  am_description : string
}.

(** [AST.ContextAlias]; [row = None] is [NaN]. *)
Record ContextAlias : Type := mkContextAlias {
  ca_name : string;
  ca_column : Z;
  ca_row : option Z;
  ca_description : string
}.

(** The object the expression parser builds; the document reads its
    [problems] only. *)
Record Rainlang : Type := mkRainlang {
  rl_problems : list Problem
}.

(** [AST.Binding]; an absent optional field is [None]. *)
Record Binding : Type := mkBinding {
  b_name : string;
  b_namePosition : Offsets;
  b_content : string;
  b_contentPosition : Offsets;
  b_position : Offsets;
  b_problems : list Problem;
  b_dependencies : list string;
  b_elided : option string;
  b_constant : option string;
  b_exp : option Rainlang
}.

(** Binding objects are allocated once and shared by reference. *)
Definition BindingRef : Type := nat.
Definition Heap : Type := list Binding.

Definition heap_get (h : Heap) (r : BindingRef) : option Binding := nth_error h r.

Fixpoint heap_update (r : BindingRef) (f : Binding -> Binding) (h : Heap) : Heap :=
  match h, r with
  | [], _ => []
  | b :: h', O => f b :: h'
  | b :: h', S r' => b :: heap_update r' f h'
  end.

Definition heap_alloc (b : Binding) (h : Heap) : BindingRef * Heap :=
  (List.length h, h ++ [b]).

(** Namespace tree. *)
Inductive Element : Type :=
  | EWords (ws : list Authoring)
  | EWord (w : Authoring)
  | EBinding (r : BindingRef)
  | EContextAlias (c : ContextAlias).

Record NamespaceNode : Type := mkNode {
  Hash : string;
  ImportIndex : Z;
  node_Element : Element;
  node_bytecode : option string
}.

Inductive NsItem : Type :=
  | NsLeaf (n : NamespaceNode)
  | NsInterior (m : list (string * NsItem)).

Definition Namespace : Type := obj NsItem.

(** ["Element" in x] *)
Definition has_Element (x : NsItem) : bool :=
  match x with NsLeaf _ => true | NsInterior _ => false end.

(** [x.Hash], [undefined] on a nested namespace. *)
Definition item_Hash (x : NsItem) : option string :=
  match x with NsLeaf n => Some (Hash n) | NsInterior _ => None end.

Definition opt_string_eqb (a b : option string) : bool :=
  match a, b with
  | Some x, Some y => String.eqb x y
  | None, None => true
  | _, _ => false
  end.

(** [ns[k]] for a namespace: the entry under the key [k], or else, for a
    name that every object inherits, the inherited value. That value has no
    keys of its own and no [Element]: it reads as an empty namespace. A
    name that is neither reads as [undefined]. *)
Definition ns_read (k : string) (ns : Namespace) : option NsItem :=
  match obj_get k ns with
  | Some x => Some x
  | None => if inherited k then Some (NsInterior []) else None
  end.

(** ** Imported metadata *)

(** [Meta.Contract]: the part [toContextAlias] reads. *)
Record ContextCell : Type := mkContextCell {
  cell_alias : string;
  cellIndex : Z;
  cell_desc : option string
}.

Record ContextColumn : Type := mkContextColumn {
  col_alias : string;
  columnIndex : Z;
  col_desc : option string;
  cells : option (list ContextCell)
}.

Record MetaExpression : Type := mkMetaExpression {
  contextColumns : option (list ContextColumn)
}.

Record MetaMethod : Type := mkMetaMethod {
  expressions : list MetaExpression
}.

Record ContractMeta : Type := mkContractMeta {
  methods : list MetaMethod
}.

(** What looking up the authoring meta of a deployer bytecode gives:
    [execBytecode], the store or [abiDecode] throws; neither the authoring
    meta hash nor the bytecode hash is settled; or the decoded words. *)
Inductive AuthoringLookup : Type :=
  | LookupThrows
  | LookupUndefined
  | LookupFound (am : list Authoring).

(** One decoded meta map, by its magic number ([meta.get(1)]), with what the
    meta library returns for it; [None] is a decoder that throws (for the
    bytecode also [Meta.decodeMap] returning a string). [hexBytecode] is the
    decoded bytecode once hexlified; [OtherMeta] is any other magic number,
    or ([validMagic = false]) none at all. *)
Inductive MetaMap : Type :=
  | DeployerBytecodeMeta (hexBytecode : option string) (lookup : AuthoringLookup)
  | ContractMetaV1 (parsed : option ContractMeta)
  | DotrainMeta (text : option string)
  | OtherMeta (validMagic : bool).

Definition is_deployer (m : MetaMap) : bool :=
  match m with DeployerBytecodeMeta _ _ => true | _ => false end.
Definition is_contract (m : MetaMap) : bool :=
  match m with ContractMetaV1 _ => true | _ => false end.
Definition is_dotrain (m : MetaMap) : bool :=
  match m with DotrainMeta _ => true | _ => false end.

(** ** Interfaces of the collaborators *)

(** The regular expressions the document hands to the parse helpers. *)
Inductive Pattern : Type :=
  | CommentRe        (* the comment pattern, flags gd *)
  | WhitespaceGd     (* /\s+/gd *)
  | AtGd             (* /@/gd *)
  | HashGd           (* /#/gd *)
  | WhitespaceRe.    (* /\s+/ *)

Record TrackedTrim : Type := mkTrackedTrim {
  tt_text : string;
  startDelCount : Z;
  endDelCount : Z
}.

(** [./helpers] *)
Class Helpers : Type := {
  inclusiveParse : string -> Pattern -> list ParsedChunk;
  exclusiveParse : string -> Pattern -> option Z -> bool -> list ParsedChunk;
  fillIn : string -> Offsets -> string;
  trackedTrim : string -> TrackedTrim;
  hasDuplicate : list string -> list string -> bool;
  isConsumableMeta : list MetaMap -> bool
}.

(** [../languageTypes]: the patterns and the default elision message. *)
Class LanguageTypes : Type := {
  HEX_PATTERN : string -> bool;
  HASH_PATTERN : string -> bool;
  WORD_PATTERN : string -> bool;
  NUMERIC_PATTERN : string -> bool;
  DEFAULT_ELISION : string
}.

(** [TextDocument]: the line of an offset, and the text between two offsets
    ([getText(Range.create(positionAt(a), positionAt(b)))]). *)
Class TextDocumentLib : Type := {
  positionAt_line : string -> Z -> Z;
  getText_range : string -> Z -> Z -> string
}.

(** [Meta.Store.getMeta] and [Meta.decode] ([None]: it throws). *)
Class MetaStore : Type := {
  getMeta : string -> option string;
  Meta_decode : string -> option (list MetaMap)
}.

(** [toposort.array(nodes, edges)]: the order, an [Error] with a message, or
    a thrown value that is not an [Error]. *)
Inductive ToposortResult : Type :=
  | Sorted (order : list string)
  | ThrowsError (message : string)
  | ThrowsOther.

Class ToposortLib : Type := {
  toposort_array : list string -> list (string * string) -> ToposortResult
}.

(** [BigInt(s).toString()] *)
Class JSNumbers : Type := {
  BigInt_toString : string -> string
}.

(** [new Rainlang(content, authoringMeta, "0", {namespaces, ignoreAuthoringMeta})];
    the namespace it is given names bindings of the heap. *)
Class RainlangLib : Type := {
  Rainlang_new : string -> list Authoring -> Namespace -> Heap -> bool -> Rainlang
}.

(** ** Imports and documents *)

Record Dispair : Type := mkDispair {
  dispair_bytecode : string;
  dispair_authoringMeta : list Authoring
}.

Record Sequence (D : Type) : Type := mkSequence {
  dispair : option Dispair;
  ctxmeta : option (list ContextAlias);
  dotrain : option D
}.
Arguments mkSequence {D}.
Arguments dispair {D}.
Arguments ctxmeta {D}.
Arguments dotrain {D}.

Definition Reconfig : Type := (ParsedChunk * option ParsedChunk)%type.

Record Import (D : Type) : Type := mkImport {
  imp_name : string;
  imp_hash : string;
  imp_namePosition : Offsets;
  imp_hashPosition : Offsets;
  imp_problems : list Problem;
  imp_position : Offsets;
  reconfigs : option (list Reconfig);
  reconfigProblems : option (list Problem);
  sequence : option (Sequence D)
}.
Arguments mkImport {D}.
Arguments imp_name {D}.
Arguments imp_hash {D}.
Arguments imp_namePosition {D}.
Arguments imp_hashPosition {D}.
Arguments imp_problems {D}.
Arguments imp_position {D}.
Arguments reconfigs {D}.
Arguments reconfigProblems {D}.
Arguments sequence {D}.

(** The fields of a [RainDocument] instance; [text] is
    [textDocument.getText()], [runtimeError] the message of the caught
    error, and [bytecode = None] is [undefined]. *)
Inductive RainDocument : Type := mkRainDocument {
  text : string;
  importDepth : nat;
  runtimeError : option string;
  bindings : list BindingRef;
  namespace : Namespace;
  imports : list (Import RainDocument);
  authoringMeta : list Authoring;
  authoringMetaPath : string;
  bytecode : option string;
  comments : list Comment;
  problems : list Problem;
  _ignoreAM : bool;
  _ignoreUAM : bool
}.

Definition empty_sequence {D : Type} : Sequence D := mkSequence None None None.

(** Field updates. *)
Definition set_runtimeError (v : option string) (d : RainDocument) : RainDocument :=
  mkRainDocument (text d) (importDepth d) v (bindings d) (namespace d) (imports d)
    (authoringMeta d) (authoringMetaPath d) (bytecode d) (comments d) (problems d)
    (_ignoreAM d) (_ignoreUAM d).
Definition set_bindings (v : list BindingRef) (d : RainDocument) : RainDocument :=
  mkRainDocument (text d) (importDepth d) (runtimeError d) v (namespace d) (imports d)
    (authoringMeta d) (authoringMetaPath d) (bytecode d) (comments d) (problems d)
    (_ignoreAM d) (_ignoreUAM d).
Definition set_namespace (v : Namespace) (d : RainDocument) : RainDocument :=
  mkRainDocument (text d) (importDepth d) (runtimeError d) (bindings d) v (imports d)
    (authoringMeta d) (authoringMetaPath d) (bytecode d) (comments d) (problems d)
    (_ignoreAM d) (_ignoreUAM d).
Definition set_imports (v : list (Import RainDocument)) (d : RainDocument) : RainDocument :=
  mkRainDocument (text d) (importDepth d) (runtimeError d) (bindings d) (namespace d) v
    (authoringMeta d) (authoringMetaPath d) (bytecode d) (comments d) (problems d)
    (_ignoreAM d) (_ignoreUAM d).
Definition set_words (am : list Authoring) (path : string) (bc : option string)
    (d : RainDocument) : RainDocument :=
  mkRainDocument (text d) (importDepth d) (runtimeError d) (bindings d) (namespace d)
    (imports d) am path bc (comments d) (problems d) (_ignoreAM d) (_ignoreUAM d).
Definition set_comments (v : list Comment) (d : RainDocument) : RainDocument :=
  mkRainDocument (text d) (importDepth d) (runtimeError d) (bindings d) (namespace d)
    (imports d) (authoringMeta d) (authoringMetaPath d) (bytecode d) v (problems d)
    (_ignoreAM d) (_ignoreUAM d).
Definition set_problems (v : list Problem) (d : RainDocument) : RainDocument :=
  mkRainDocument (text d) (importDepth d) (runtimeError d) (bindings d) (namespace d)
    (imports d) (authoringMeta d) (authoringMetaPath d) (bytecode d) (comments d) v
    (_ignoreAM d) (_ignoreUAM d).
Definition set_ignore (am uam : bool) (d : RainDocument) : RainDocument :=
  mkRainDocument (text d) (importDepth d) (runtimeError d) (bindings d) (namespace d)
    (imports d) (authoringMeta d) (authoringMetaPath d) (bytecode d) (comments d)
    (problems d) am uam.

(** [this.problems.push(p)] *)
Definition push_problem (p : Problem) (d : RainDocument) : RainDocument :=
  set_problems (problems d ++ [p]) d.
Definition push_problems (ps : list Problem) (d : RainDocument) : RainDocument :=
  set_problems (problems d ++ ps) d.

Definition b_push_problems (ps : list Problem) (b : Binding) : Binding :=
  mkBinding (b_name b) (b_namePosition b) (b_content b) (b_contentPosition b)
    (b_position b) (b_problems b ++ ps) (b_dependencies b) (b_elided b)
    (b_constant b) (b_exp b).
Definition b_push_dependencies (ds : list string) (b : Binding) : Binding :=
  mkBinding (b_name b) (b_namePosition b) (b_content b) (b_contentPosition b)
    (b_position b) (b_problems b) (b_dependencies b ++ ds) (b_elided b)
    (b_constant b) (b_exp b).
Definition b_set_exp (e : option Rainlang) (b : Binding) : Binding :=
  mkBinding (b_name b) (b_namePosition b) (b_content b) (b_contentPosition b)
    (b_position b) (b_problems b) (b_dependencies b) (b_elided b)
    (b_constant b) e.

(** [new RainDocument(textDocument, metaStore, importDepth)] *)
Definition new_RainDocument (txt : string) (depth : nat) : RainDocument :=
  mkRainDocument txt depth None [] [] [] [] EmptyString (Some EmptyString) [] []
    false false.

(** The assignments that open [_parse] and make the else branch of [parse]. *)
Definition reset (d : RainDocument) : RainDocument :=
  mkRainDocument (text d) (importDepth d) None [] [] [] [] EmptyString
    (Some EmptyString) [] [] false false.

(** [getBindingsProblems] and [getAllProblems] *)
Definition getBindingsProblems (d : RainDocument) (h : Heap) : list Problem :=
  flat_map (fun r => match heap_get h r with
                     | Some b => b_problems b
                     | None => []
                     end) (bindings d).

Definition getAllProblems (d : RainDocument) (h : Heap) : list Problem :=
  problems d ++ getBindingsProblems d h.

(** ** Dependency resolution ([processDependencies]) *)

(** The dependency pattern of [processDependencies]: a quote, an optional
    dot, a lower-case letter, any run of lower-case letters, digits and
    dashes, then any number of groups made of a dot, a lower-case letter and
    such a run. *)
Definition is_dep_char (c : ascii) : bool :=
  JS.is_digit c || JS.is_lower c || Ascii.eqb c "-".

(** The longest prefix made of a run and dotted groups (the pattern after
    its first letter). *)
Fixpoint dep_tail (s : string) : string :=
  match s with
  | String c s' =>
      if is_dep_char c then String c (dep_tail s')
      else if Ascii.eqb c "." then
        match s' with
        | String c' s'' =>
            if JS.is_lower c' then String c (String c' (dep_tail s'')) else EmptyString
        | EmptyString => EmptyString
        end
      else EmptyString
  | EmptyString => EmptyString
  end.

(** The match that starts at the head of [s], if there is one. *)
Definition dep_match (s : string) : option string :=
  match s with
  | String q s1 =>
      if Ascii.eqb q "'" then
        match s1 with
        | String c s2 =>
            if JS.is_lower c then Some (String q (String c (dep_tail s2)))
            else if Ascii.eqb c "." then
              match s2 with
              | String c' s3 =>
                  if JS.is_lower c'
                  then Some (String q (String c (String c' (dep_tail s3))))
                  else None
              | EmptyString => None
              end
            else None
        | EmptyString => None
        end
      else None
  | EmptyString => None
  end.

(** [matchAll]: scan left to right, resuming after each match ([skip] counts
    the characters of the last match still to pass). *)
Fixpoint dep_matchAll_from (skip : nat) (s : string) : list string :=
  match s with
  | EmptyString => []
  | String _ s' =>
      match skip with
      | S k => dep_matchAll_from k s'
      | O =>
          match dep_match s with
          | Some m => m :: dep_matchAll_from (String.length m - 1) s'
          | None => dep_matchAll_from 0 s'
          end
      end
  end.

Definition dep_matchAll (s : string) : list string := dep_matchAll_from 0 s.

(** [v.constant === undefined && v.elided === undefined] *)
Definition is_expression_binding (b : Binding) : bool :=
  match b_constant b, b_elided b with
  | None, None => true
  | _, _ => false
  end.

Definition ref_is_expression (h : Heap) (r : BindingRef) : bool :=
  match heap_get h r with
  | Some b => is_expression_binding b
  | None => false
  end.

Definition ref_name (h : Heap) (r : BindingRef) : string :=
  match heap_get h r with Some b => b_name b | None => EmptyString end.

Definition Edge : Type := (string * string)%type.

(** The [for] loop that scans each binding's content: the dependencies are
    pushed on the binding, the edges collected. *)
Fixpoint collect_edges (bs : list BindingRef) (h : Heap) : list Edge * Heap :=
  match bs with
  | [] => ([], h)
  | r :: bs' =>
      match heap_get h r with
      | Some b =>
          let deps := map (JS.slice_from 1) (dep_matchAll (b_content b)) in
          let h1 := heap_update r (b_push_dependencies deps) h in
          let '(es, h2) := collect_edges bs' h1 in
          (map (fun dep => (b_name b, dep)) deps ++ es, h2)
      | None => collect_edges bs' h
      end
  end.

(** One pass of [_edges.forEach] for [nodesToDelete[i] = target]. *)
Definition collect_referrers (target : string) (edges : list Edge)
    (nodesToDelete : list string) : list string :=
  fold_left (fun acc v =>
      if String.eqb (snd v) target && negb (includes_key (fst v) acc)
      then acc ++ [fst v] else acc)
    edges nodesToDelete.

(** [for (let i = 0; i < nodesToDelete.length; i++)] over the growing list. *)
Fixpoint nodes_to_delete (fuel : nat) (i : nat) (edges : list Edge)
    (nodesToDelete : list string) : option (list string) :=
  match nth_error nodesToDelete i with
  | None => Some nodesToDelete
  | Some target =>
      match fuel with
      | O => None
      | S fuel' =>
          nodes_to_delete fuel' (S i) edges (collect_referrers target edges nodesToDelete)
      end
  end.

Definition circular_problem (b : Binding) : Problem :=
  mkProblem "circular dependency" (b_namePosition b) CircularDependency.

(** [_bindings.find(v => v.name === n)] *)
Definition find_binding (h : Heap) (bs : list BindingRef) (n : string) : option BindingRef :=
  find (fun r => String.eqb (ref_name h r) n) bs.

Definition mark_circular (bs : list BindingRef) (nodesToDelete : list string) (h : Heap) : Heap :=
  fold_left (fun h n =>
      match find_binding h bs n with
      | Some r => heap_update r (fun b => b_push_problems [circular_problem b] b) h
      | None => h
      end)
    nodesToDelete h.

Definition is_nil {A : Type} (l : list A) : bool :=
  match l with [] => true | _ => false end.

Definition unresolvable_problem : Problem :=
  mkProblem "cannot resolve dependencies" (0, -1)%Z UnresolvableDependencies.

Section Dependencies.
Context {TS : ToposortLib}.

(** The [while (!_nodes.length || !_edges.length)] loop. *)
Fixpoint resolve_loop (fuel : nat) (bs : list BindingRef) (nodes : list string)
    (edges : list Edge) (d : RainDocument) (h : Heap) : option (RainDocument * Heap) :=
  if is_nil nodes || is_nil edges then
    match fuel with
    | O => None
    | S fuel' =>
        match toposort_array nodes edges with
        | Sorted _ => Some (d, h)
        | ThrowsError message =>
            if JS.includes "Cyclic dependency" message then
              let errorExp :=
                JS.slice_drop_last (JS.indexOf JS.double_quote message + 1) message in
              if negb (JS.includes " " errorExp) then
                match nodes_to_delete (S (List.length edges)) 0 edges [errorExp] with
                | None => None
                | Some nodesToDelete =>
                    let edges' := filter (fun v =>
                        negb (includes_key (snd v) nodesToDelete)
                        || negb (includes_key (fst v) nodesToDelete)) edges in
                    let nodes' := filter (fun v =>
                        negb (includes_key v nodesToDelete)) nodes in
                    resolve_loop fuel' bs nodes' edges' d
                      (mark_circular bs nodesToDelete h)
                end
              else resolve_loop fuel' bs nodes edges d h
            else Some (push_problem unresolvable_problem d, h)
        | ThrowsOther => Some (push_problem unresolvable_problem d, h)
        end
    end
  else Some (d, h).

Definition processDependencies (fuel : nat) (d : RainDocument) (h : Heap)
    : option (RainDocument * Heap) :=
  let _bindings := filter (ref_is_expression h) (bindings d) in
  let _nodes := map (ref_name h) _bindings in
  let '(_edges, h1) := collect_edges _bindings h in
  resolve_loop fuel _bindings _nodes _edges d h1.
End Dependencies.

(** ** Context aliases ([toContextAlias]) *)

Fixpoint fold_left_opt {A B : Type} (f : A -> B -> option A) (l : list B) (a : A)
    : option A :=
  match l with
  | [] => Some a
  | x :: l' =>
      match f a x with
      | Some a' => fold_left_opt f l' a'
      | None => None
      end
  end.

Definition or_empty (s : option string) : string :=
  match s with Some x => x | None => EmptyString end.

(** [e.row !== i] *)
Definition row_differs (e : ContextAlias) (i : Z) : bool :=
  match ca_row e with
  | Some r => negb (r =? i)%Z
  | None => true
  end.

(** [!isNaN(e.row)] *)
Definition row_is_number (e : ContextAlias) : bool :=
  match ca_row e with Some _ => true | None => false end.

Definition alias_named (n : string) (e : ContextAlias) : bool :=
  String.eqb (ca_name e) n.

(** The body of [ctxCol.cells?.forEach]; [None] is the thrown error. *)
Definition add_cell (ctxCol : ContextColumn) (acc : list ContextAlias)
    (ctxCell : ContextCell) : option (list ContextAlias) :=
  if existsb (fun e => alias_named (cell_alias ctxCell) e &&
                (negb (ca_column e =? columnIndex ctxCol)%Z
                 || row_differs e (cellIndex ctxCell))) acc
  then None
  else if existsb (alias_named (cell_alias ctxCell)) acc then Some acc
  else Some (acc ++ [mkContextAlias (cell_alias ctxCell) (columnIndex ctxCol)
                       (Some (cellIndex ctxCell)) (or_empty (cell_desc ctxCell))]).

(** The body of [exp.contextColumns?.forEach]. *)
Definition add_column (acc : list ContextAlias) (ctxCol : ContextColumn)
    : option (list ContextAlias) :=
  if existsb (fun e => alias_named (col_alias ctxCol) e &&
                (negb (ca_column e =? columnIndex ctxCol)%Z || row_is_number e)) acc
  then None
  else
    let acc1 :=
      if existsb (alias_named (col_alias ctxCol)) acc then acc
      else acc ++ [mkContextAlias (col_alias ctxCol) (columnIndex ctxCol) None
                     (or_empty (col_desc ctxCol))] in
    match cells ctxCol with
    | Some cs => fold_left_opt (add_cell ctxCol) cs acc1
    | None => Some acc1
    end.

Definition add_expression (acc : list ContextAlias) (exp : MetaExpression)
    : option (list ContextAlias) :=
  match contextColumns exp with
  | Some cols => fold_left_opt add_column cols acc
  | None => Some acc
  end.

Definition add_method (acc : list ContextAlias) (method : MetaMethod)
    : option (list ContextAlias) :=
  fold_left_opt add_expression (expressions method) acc.

(** [None]: "duplicate context alias identifier" is thrown. *)
Definition toContextAlias (contractMeta : ContractMeta) : option (list ContextAlias) :=
  fold_left_opt add_method (methods contractMeta) [].

(** ** Imports *)

Section ImportRecords.
Context {D : Type}.

Definition imp_set_name (n : string) (p : Offsets) (i : Import D) : Import D :=
  mkImport n (imp_hash i) p (imp_hashPosition i) (imp_problems i) (imp_position i)
    (reconfigs i) (reconfigProblems i) (sequence i).
Definition imp_set_hash (hsh : string) (p : Offsets) (i : Import D) : Import D :=
  mkImport (imp_name i) hsh (imp_namePosition i) p (imp_problems i) (imp_position i)
    (reconfigs i) (reconfigProblems i) (sequence i).
Definition imp_push_problem (p : Problem) (i : Import D) : Import D :=
  mkImport (imp_name i) (imp_hash i) (imp_namePosition i) (imp_hashPosition i)
    (imp_problems i ++ [p]) (imp_position i) (reconfigs i) (reconfigProblems i)
    (sequence i).
Definition imp_set_reconfigs (rs : list Reconfig) (ps : list Problem) (i : Import D)
    : Import D :=
  mkImport (imp_name i) (imp_hash i) (imp_namePosition i) (imp_hashPosition i)
    (imp_problems i) (imp_position i) (Some rs) (Some ps) (sequence i).
Definition imp_set_sequence (s : option (Sequence D)) (i : Import D) : Import D :=
  mkImport (imp_name i) (imp_hash i) (imp_namePosition i) (imp_hashPosition i)
    (imp_problems i) (imp_position i) (reconfigs i) (reconfigProblems i) s.

(** [imp.sequence], created when absent ([if (!imp.sequence) imp.sequence = {}]). *)
Definition the_sequence (i : Import D) : Sequence D :=
  match sequence i with Some s => s | None => empty_sequence end.
End ImportRecords.

Definition chunk_text (c : ParsedChunk) : string := fst c.
Definition chunk_pos (c : ParsedChunk) : Offsets := snd c.

(** [_reconfigs.find(v => v[0][0] === _key[0] && v[1][0] === chunks[i][0])] *)
Definition has_reconfig (rs : list Reconfig) (key nxt : ParsedChunk) : bool :=
  existsb (fun v : Reconfig =>
      String.eqb (chunk_text (fst v)) (chunk_text key) &&
      match snd v with
      | Some c => String.eqb (chunk_text c) (chunk_text nxt)
      | None => false
      end) rs.

Definition duplicate_statement (key nxt : ParsedChunk) : Problem :=
  mkProblem "duplicate statement" (fst (chunk_pos key), snd (chunk_pos nxt))
    DuplicateImportStatement.

Section Configs.
Context {LT : LanguageTypes}.

(** One turn of the loop of [processImportConfigs] on [chunks[i]] and the
    chunk after it (absent at the end); every turn passes both. *)
Definition config_step (rs : list Reconfig) (key : ParsedChunk)
    (nxt : option ParsedChunk) : list Problem :=
  if String.eqb (chunk_text key) "." then
    match nxt with
    | Some n =>
        if String.eqb (chunk_text n) "!" then
          if has_reconfig rs key n then [duplicate_statement key n] else []
        else [mkProblem "unexpected token" (chunk_pos n) UnexpectedToken]
    | None =>
        [mkProblem "expected elision syntax" (chunk_pos key) ExpectedElisionOrRebinding]
    end
  else if WORD_PATTERN (chunk_text key) then
    match nxt with
    | Some n =>
        if NUMERIC_PATTERN (chunk_text n) || String.eqb (chunk_text n) "!" then
          if has_reconfig rs key n then [duplicate_statement key n] else []
        else [mkProblem "unexpected token" (chunk_pos n) UnexpectedToken]
    | None =>
        [mkProblem "expected rebinding or elision" (chunk_pos key)
           ExpectedElisionOrRebinding]
    end
  else if JS.startsWith "'" (chunk_text key) then
    if WORD_PATTERN (JS.slice_from 1 (chunk_text key)) then
      match nxt with
      | Some n =>
          if WORD_PATTERN (chunk_text n) then
            if has_reconfig rs key n then [duplicate_statement key n] else []
          else [mkProblem "invalid word pattern" (chunk_pos n) InvalidWordPattern]
      | None => [mkProblem "expected name" (chunk_pos key) ExpectedName]
      end
    else [mkProblem "invalid word pattern" (chunk_pos key) InvalidWordPattern]
  else [mkProblem "unexpected token" (chunk_pos key) UnexpectedToken].

Fixpoint config_loop (chunks : list ParsedChunk) (rs : list Reconfig)
    (ps : list Problem) : list Reconfig * list Problem :=
  match chunks with
  | [] => (rs, ps)
  | [key] => (rs ++ [(key, None)], ps ++ config_step rs key None)
  | key :: n :: rest =>
      config_loop rest (rs ++ [(key, Some n)]) (ps ++ config_step rs key (Some n))
  end.

Definition processImportConfigs {D : Type} (imp : Import D) (chunks : list ParsedChunk)
    : Import D :=
  let '(_reconfigs, _reconfigProblems) := config_loop chunks [] [] in
  imp_set_reconfigs _reconfigs _reconfigProblems imp.
End Configs.

Definition undefined_authoring_meta (pos : Offsets) : Problem :=
  mkProblem "cannot find any settlement for authoring meta of specified dispair"
    pos UndefinedAuthoringMeta.

Definition invalid_rain_document (pos : Offsets) : Problem :=
  mkProblem "imported rain document contains top level errors" pos InvalidRainDocument.

Definition corrupt_meta (pos : Offsets) : Problem :=
  mkProblem "corrupt meta" pos CorruptMeta.

(** Whether the promise of [processMeta] resolves or rejects. *)
Inductive Settled : Type := Resolved | Rejected.

Definition ImportState : Type := (Import RainDocument * RainDocument * Heap)%type.

Section ProcessImport.
Context {HP : Helpers} {LT : LanguageTypes} {MS : MetaStore}.

(** [dotrain.parse()] of a nested document; [None] when the recursion is
    cut short. *)
Variable parse_nested : RainDocument -> Heap -> option (RainDocument * Heap).

Definition processMeta (imp : Import RainDocument) (meta : MetaMap)
    (d : RainDocument) (h : Heap) : option (Settled * ImportState) :=
  match meta with
  | OtherMeta false => Some (Rejected, (imp, d, h))
  | OtherMeta true =>
      Some (Rejected, (imp_set_sequence (Some (the_sequence imp)) imp, d, h))
  | DeployerBytecodeMeta hexBytecode lookup =>
      let seq := the_sequence imp in
      let imp1 := imp_set_sequence (Some seq) imp in
      let with_dispair am :=
        imp_set_sequence
          (Some (mkSequence
                   (match hexBytecode with
                    | Some bc => Some (mkDispair bc am)
                    | None => None
                    end)
                   (ctxmeta seq) (dotrain seq))) imp in
      match hexBytecode with
      | None => Some (Rejected, (imp1, d, h))
      | Some _ =>
          if _ignoreAM d then Some (Resolved, (with_dispair [], d, h))
          else
            match lookup with
            | LookupThrows => Some (Rejected, (imp1, d, h))
            | LookupUndefined =>
                let d1 :=
                  if _ignoreUAM d then d
                  else push_problem (undefined_authoring_meta (imp_hashPosition imp)) d in
                Some (Resolved, (with_dispair [], d1, h))
            | LookupFound am => Some (Resolved, (with_dispair am, d, h))
            end
      end
  | ContractMetaV1 parsed =>
      let seq := the_sequence imp in
      let imp1 := imp_set_sequence (Some seq) imp in
      match parsed with
      | None => Some (Rejected, (imp1, d, h))
      | Some _parsed =>
          match toContextAlias _parsed with
          | None => Some (Rejected, (imp1, d, h))
          | Some aliases =>
              Some (Resolved,
                    (imp_set_sequence
                       (Some (mkSequence (dispair seq) (Some aliases) (dotrain seq)))
                       imp, d, h))
          end
      end
  | DotrainMeta txt =>
      let seq := the_sequence imp in
      let imp1 := imp_set_sequence (Some seq) imp in
      match txt with
      | None => Some (Rejected, (imp1, d, h))
      | Some _str =>
          match parse_nested (new_RainDocument _str (importDepth d + 1)) h with
          | None => None
          | Some (nested, h1) =>
              let imp2 :=
                imp_set_sequence
                  (Some (mkSequence (dispair seq) (ctxmeta seq) (Some nested))) imp in
              let imp3 :=
                if is_nil (problems nested) then imp2
                else imp_push_problem (invalid_rain_document (imp_hashPosition imp)) imp2 in
              Some (Resolved, (imp3, d, h1))
          end
      end
  end.

(** [Promise.all(_mm.map(metamap => this.processMeta(_result, metamap)))]:
    [true] when one of the promises rejected. *)
Fixpoint processMeta_all (mm : list MetaMap) (st : ImportState)
    : option (bool * ImportState) :=
  match mm with
  | [] => Some (false, st)
  | meta :: mm' =>
      let '(imp, d, h) := st in
      match processMeta imp meta d h with
      | None => None
      | Some (s, st1) =>
          match processMeta_all mm' st1 with
          | None => None
          | Some (rejected, st2) =>
              Some (match s with Rejected => true | Resolved => rejected end, st2)
          end
      end
  end.

(** The name and hash tokens of an import statement: the import so far,
    whether the meta was requested ([_metaPromise !== undefined]), and the
    chunks left for the configurations ([None] when there is no chunk and
    [processImportConfigs] is not called). *)
Definition import_head (imp : ParsedChunk)
    : Import RainDocument * bool * option (list ParsedChunk) :=
  let _atPos : Offsets := ((fst (chunk_pos imp) - 1)%Z, (fst (chunk_pos imp) - 1)%Z) in
  let _result : Import RainDocument :=
    mkImport "." EmptyString _atPos _atPos []
      ((fst (chunk_pos imp) - 1)%Z, snd (chunk_pos imp)) None None None in
  match exclusiveParse (chunk_text imp) WhitespaceGd (Some (fst (chunk_pos imp))) false with
  | [] =>
      (imp_push_problem
         (mkProblem "expected a valid name or hash" _atPos InvalidImport) _result,
       false, None)
  | _nameOrHash :: _chunks =>
      let '(r1, requested1) :=
        if negb (HEX_PATTERN (chunk_text _nameOrHash)) then
          let r := imp_set_name (chunk_text _nameOrHash) (chunk_pos _nameOrHash) _result in
          (if negb (WORD_PATTERN (chunk_text _nameOrHash))
           then imp_push_problem
                  (mkProblem "invalid word pattern" (chunk_pos _nameOrHash)
                     InvalidWordPattern) r
           else r, false)
        else
          let r := imp_set_name "." (chunk_pos _nameOrHash) _result in
          if HASH_PATTERN (chunk_text _nameOrHash)
          then (imp_set_hash (JS.toLowerCase (chunk_text _nameOrHash))
                  (chunk_pos _nameOrHash) r, true)
          else (imp_push_problem
                  (mkProblem "invalid hash, must be 32 bytes" (chunk_pos _nameOrHash)
                     ExpectedHash) r, false) in
      if negb (String.eqb (imp_name r1) ".") then
        match _chunks with
        | _hash :: _chunks' =>
            if HEX_PATTERN (chunk_text _hash) then
              if negb (HASH_PATTERN (chunk_text _hash))
              then (imp_push_problem
                      (mkProblem "invalid hash, must be 32 bytes" (chunk_pos _hash)
                         InvalidHash) r1, requested1, Some _chunks')
              else (imp_set_hash (JS.toLowerCase (chunk_text _hash)) (chunk_pos _hash) r1,
                    true, Some _chunks')
            else (imp_push_problem
                    (mkProblem "expected hash" (chunk_pos _hash) ExpectedHash) r1,
                  requested1, Some _chunks')
        | [] =>
            (imp_push_problem
               (mkProblem "expected import hash" _atPos ExpectedHash) r1,
             requested1, Some [])
        end
      else (r1, requested1, Some _chunks)
  end.

(** The three filters that order the meta maps of a record. *)
Definition ordered_maps (_metaMaps : list MetaMap) : list MetaMap :=
  filter is_deployer _metaMaps ++ filter is_contract _metaMaps
  ++ filter is_dotrain _metaMaps.

(** The branch of [processImport] that classifies the decoded meta maps,
    with its [try]/[catch]. *)
Definition classify_meta (_metaMaps : list MetaMap) (st : ImportState)
    : option ImportState :=
  let '(imp, d, h) := st in
  let imp0 := imp_set_sequence (Some empty_sequence) imp in
  match processMeta_all (ordered_maps _metaMaps) (imp0, d, h) with
  | None => None
  | Some (false, st1) => Some st1
  | Some (true, (imp1, d1, h1)) =>
      Some (imp_push_problem (corrupt_meta (imp_hashPosition imp1))
              (imp_set_sequence (Some empty_sequence) imp1), d1, h1)
  end.

Definition processImport (imp : ParsedChunk) (d : RainDocument) (h : Heap)
    : option ImportState :=
  let '(r0, requested, chunks) := import_head imp in
  let r1 :=
    match chunks with
    | Some cs => processImportConfigs r0 cs
    | None => r0
    end in
  let _record := getMeta (imp_hash r1) in
  let resolved : option ImportState :=
    if requested then
      match _record with
      | None =>
          Some (imp_push_problem
                  (mkProblem ("cannot find any settlement for hash: " ++ imp_hash r1)
                     (imp_hashPosition r1) UndefinedMeta) r1, d, h)
      | Some rec =>
          match Meta_decode rec with
          | None => Some (imp_push_problem (corrupt_meta (imp_hashPosition r1)) r1, d, h)
          | Some _metaMaps =>
              if negb (isConsumableMeta _metaMaps) then
                Some (imp_push_problem
                        (mkProblem "inconsumable import" (imp_hashPosition r1)
                           InconsumableMeta) r1, d, h)
              else classify_meta _metaMaps (r1, d, h)
          end
      end
    else Some (r1, d, h) in
  match resolved with
  | None => None
  | Some (r2, d2, h2) =>
      Some (r2,
            push_problems
              (imp_problems r2 ++
               match reconfigProblems r2 with Some ps => ps | None => [] end) d2,
            h2)
  end.
End ProcessImport.

(** ** The payloads behind their awaits

    [processMeta] is an async function: a call runs up to its first [await]
    when it is made, and the rest runs when the awaited promise has
    settled. The contract branch has no [await]. The deployer branch awaits
    [execBytecode] and the store before it writes [imp.sequence.dispair],
    unless the authoring meta is ignored. [Promise.all] rejects with the
    first rejection, and the [catch] of [processImport] then runs while the
    other calls are still behind their awaits. [classify_meta_late] follows
    the source on that schedule: every call is started, a rejection among
    them is caught, and then the look-ups settle, in the order of their
    calls. *)

Inductive Started : Type :=
  | Settles (s : Settled)
  | AwaitsLookup (bc : string) (lookup : AuthoringLookup).

(** [imp.sequence.dispair = { bytecode, authoringMeta }] *)
Definition write_dispair (bc : string) (am : list Authoring) (imp : Import RainDocument)
    : Import RainDocument :=
  let seq := the_sequence imp in
  imp_set_sequence
    (Some (mkSequence (Some (mkDispair bc am)) (ctxmeta seq) (dotrain seq))) imp.

(** A call of [processMeta] up to its first [await]. [None] for a dotrain
    payload that decodes: the parse of its nested document is not followed
    here. *)
Definition processMeta_start (imp : Import RainDocument) (meta : MetaMap)
    (d : RainDocument) : option (Started * Import RainDocument) :=
  match meta with
  | OtherMeta false => Some (Settles Rejected, imp)
  | OtherMeta true =>
      Some (Settles Rejected, imp_set_sequence (Some (the_sequence imp)) imp)
  | DeployerBytecodeMeta hexBytecode lookup =>
      let imp1 := imp_set_sequence (Some (the_sequence imp)) imp in
      match hexBytecode with
      | None => Some (Settles Rejected, imp1)
      | Some bc =>
          if _ignoreAM d then Some (Settles Resolved, write_dispair bc [] imp1)
          else Some (AwaitsLookup bc lookup, imp1)
      end
  | ContractMetaV1 parsed =>
      let seq := the_sequence imp in
      let imp1 := imp_set_sequence (Some seq) imp in
      match parsed with
      | None => Some (Settles Rejected, imp1)
      | Some _parsed =>
          match toContextAlias _parsed with
          | None => Some (Settles Rejected, imp1)
          | Some aliases =>
              Some (Settles Resolved,
                    imp_set_sequence
                      (Some (mkSequence (dispair seq) (Some aliases) (dotrain seq))) imp)
          end
      end
  | DotrainMeta None =>
      Some (Settles Rejected, imp_set_sequence (Some (the_sequence imp)) imp)
  | DotrainMeta (Some _) => None
  end.

(** The rest of the deployer branch, from the look-ups that have settled to
    the assignment of [imp.sequence.dispair]: the sequence it writes to is
    the one the import has by then. *)
Definition processMeta_resume (imp : Import RainDocument) (bc : string)
    (lookup : AuthoringLookup) (d : RainDocument)
    : Settled * (Import RainDocument * RainDocument) :=
  match sequence imp with
  | None => (Rejected, (imp, d))
  | Some _ =>
      match lookup with
      | LookupThrows => (Rejected, (imp, d))
      | LookupUndefined =>
          (Resolved,
           (write_dispair bc [] imp,
            if _ignoreUAM d then d
            else push_problem (undefined_authoring_meta (imp_hashPosition imp)) d))
      | LookupFound am => (Resolved, (write_dispair bc am imp, d))
      end
  end.

(** The [catch] around [Promise.all] in [processImport]. *)
Definition catch_corrupt (imp : Import RainDocument) : Import RainDocument :=
  imp_push_problem (corrupt_meta (imp_hashPosition imp))
    (imp_set_sequence (Some empty_sequence) imp).

(** The calls of [_mm.map]: whether one has rejected already, and the
    look-ups that are awaited. *)
Fixpoint start_all (mm : list MetaMap) (imp : Import RainDocument) (d : RainDocument)
    : option (bool * list (string * AuthoringLookup) * Import RainDocument) :=
  match mm with
  | [] => Some (false, [], imp)
  | meta :: mm' =>
      match processMeta_start imp meta d with
      | None => None
      | Some (st, imp1) =>
          match start_all mm' imp1 d with
          | None => None
          | Some (rejected, pending, imp2) =>
              Some (match st with
                    | Settles Rejected => (true, pending, imp2)
                    | Settles Resolved => (rejected, pending, imp2)
                    | AwaitsLookup bc lookup => (rejected, (bc, lookup) :: pending, imp2)
                    end)
          end
      end
  end.

(** The awaited look-ups settle one after the other; the first rejection,
    when none was caught before, is caught at once. *)
Fixpoint resume_all (pending : list (string * AuthoringLookup)) (caught : bool)
    (imp : Import RainDocument) (d : RainDocument)
    : Import RainDocument * RainDocument :=
  match pending with
  | [] => (imp, d)
  | (bc, lookup) :: rest =>
      match processMeta_resume imp bc lookup d with
      | (Resolved, (imp1, d1)) => resume_all rest caught imp1 d1
      | (Rejected, (imp1, d1)) =>
          resume_all rest true (if caught then imp1 else catch_corrupt imp1) d1
      end
  end.

Definition classify_meta_late (_metaMaps : list MetaMap) (imp : Import RainDocument)
    (d : RainDocument) : option (Import RainDocument * RainDocument) :=
  let imp0 := imp_set_sequence (Some empty_sequence) imp in
  match start_all (ordered_maps _metaMaps) imp0 d with
  | None => None
  | Some (rejected, pending, imp1) =>
      Some (if rejected then resume_all pending true (catch_corrupt imp1) d
            else resume_all pending false imp1 d)
  end.

(** ** Namespace tree *)

(** Modelled from the spec: [AST.Namespace.isNode], [isWord], [isBinding] and
    [isContextAlias] are declared with the language types, which are not
    part of the source; a namespace node is a leaf holding a word set, a
    single word, a binding or a context alias, and each test recognises the
    leaves of its kind. A namespace, and so the inherited value that
    [ns_read] reads as one, is no node. *)
Definition isNode (x : NsItem) : bool := has_Element x.

Definition isWord (x : NsItem) : bool :=
  match x with
  | NsLeaf n => match node_Element n with EWord _ => true | _ => false end
  | NsInterior _ => false
  end.

Definition isBinding (x : NsItem) : bool :=
  match x with
  | NsLeaf n => match node_Element n with EBinding _ => true | _ => false end
  | NsInterior _ => false
  end.

Definition isContextAlias (x : NsItem) : bool :=
  match x with
  | NsLeaf n => match node_Element n with EContextAlias _ => true | _ => false end
  | NsInterior _ => false
  end.

(** [copyNamespace]: fresh nodes around the same elements; a copied leaf has
    no [bytecode] property. The test ["Element" in ns[k]] is the leaf test
    of a [plain] tree. *)
Fixpoint copyItem (index : Z) (hash : string) (x : NsItem) : NsItem :=
  match x with
  | NsLeaf n =>
      NsLeaf (mkNode (if String.eqb (Hash n) EmptyString then hash else Hash n)
                index (node_Element n) None)
  | NsInterior m =>
      NsInterior (map (fun kv => let '(k, v) := kv in (k, copyItem index hash v)) m)
  end.

Definition copyNamespace (ns : Namespace) (index : Z) (hash : string) : Namespace :=
  map (fun kv => let '(k, v) := kv in (k, copyItem index hash v)) ns.

Definition msg_ok : string := "ok".
Definition msg_occupied : string := "cannot import into an occupied namespace".
Definition msg_words : string := "namespace already contains a set of words".
Definition msg_duplicate : string := "duplicate identifier".

(** The test on two leaves that share a key, in [_check]; [None] lets the
    loop go on. *)
Definition check_leaves (_dupWords : bool) (n c : NsItem) : option string :=
  if negb (isWord n) || negb (isWord c) then
    if (isBinding n && isBinding c) || (isContextAlias n && isContextAlias c) then
      if negb (opt_string_eqb (item_Hash n) (item_Hash c)) then Some msg_duplicate
      else None
    else Some msg_duplicate
  else if negb _dupWords then Some msg_words else None.

(** [_check(nns, cns)] of [mergeNamespace]. [nns] is a namespace in every
    call (the leaf case of [nns] does not arise). For each key of [nns] the
    inner loop over the keys of [cns] meets at most one equal key. *)
Fixpoint _check (nns : NsItem) (cns : NsItem) {struct nns} : string :=
  match cns with
  | NsInterior [] => msg_ok
  | NsLeaf _ => msg_occupied
  | NsInterior c =>
      if includes_key "Element" (obj_keys c) then msg_occupied
      else
      match nns with
      | NsLeaf _ => msg_ok
      | NsInterior n =>
          let words : option bool :=
            match obj_get "Words" c with
            | Some cw =>
                match obj_get "Words" n with
                | Some nw =>
                    if negb (opt_string_eqb (item_Hash nw) (item_Hash cw))
                    then None else Some true
                | None => Some false
                end
            | None => Some false
            end in
          match words with
          | None => msg_words
          | Some _dupWords =>
              (fix loop (l : list (string * NsItem)) : string :=
                 match l with
                 | [] => msg_ok
                 | (k, nk) :: l' =>
                     match obj_get k c with
                     | None => loop l'
                     | Some ck =>
                         if negb (has_Element nk) && negb (has_Element ck) then
                           let _result := _check nk ck in
                           if negb (String.eqb _result msg_ok) then _result else loop l'
                         else if isNode nk && isNode ck then
                           match check_leaves _dupWords nk ck with
                           | Some r => r
                           | None => loop l'
                           end
                         else msg_occupied
                     end
                 end) n
          end
      end
  end.

(** [_merge(nns, cns)] of [mergeNamespace]; the result is [cns] after the
    call. A key of [nns] that is a namespace is merged into the namespace
    [cns] has there ([_check] has excluded a leaf). *)
Fixpoint _merge (nns : NsItem) (cns : Namespace) {struct nns} : Namespace :=
  match nns with
  | NsLeaf _ => cns
  | NsInterior n =>
      let _cKeys := obj_keys cns in
      (fix loop (l : list (string * NsItem)) (acc : Namespace) : Namespace :=
         match l with
         | [] => acc
         | (k, nk) :: l' =>
             if is_nil _cKeys then loop l' (obj_set k nk acc)
             else if negb (includes_key k _cKeys) then loop l' (obj_set k nk acc)
             else if negb (has_Element nk) then
               match obj_get k acc with
               | Some (NsInterior ck) => loop l' (obj_set k (NsInterior (_merge nk ck)) acc)
               | _ => loop l' acc
               end
             else loop l' acc
         end) n cns
  end.

Definition check_code (_isOk : string) : ErrorCode :=
  if JS.includes "identifier" _isOk then DuplicateIdentifier
  else if JS.includes "words" _isOk then MultipleWords
  else InvalidImport.

(** [Object.keys(x).length === 0] for a namespace entry *)
Definition has_no_keys (x : NsItem) : bool :=
  match x with NsInterior [] => true | _ => false end.

(** [mergeNamespace(imp, ns)]: the returned flag and the document after.
    [this.namespace[imp.name]] is defined when the name is a key of the
    namespace or an inherited name. In the second case [_mns] is the
    inherited value, which has no keys of its own: the check answers "ok"
    and the merge lands on that value, outside the namespace. *)
Definition mergeNamespace (imp : Import RainDocument) (ns : Namespace)
    (d : RainDocument) : bool * RainDocument :=
  let root0 := namespace d in
  let is_root := String.eqb (imp_name imp) "." in
  let root1 :=
    if negb is_root
       && negb (obj_has (imp_name imp) root0 || inherited (imp_name imp))
    then obj_set (imp_name imp) (NsInterior []) root0 else root0 in
  match (if is_root then Some (NsInterior root1)
         else obj_get (imp_name imp) root1) with
  | None => (true, d)
  | Some _mns =>
      let _isOk := _check (NsInterior ns) _mns in
      if negb (String.eqb _isOk msg_ok) then
        let d1 := push_problem
                    (mkProblem _isOk (imp_hashPosition imp) (check_code _isOk))
                    (set_namespace root1 d) in
        let root2 :=
          if negb is_root &&
             match obj_get (imp_name imp) root1 with
             | Some x => has_no_keys x
             | None => false
             end
          then obj_delete (imp_name imp) root1 else root1 in
        (false, set_namespace root2 d1)
      else
        let root2 :=
          match _mns with
          | NsInterior m =>
              if is_root then _merge (NsInterior ns) m
              else obj_set (imp_name imp) (NsInterior (_merge (NsInterior ns) m)) root1
          | NsLeaf _ => root1
          end in
        (true, set_namespace root2 d)
  end.

(** The subtree an import is merged into: the root for the name [.], the
    entry of its name otherwise. *)
Definition merge_target (imp : Import RainDocument) (d : RainDocument) : option NsItem :=
  if String.eqb (imp_name imp) "." then Some (NsInterior (namespace d))
  else obj_get (imp_name imp) (namespace d).

(** ** Working words ([getWords]) *)

(** A computation that ends normally or by a thrown error, with the state
    it leaves. *)
Inductive Completion (S : Type) : Type :=
  | Normal (s : S)
  | Throws (e : string) (s : S).
Arguments Normal {S}.
Arguments Throws {S}.

Definition type_error : string := "TypeError".

(** The [Words] test that opens [_validate]: [inl] is the early return,
    [inr] the count and hash the loop starts from, [None] a [TypeError]
    ([toLowerCase] of [undefined]). *)
Definition validate_words (w : option NsItem) (hash : option string)
    : option (nat * option string + nat * option string) :=
  match w with
  | None => Some (inr (0, hash))
  | Some x =>
      if opt_string_eqb hash (Some EmptyString) then Some (inr (1, item_Hash x))
      else
        match item_Hash x, hash with
        | Some wh, Some hh =>
            if negb (String.eqb (JS.toLowerCase wh) (JS.toLowerCase hh))
            then Some (inl (1, hash))
            else Some (inr (0, hash))
        | _, _ => None
        end
  end.

(** [_validate(ns, hash)]: [None] is a thrown [TypeError]. *)
Fixpoint _validate (ns : NsItem) (hash : option string) {struct ns}
    : option (nat * option string) :=
  match ns with
  | NsLeaf _ => Some (0, hash)
  | NsInterior m =>
      match validate_words (obj_get "Words" m) hash with
      | None => None
      | Some (inl r) => Some r
      | Some (inr (c0, hash0)) =>
          (fix loop (l : list (string * NsItem)) (_c : nat) (hash : option string)
             : option (nat * option string) :=
             match l with
             | [] => Some (_c, hash)
             | (_, v) :: l' =>
                 if has_Element v then loop l' _c hash
                 else
                   match _validate v hash with
                   | None => None
                   | Some (c1, hash1) =>
                       if 1 <? _c + c1 then Some (_c + c1, hash1)
                       else loop l' (_c + c1) hash1
                   end
             end) m c0 hash0
      end
  end.

(** The cast [Element as Meta.Authoring[]] *)
Definition as_words (e : Element) : list Authoring :=
  match e with EWords ws => ws | _ => [] end.

Definition item_words (x : NsItem) : list Authoring :=
  match x with NsLeaf n => as_words (node_Element n) | NsInterior _ => [] end.

Definition item_bytecode (x : NsItem) : option string :=
  match x with NsLeaf n => node_bytecode n | NsInterior _ => None end.

(** The words [_get] assigns to the instance, when it assigns any. *)
Definition Found : Type := option (list Authoring * option string).

Definition is_empty_string (s : string) : bool :=
  match s with EmptyString => true | _ => false end.

(** [_get(ns, path)]: the returned path and the last assignment made. *)
Fixpoint _get (ns : NsItem) (path : string) (found : Found) {struct ns}
    : string * Found :=
  match ns with
  | NsLeaf _ => (EmptyString, found)
  | NsInterior m =>
      match obj_get "Words" m with
      | Some w => (path, Some (item_words w, item_bytecode w))
      | None =>
          (fix loop (l : list (string * NsItem)) (found : Found) : string * Found :=
             match l with
             | [] => (EmptyString, found)
             | (k, v) :: l' =>
                 if has_Element v then loop l' found
                 else
                   let '(_p, found1) := _get v k found in
                   if negb (is_empty_string _p) then ((path ++ "." ++ _p)%string, found1)
                   else loop l' found1
             end) m found
      end
  end.

Definition singleton_problem (_wordsCount : nat) : Problem :=
  mkProblem ("words must be singleton, but namespaces include "
             ++ JS.of_nat _wordsCount ++ " sets of words")
    (0, -1)%Z SingletonWords.

Definition no_words_problem : Problem :=
  mkProblem "cannot find any set of words" (0, -1)%Z UndefinedDISpair.

Definition getWords (d : RainDocument) : Completion RainDocument :=
  match _validate (NsInterior (namespace d)) (Some EmptyString) with
  | None => Throws type_error d
  | Some (_wordsCount, _) =>
      if 1 <? _wordsCount then Normal (push_problem (singleton_problem _wordsCount) d)
      else if _wordsCount =? 0 then Normal (push_problem no_words_problem d)
      else
        let '(_path, found) := _get (NsInterior (namespace d)) EmptyString None in
        let d1 :=
          match found with
          | Some (am, bc) => set_words am (authoringMetaPath d) bc d
          | None => d
          end in
        Normal (set_words (authoringMeta d1)
                  (if is_empty_string _path then "." else _path) (bytecode d1) d1)
  end.

(** ** Constants and elisions *)

Definition endsWith (p s : string) : bool := String.prefix (JS.rev p) (JS.rev s).

(** [/^[1-9]\d*e\d+$/] *)
Definition is_sci (s : string) : bool :=
  let i := JS.indexOf "e" s in
  let mantissa := JS.slice_to i s in
  let exponent := JS.slice_from (i + 1) s in
  (0 <? i)%Z &&
  match mantissa with
  | String c m =>
      JS.is_digit c && negb (Ascii.eqb c "0") && JS.every JS.is_digit m
  | EmptyString => false
  end &&
  negb (is_empty_string exponent) && JS.every JS.is_digit exponent.

(** [/^0x[0-9a-zA-Z]+$/] *)
Definition is_hex_literal (s : string) : bool :=
  JS.startsWith "0x" s &&
  negb (is_empty_string (JS.drop 2 s)) &&
  JS.every (fun c => JS.is_digit c || JS.is_lower c || JS.is_upper c) (JS.drop 2 s).

(** [/^[a-z][a-z0-9-]*$/] *)
Definition is_binding_name (s : string) : bool :=
  match s with
  | String c s' => JS.is_lower c && JS.every is_dep_char s'
  | EmptyString => false
  end.

Section Constants.
Context {HP : Helpers} {LT : LanguageTypes} {JN : JSNumbers}.

(** [isConstant(text)]: the numeric value, or the empty string. The
    [RangeError] that [repeat] throws for a value longer than the longest
    string is not modelled: the value is followed up to [JS.safe_length]. *)
Definition isConstant (txt : string) : string :=
  match exclusiveParse txt WhitespaceGd None false with
  | [item] =>
      let s := chunk_text item in
      if NUMERIC_PATTERN s then
        if is_sci s then
          let _index := JS.indexOf "e" s in
          (JS.slice_to _index s
           ++ JS.repeat "0" (JS.to_nat (JS.slice_from (_index + 1) s)))%string
        else if is_hex_literal s then s
        else BigInt_toString s
      else EmptyString
  | _ => EmptyString
  end.

(** [isElided(text)] *)
Definition isElided (txt : string) : bool := JS.startsWith "!" (JS.trim txt).
End Constants.

(** ** Reconfigurations of an import *)

Definition quoted (s : string) : string :=
  String JS.double_quote (s ++ String JS.double_quote EmptyString).

(** The rebinding of a binding: [constant] is written, a set [elided] and a
    set [exp] are deleted. *)
Definition rebind (value : string) (b : Binding) : Binding :=
  mkBinding (b_name b) (b_namePosition b) (b_content b) (b_contentPosition b)
    (b_position b) (b_problems b) (b_dependencies b)
    (match b_elided b with
     | Some e => if is_empty_string e then Some e else None
     | None => None
     end)
    (Some value)
    None.

Definition MergeState : Type := (Namespace * RainDocument * Heap)%type.

Definition span (a b : ParsedChunk) : Offsets :=
  (fst (chunk_pos a), snd (chunk_pos b)).

(** [delete _ns[v.word]] for every word of the set, then [delete _ns["Words"]]. *)
Definition delete_words (ws : list Authoring) (_ns : Namespace) : Namespace :=
  obj_delete "Words" (fold_left (fun ns v => obj_delete (word v) ns) ws _ns).

(** The body of the loop over [_imp.reconfigs]. *)
Definition apply_reconfig (_s : Reconfig) (st : MergeState) : Completion MergeState :=
  let '(_ns, d, h) := st in
  let s0 := fst _s in
  match snd _s with
  | None => Normal st
  | Some s1 =>
      if String.eqb (chunk_text s1) "!" then
        if String.eqb (chunk_text s0) "." then
          match obj_get "Words" _ns with
          | Some (NsLeaf n) =>
              match node_Element n with
              | EWords ws => Normal (delete_words ws _ns, d, h)
              | _ => Throws type_error st
              end
          | Some (NsInterior _) => Throws type_error st
          | None =>
              Normal (_ns,
                      push_problem
                        (mkProblem "cannot elide undefined words" (span s0 s1)
                           UndefinedDISpair) d, h)
          end
        else
          match ns_read (chunk_text s0) _ns with
          | Some x =>
              if isWord x then
                Normal (_ns,
                        push_problem
                          (mkProblem ("cannot elide single word: " ++ quoted (chunk_text s0))
                             (span s0 s1) SingleWordModify) d, h)
              else Normal (obj_delete (chunk_text s0) _ns, d, h)
          | None =>
              Normal (_ns,
                      push_problem
                        (mkProblem ("undefined identifier " ++ quoted (chunk_text s0))
                           (chunk_pos s0) UndefinedIdentifier) d, h)
          end
      else
        let is_rename := JS.startsWith "'" (chunk_text s0) in
        let _key := if is_rename then JS.slice_from 1 (chunk_text s0) else chunk_text s0 in
        match ns_read _key _ns with
        | Some x =>
            if isWord x then
              Normal (_ns,
                      push_problem
                        (mkProblem ("cannot rename or rebind single word: "
                                    ++ quoted (chunk_text s0))
                           (span s0 s1) SingleWordModify) d, h)
            else if is_rename then
              if match ns_read (chunk_text s1) _ns with Some _ => true | None => false end
              then
                Normal (_ns,
                        push_problem
                          (mkProblem ("cannot rename, name " ++ quoted (chunk_text s1)
                                      ++ " already exists")
                             (chunk_pos s1) DuplicateIdentifier) d, h)
              else Normal (obj_delete _key (obj_set (chunk_text s1) x _ns), d, h)
            else
              match x with
              | NsLeaf (mkNode _ _ (EBinding r) _) =>
                  Normal (_ns, d, heap_update r (rebind (chunk_text s1)) h)
              | _ =>
                  Normal (_ns,
                          push_problem
                            (mkProblem "unexpected rebinding" (span s0 s1)
                               UnexpectedRebinding) d, h)
              end
        | None =>
            Normal (_ns,
                    push_problem
                      (mkProblem ("undefined identifier " ++ quoted _key)
                         (chunk_pos s0) UndefinedIdentifier) d, h)
        end
  end.

Fixpoint apply_reconfigs (rs : list Reconfig) (st : MergeState) : Completion MergeState :=
  match rs with
  | [] => Normal st
  | _s :: rs' =>
      match apply_reconfig _s st with
      | Normal st1 => apply_reconfigs rs' st1
      | Throws e st1 => Throws e st1
      end
  end.

(** [isDeepImport(imp)] *)
Definition isDeepImport (imp : Import RainDocument) : bool :=
  match sequence imp with
  | Some s =>
      match dotrain s with
      | Some _rd => existsb (fun v => code_eqb (code v) DeepImport) (problems _rd)
      | None => false
      end
  | None => false
  end.

Definition deep_import (pos : Offsets) : Problem :=
  mkProblem "import too deep" pos DeepImport.

(** [{ ..._ns, ...copy }] *)
Definition spread (_ns copy : Namespace) : Namespace :=
  fold_left (fun acc kv => obj_set (fst kv) (snd kv) acc) copy _ns.

Section MergeImports.
Context {HP : Helpers}.

(** The namespace an import brings, from its sequence: the namespace and
    the flags [_hasDupKeys] and [_hasDupWords]. *)
Definition import_namespace (i : Z) (_imp : Import RainDocument)
    : Namespace * bool * bool :=
  let seq := the_sequence _imp in
  let ns1 : Namespace :=
    match dispair seq with
    | Some dis =>
        fold_left
          (fun ns v => obj_set (word v)
                         (NsLeaf (mkNode (imp_hash _imp) i (EWord v) None)) ns)
          (dispair_authoringMeta dis)
          [("Words",
            NsLeaf (mkNode (imp_hash _imp) i (EWords (dispair_authoringMeta dis))
                      (Some (dispair_bytecode dis))))]
    | None => []
    end in
  let '(ns2, dup2) :=
    match ctxmeta seq with
    | Some aliases =>
        if hasDuplicate (map ca_name aliases) (obj_keys ns1) then (ns1, true)
        else (fold_left
                (fun ns v => obj_set (ca_name v)
                               (NsLeaf (mkNode (imp_hash _imp) i (EContextAlias v) None)) ns)
                aliases ns1, false)
    | None => (ns1, false)
    end in
  match dotrain seq with
  | Some _rd =>
      if negb dup2 then
        let _keys := obj_keys (namespace _rd) in
        if obj_has "Words" ns2 && includes_key "Words" _keys then (ns2, dup2, true)
        else if hasDuplicate _keys (obj_keys ns2) then (ns2, true, false)
        else (spread ns2 (copyNamespace (namespace _rd) i (imp_hash _imp)), dup2, false)
      else (ns2, dup2, false)
  | None => (ns2, dup2, false)
  end.

(** The body of the loop over [this.imports] for the import at index [i]. *)
Definition merge_import (i : nat) (_imp : Import RainDocument)
    (st : RainDocument * Heap) : Completion (RainDocument * Heap) :=
  let '(d, h) := st in
  if is_nil (imp_problems _imp) then
    if match obj_get (imp_name _imp) (namespace d) with
       | Some x => has_Element x
       | None => false
       end
    then
      Normal (push_problem
                (mkProblem ("cannot import into " ++ quoted (imp_name _imp)
                            ++ ", name already taken")
                   (imp_namePosition _imp) InvalidImport) d, h)
    else if isDeepImport _imp then
      Normal (push_problem (deep_import (imp_hashPosition _imp)) d, h)
    else
      let '(_ns, _hasDupKeys, _hasDupWords) := import_namespace (Z.of_nat i) _imp in
      let configured : Completion MergeState :=
        if _hasDupKeys || _hasDupWords then
          if _hasDupKeys then
            Normal (_ns,
                    push_problem
                      (mkProblem "import contains items with duplicate identifiers"
                         (imp_hashPosition _imp) DuplicateIdentifier) d, h)
          else
            Normal (_ns,
                    push_problem
                      (mkProblem "import contains multiple sets of words in its namespace"
                         (imp_hashPosition _imp) MultipleWords) d, h)
        else
          match reconfigs _imp with
          | Some rs => apply_reconfigs rs (_ns, d, h)
          | None => Normal (_ns, d, h)
          end in
      match configured with
      | Normal (_ns1, d1, h1) => Normal (snd (mergeNamespace _imp _ns1 d1), h1)
      | Throws e (_, d1, h1) => Throws e (d1, h1)
      end
  else Normal st.

(** [for (let i = 0; i < this.imports.length; i++)] over the imports paired
    with their indexes. *)
Fixpoint merge_imports (imps : list (nat * Import RainDocument))
    (st : RainDocument * Heap) : Completion (RainDocument * Heap) :=
  match imps with
  | [] => Normal st
  | (i, _imp) :: imps' =>
      match merge_import i _imp st with
      | Normal st1 => merge_imports imps' st1
      | Throws e st1 => Throws e st1
      end
  end.
End MergeImports.

Fixpoint indexed_from {A : Type} (i : nat) (l : list A) : list (nat * A) :=
  match l with
  | [] => []
  | x :: l' => (i, x) :: indexed_from (S i) l'
  end.

Definition indexed {A : Type} (l : list A) : list (nat * A) := indexed_from 0 l.

(** ** The parse pass ([_parse] and [parse]) *)

(** [while ((_index = this.problems.findIndex(p)) > -1) this.problems.splice(_index, 1)] *)
Fixpoint remove_first {A : Type} (p : A -> bool) (l : list A) : option (list A) :=
  match l with
  | [] => None
  | x :: l' =>
      if p x then Some l'
      else match remove_first p l' with
           | Some r => Some (x :: r)
           | None => None
           end
  end.

Fixpoint splice_loop {A : Type} (fuel : nat) (p : A -> bool) (l : list A) : list A :=
  match remove_first p l with
  | None => l
  | Some l' =>
      match fuel with
      | O => l'
      | S fuel' => splice_loop fuel' p l'
      end
  end.

Section IgnoreNextLine.
Context {TD : TextDocumentLib}.

(** [positionAt(v.position[1] + 1).line] *)
Definition comment_line (d : RainDocument) (v : Comment) : Z :=
  positionAt_line (text d) (snd (cm_position v) + 1)%Z.

(** [positionAt(e.position[0]).line] *)
Definition problem_line (d : RainDocument) (e : Problem) : Z :=
  positionAt_line (text d) (fst (position e)).

Definition has_ignore_next_line (v : Comment) : bool :=
  JS.test_word "ignore-next-line" (comment v).

(** The pass that closes [_parse]: "ignore next line problems". *)
Definition ignore_next_line (d : RainDocument) : RainDocument :=
  fold_left
    (fun d v =>
       if has_ignore_next_line v then
         let _cmLine := comment_line d v in
         set_problems
           (splice_loop (List.length (problems d))
              (fun e => (problem_line d e =? _cmLine + 1)%Z) (problems d)) d
       else d)
    (comments d) d.

(** A problem is suppressed when it starts on the line after the line on
    which a comment with the marker ends. *)
Definition suppressed_by (d : RainDocument) (e : Problem) (v : Comment) : bool :=
  has_ignore_next_line v && (problem_line d e =? comment_line d v + 1)%Z.

Definition suppressed (d : RainDocument) (e : Problem) : bool :=
  existsb (suppressed_by d e) (comments d).
End IgnoreNextLine.

Definition ParseState : Type := (RainDocument * Heap * string)%type.

Section Parse.
Context {HP : Helpers} {LT : LanguageTypes} {TD : TextDocumentLib}
        {MS : MetaStore} {TS : ToposortLib} {JN : JSNumbers} {RL : RainlangLib}.

(** The comments: each is recorded and blanked out of [document]. *)
Definition parse_comments (d : RainDocument) (document : string)
    : RainDocument * string :=
  fold_left
    (fun (st : RainDocument * string) v =>
       let '(d, document) := st in
       let d1 :=
         if negb (endsWith "*/" (chunk_text v))
         then push_problem
                (mkProblem "unexpected end of comment" (chunk_pos v)
                   UnexpectedEndOfComment) d
         else d in
       (set_comments (comments d1 ++ [mkComment (chunk_text v) (chunk_pos v)]) d1,
        fillIn document (chunk_pos v)))
    (inclusiveParse document CommentRe) (d, document).

(** The actionable comments. *)
Definition parse_flags (d : RainDocument) : RainDocument :=
  let am := existsb (fun v => JS.test_word "ignore-authoring-meta" (comment v))
              (comments d) in
  let uam := existsb (fun v => JS.test_word "ignore-undefined-authoring-meta" (comment v))
               (comments d) in
  set_ignore am (uam || am) d.

(** The import statements, cut at a [#], and [document] with them blanked. *)
Definition import_statements (document : string) : list ParsedChunk * string :=
  fold_left
    (fun (st : list ParsedChunk * string) stmt =>
       let '(acc, document) := st in
       let _index := JS.indexOf "#" (chunk_text stmt) in
       let stmt1 : ParsedChunk :=
         if (-1 <? _index)%Z
         then (JS.slice_to _index (chunk_text stmt),
               (fst (chunk_pos stmt), (fst (chunk_pos stmt) + _index - 1)%Z))
         else stmt in
       (acc ++ [stmt1],
        fillIn document ((fst (chunk_pos stmt1) - 1)%Z, snd (chunk_pos stmt1))))
    (tl (exclusiveParse document AtGd None true)) ([], document).

Section WithNested.
Variable parse_nested : RainDocument -> Heap -> option (RainDocument * Heap).

(** [Promise.all(_importStatements.map(s => this.processImport(s)))] *)
Fixpoint processImports (stmts : list ParsedChunk) (d : RainDocument) (h : Heap)
    : option (list (Import RainDocument) * RainDocument * Heap) :=
  match stmts with
  | [] => Some ([], d, h)
  | stmt :: stmts' =>
      match processImport parse_nested stmt d h with
      | None => None
      | Some (imp, d1, h1) =>
          match processImports stmts' d1 h1 with
          | None => None
          | Some (imps, d2, h2) => Some (imp :: imps, d2, h2)
          end
      end
  end.

(** The [forEach] that flags duplicate imports and fills [this.imports]. *)
Definition record_import (d : RainDocument) (imp : Import RainDocument)
    : RainDocument :=
  if negb (is_empty_string (imp_hash imp)) &&
     existsb (fun v => String.eqb (imp_hash v) (imp_hash imp)) (imports d)
  then
    let p := mkProblem "duplicate import" (imp_hashPosition imp) DuplicateImport in
    let d1 := push_problem p d in
    set_imports (imports d1 ++ [imp_push_problem p imp]) d1
  else set_imports (imports d ++ [imp]) d.

(** The imports of the pass: processed below depth 32, reported as too
    deep otherwise. *)
Definition parse_imports (stmts : list ParsedChunk) (d : RainDocument) (h : Heap)
    : option (RainDocument * Heap) :=
  if importDepth d <? 32 then
    match processImports stmts d h with
    | None => None
    | Some (imps, d1, h1) => Some (fold_left record_import imps d1, h1)
    end
  else
    Some (fold_left
            (fun d imp =>
               push_problem
                 (deep_import ((fst (chunk_pos imp) - 1)%Z, snd (chunk_pos imp))) d)
            stmts d, h).
End WithNested.

Definition binding_node (b : BindingRef) : NsItem :=
  NsLeaf (mkNode EmptyString (-1)%Z (EBinding b) None).

(** The name, the content and their positions, and the content with the
    comments blanked, of a binding chunk. *)
Definition binding_parts (d : RainDocument) (v : ParsedChunk)
  : string * Offsets * string * Offsets * string :=
  let _index := JS.search JS.is_space (chunk_text v) in
  if (_index =? -1)%Z then
    (chunk_text v, chunk_pos v, EmptyString,
     ((snd (chunk_pos v) + 1)%Z, snd (chunk_pos v)), EmptyString)
  else
    let rest := JS.slice_from (_index + 1) (chunk_text v) in
    let _noCmTrimmed := trackedTrim rest in
    let _noCmContent :=
      if is_empty_string (tt_text _noCmTrimmed) then rest else tt_text _noCmTrimmed in
    let _contentText :=
      getText_range (text d) (fst (chunk_pos v)) (snd (chunk_pos v) + 1)%Z in
    let restText := JS.slice_from (_index + 1) _contentText in
    let _trimmed := trackedTrim restText in
    (JS.slice_to _index (chunk_text v),
     (fst (chunk_pos v), (fst (chunk_pos v) + _index - 1)%Z),
     (if is_empty_string (tt_text _trimmed) then restText else tt_text _trimmed),
     (if is_empty_string (tt_text _trimmed)
      then ((fst (chunk_pos v) + _index + 1)%Z, snd (chunk_pos v))
      else ((fst (chunk_pos v) + _index + 1 + startDelCount _trimmed)%Z,
            (snd (chunk_pos v) - endDelCount _trimmed)%Z)),
     _noCmContent).

(** The binding object of a chunk: elided, constant or expression. *)
Definition make_binding (name : string) (namePosition : Offsets) (content : string)
    (contentPosition position : Offsets) (_noCmContent : string) : Binding :=
  let make elided constant :=
    mkBinding name namePosition content contentPosition position [] []
      elided constant None in
  if isElided _noCmContent then
    let _msg := JS.trim (JS.slice_from 1 (JS.trim _noCmContent)) in
    make (Some (if is_empty_string _msg then DEFAULT_ELISION else _msg)) None
  else
    let _val := isConstant _noCmContent in
    if negb (is_empty_string _val) then make None (Some _val)
    else make None None.

(** The body of the [forEach] over the binding chunks. *)
Definition add_binding (st : ParseState) (v : ParsedChunk) : ParseState :=
  let '(d, h, document) := st in
  let position := chunk_pos v in
  let '(name, namePosition, content, contentPosition, _noCmContent) :=
    binding_parts d v in
  let _invalidId := negb (is_binding_name name) in
  let d1 :=
    if _invalidId
    then push_problem
           (mkProblem "invalid binding name" namePosition InvalidBindingIdentifier) d
    else d in
  let _dupId := includes_key name (obj_keys (namespace d1)) in
  let d2 :=
    if _dupId
    then push_problem (mkProblem "duplicate identifier" namePosition DuplicateIdentifier) d1
    else d1 in
  let d3 :=
    if JS.every JS.is_space _noCmContent
    then push_problem
           (mkProblem "empty binding are not allowed" namePosition InvalidEmptyBinding) d2
    else d2 in
  let '(d4, h4) :=
    if negb _invalidId && negb _dupId then
      let b := make_binding name namePosition content contentPosition position
                 _noCmContent in
      let '(r, h') := heap_alloc b h in
      (set_bindings (bindings d3 ++ [r])
         (set_namespace (obj_set name (binding_node r) (namespace d3)) d3), h')
    else (d3, h) in
  (d4, h4, fillIn document ((fst (chunk_pos v) - 1)%Z, snd (chunk_pos v))).

Definition parse_bindings (st : ParseState) : ParseState :=
  let '(_, _, document) := st in
  fold_left add_binding (tl (exclusiveParse document HashGd None true)) st.

(** "find non-top level imports" *)
Definition check_top_level_imports (d : RainDocument) (h : Heap) : RainDocument :=
  match bindings d with
  | [] => d
  | r :: _ =>
      match heap_get h r with
      | Some b0 =>
          fold_left
            (fun d v =>
               if (fst (b_namePosition b0) <=? fst (imp_position v))%Z
               then push_problem
                      (mkProblem "imports can only be stated at top level"
                         (imp_position v) InvalidImport) d
               else d)
            (imports d) d
      | None => d
      end
  end.

(** "find any remaining strings and include them as errors" *)
Definition check_remaining (d : RainDocument) (document : string) : RainDocument :=
  fold_left
    (fun d v => push_problem (mkProblem "unexpected token" (chunk_pos v) UnexpectedToken) d)
    (exclusiveParse document WhitespaceRe None false) d.

(** The problems of the expression, moved to the offsets of the document. *)
Definition expression_problems (exp : Rainlang) (b : Binding) : list Problem :=
  map (fun e => mkProblem (msg e)
                  ((fst (position e) + fst (b_contentPosition b))%Z,
                   (snd (position e) + fst (b_contentPosition b))%Z)
                  (code e))
    (rl_problems exp).

(** "instantiate rainlang for each expression" *)
Definition parse_expressions (d : RainDocument) (h : Heap) : Heap :=
  fold_left
    (fun h r =>
       match heap_get h r with
       | Some v =>
           if is_expression_binding v then
             let exp := Rainlang_new (b_content v) (authoringMeta d) (namespace d) h
                          (_ignoreUAM d) in
             heap_update r
               (fun b => b_push_problems (expression_problems exp b)
                           (b_set_exp (Some exp) b)) h
           else h
       | None => h
       end)
    (bindings d) h.

(** What [_parse] does for a document at depth 0 after the dependencies. *)
Definition parse_top_level (d : RainDocument) (h : Heap)
    : Completion (RainDocument * Heap) :=
  if importDepth d =? 0 then
    match getWords d with
    | Normal d1 => Normal (d1, parse_expressions d1 h)
    | Throws e d1 => Throws e (d1, h)
    end
  else Normal (d, h).

(** [_parse()], given the parse of nested documents and the fuel of the
    dependency loop. *)
Definition _parse_body
    (parse_nested : RainDocument -> Heap -> option (RainDocument * Heap))
    (fuel : nat) (d0 : RainDocument) (h0 : Heap)
    : option (Completion (RainDocument * Heap)) :=
  let d1 := reset d0 in
  let '(d2, document2) := parse_comments d1 (text d1) in
  let d3 := parse_flags d2 in
  let '(_importStatements, document3) := import_statements document2 in
  match parse_imports parse_nested _importStatements d3 h0 with
  | None => None
  | Some (d4, h4) =>
      match merge_imports (indexed (imports d4)) (d4, h4) with
      | Throws e st => Some (Throws e st)
      | Normal (d5, h5) =>
          let '(d6, h6, document6) := parse_bindings (d5, h5, document3) in
          let d7 := check_top_level_imports d6 h6 in
          let d8 := check_remaining d7 document6 in
          match processDependencies fuel d8 h6 with
          | None => None
          | Some (d9, h9) =>
              match parse_top_level d9 h9 with
              | Throws e st => Some (Throws e st)
              | Normal (d10, h10) => Some (Normal (ignore_next_line d10, h10))
              end
          end
      end
  end.

(** [parse()], given [_parse]. *)
Definition parse_with
    (run : RainDocument -> Heap -> option (Completion (RainDocument * Heap)))
    (d : RainDocument) (h : Heap) : option (RainDocument * Heap) :=
  if JS.some (fun c => negb (JS.is_space c)) (text d) then
    match run d h with
    | None => None
    | Some (Normal st) => Some st
    | Some (Throws e (d1, h1)) =>
        Some (push_problem
                (mkProblem ("Runtime Error: " ++ e) (0, -1)%Z RuntimeError)
                (set_runtimeError (Some e) d1), h1)
    end
  else Some (reset d, h).

(** [_parse] with the recursion into nested documents; [None] when the
    fuel does not cover the nesting or the dependency loop. *)
Fixpoint _parse (fuel : nat) (d : RainDocument) (h : Heap)
    : option (Completion (RainDocument * Heap)) :=
  match fuel with
  | O => None
  | S fuel' => _parse_body (parse_with (_parse fuel')) fuel d h
  end.

Definition parse (fuel : nat) (d : RainDocument) (h : Heap)
    : option (RainDocument * Heap) :=
  parse_with (_parse fuel) d h.

(** [RainDocument.create(text, metaStore)] *)
Definition create (fuel : nat) (txt : string) : option (RainDocument * Heap) :=
  parse fuel (new_RainDocument txt 0) [].

End Parse.

(** ** Notions used to state the properties *)

(** The state a computation leaves, however it ends. *)
Definition state_of {S : Type} (c : Completion S) : S :=
  match c with
  | Normal s => s
  | Throws _ s => s
  end.

(** The leaves of a namespace tree. *)
Fixpoint leaves (x : NsItem) : list NamespaceNode :=
  match x with
  | NsLeaf n => [n]
  | NsInterior m => flat_map (fun kv => leaves (snd kv)) m
  end.

Definition ns_leaves (ns : Namespace) : list NamespaceNode := leaves (NsInterior ns).

(** An import, with its index, that recorded no problem of its own. *)
Definition is_clean (p : nat * Import RainDocument) : bool :=
  is_nil (imp_problems (snd p)).

(** A leaf that the import at some index without problems brought. *)
Definition from_clean_import (imps : list (Import RainDocument)) (n : NamespaceNode)
  : Prop :=
  exists i imp,
    nth_error imps i = Some imp /\ imp_problems imp = [] /\ ImportIndex n = Z.of_nat i.

(** Classifying the payload throws: a decoder of the meta library throws,
    or the context aliases collide. *)
Definition payload_throws (ignoreAM : bool) (m : MetaMap) : bool :=
  match m with
  | DeployerBytecodeMeta None _ => true
  | DeployerBytecodeMeta (Some _) LookupThrows => negb ignoreAM
  | DeployerBytecodeMeta (Some _) _ => false
  | ContractMetaV1 None => true
  | ContractMetaV1 (Some c) =>
      match toContextAlias c with None => true | Some _ => false end
  | DotrainMeta None => true
  | DotrainMeta (Some _) => false
  | OtherMeta _ => true
  end.

Definition is_corrupt_meta (p : Problem) : bool := String.eqb (msg p) "corrupt meta".

(** What one [processMeta] leaves alone. *)
Definition meta_frame (st st' : ImportState) : Prop :=
  imp_hashPosition (fst (fst st')) = imp_hashPosition (fst (fst st))
  /\ reconfigProblems (fst (fst st')) = reconfigProblems (fst (fst st))
  /\ _ignoreAM (snd (fst st')) = _ignoreAM (snd (fst st))
  /\ importDepth (snd (fst st')) = importDepth (snd (fst st))
  /\ filter is_corrupt_meta (imp_problems (fst (fst st')))
     = filter is_corrupt_meta (imp_problems (fst (fst st))).

(** The entries under the key [Words] that a walk from the root through
    nested namespaces meets, in the order of the walk. *)
Fixpoint word_sets (x : NsItem) : list NsItem :=
  match x with
  | NsLeaf _ => []
  | NsInterior m =>
      match obj_get "Words" m with Some w => [w] | None => [] end
      ++ flat_map (fun kv => if has_Element (snd kv) then [] else word_sets (snd kv)) m
  end.

(** The sets of words under the nested namespaces of a namespace. *)
Definition kids_sets (m : Namespace) : list NsItem :=
  flat_map (fun kv => if has_Element (snd kv) then [] else word_sets (snd kv)) m.

(** The loop of [_validate] over the values of a namespace. *)
Fixpoint validate_loop (l : list (string * NsItem)) (_c : nat) (hash : option string)
  : option (nat * option string) :=
  match l with
  | [] => Some (_c, hash)
  | (_, v) :: l' =>
      if has_Element v then validate_loop l' _c hash
      else
        match _validate v hash with
        | None => None
        | Some (c1, hash1) =>
            if 1 <? _c + c1 then Some (_c + c1, hash1)
            else validate_loop l' (_c + c1) hash1
        end
  end.

(** The loop of [_get] over the entries of a namespace. *)
Fixpoint get_loop (path : string) (l : list (string * NsItem)) (found : Found)
  : string * Found :=
  match l with
  | [] => (EmptyString, found)
  | (k, v) :: l' =>
      if has_Element v then get_loop path l' found
      else
        let '(_p, found1) := _get v k found in
        if negb (is_empty_string _p) then ((path ++ "." ++ _p)%string, found1)
        else get_loop path l' found1
  end.

(** The first set of words on the walk from a namespace, with the keys of
    the nested namespaces that lead to the namespace that holds it. *)
Fixpoint first_words (x : NsItem) : option (list string * NsItem) :=
  match x with
  | NsLeaf _ => None
  | NsInterior m =>
      match obj_get "Words" m with
      | Some w => Some ([], w)
      | None =>
          (fix loop (l : list (string * NsItem)) : option (list string * NsItem) :=
             match l with
             | [] => None
             | (k, v) :: l' =>
                 match first_words v with
                 | Some (p, w) => Some (k :: p, w)
                 | None => loop l'
                 end
             end) m
      end
  end.

Fixpoint first_loop (l : list (string * NsItem)) : option (list string * NsItem) :=
  match l with
  | [] => None
  | (k, v) :: l' =>
      match first_words v with
      | Some (p, w) => Some (k :: p, w)
      | None => first_loop l'
      end
  end.

(** The keys [p], followed from [x] through nested namespaces, lead to a
    namespace that holds [w] under [Words]. *)
Inductive leads_to : list string -> NsItem -> NsItem -> Prop :=
  | leads_here (m : Namespace) (w : NsItem) :
      obj_get "Words" m = Some w -> leads_to [] (NsInterior m) w
  | leads_below (k : string) (p : list string) (m : Namespace) (v w : NsItem) :
      In (k, v) m -> leads_to p v w -> leads_to (k :: p) (NsInterior m) w.

(** The dotted path of a list of keys: [.] for the root, [.a.b] for the
    namespace [b] of the namespace [a] of the root. *)
Fixpoint dotted_from (path : string) (p : list string) : string :=
  match p with
  | [] => path
  | k :: p' => (path ++ "." ++ dotted_from k p')%string
  end.

Definition dotted (p : list string) : string :=
  match p with
  | [] => "."
  | _ => dotted_from EmptyString p
  end.

(** Every nested namespace of the tree sits under a key that is not the
    empty string. *)
Fixpoint named (x : NsItem) : bool :=
  match x with
  | NsLeaf _ => true
  | NsInterior m =>
      forallb (fun kv => (has_Element (snd kv) || negb (is_empty_string (fst kv)))
                         && named (snd kv)) m
  end.

(** A set of words: a node that holds a list of words, with a hash. *)
Definition is_word_set (w : NsItem) : bool :=
  match w with
  | NsLeaf n =>
      match node_Element n with
      | EWords _ => negb (is_empty_string (Hash n))
      | _ => false
      end
  | NsInterior _ => false
  end.

(** The hash of a set of words is [hsh], up to case. *)
Definition hash_matches (hsh : string) (w : NsItem) : bool :=
  match item_Hash w with
  | Some a => String.eqb (JS.toLowerCase a) (JS.toLowerCase hsh)
  | None => false
  end.

(** A set of words proper: a leaf with a hash. *)
Definition proper_words (w : NsItem) : bool :=
  match w with
  | NsLeaf n => negb (is_empty_string (Hash n))
  | NsInterior _ => false
  end.

(** Two sets of words with the same hash, up to case. *)
Definition same_words (w1 w2 : NsItem) : bool :=
  match item_Hash w1, item_Hash w2 with
  | Some a, Some b => String.eqb (JS.toLowerCase b) (JS.toLowerCase a)
  | _, _ => false
  end.

(** The invariant of a binding: no empty elision message, never both
    [elided] and [constant], and an expression only without either. *)
Definition binding_ok (b : Binding) : Prop :=
  b_elided b <> Some EmptyString
  /\ ~ (b_elided b <> None /\ b_constant b <> None)
  /\ (b_exp b <> None -> b_constant b = None /\ b_elided b = None).

(** What [_validate] answers on a tree whose sets of words are proper. *)
Definition validate_spec (x : NsItem) : Prop :=
  (word_sets x = [] -> forall hash, _validate x hash = Some (0, hash))
  /\ (forall hsh, hsh <> EmptyString ->
        Forall (fun w => proper_words w = true) (word_sets x) ->
        exists c, _validate x (Some hsh) = Some (c, Some hsh)
                  /\ (Forall (fun w => hash_matches hsh w = true) (word_sets x) -> c = 0)
                  /\ (Exists (fun w => hash_matches hsh w = false) (word_sets x) -> 1 <= c))
  /\ (forall w rest, word_sets x = w :: rest ->
        Forall (fun w => proper_words w = true) (word_sets x) ->
        exists c hsh, item_Hash w = Some hsh
                  /\ _validate x (Some EmptyString) = Some (c, Some hsh)
                  /\ 1 <= c
                  /\ (Forall (fun w' => hash_matches hsh w' = true) rest -> c = 1)
                  /\ (Exists (fun w' => hash_matches hsh w' = false) rest -> 2 <= c)).

Definition validate_loop_spec (m : Namespace) : Prop :=
  (kids_sets m = [] -> forall c hash, validate_loop m c hash = Some (c, hash))
  /\ (forall hsh c, hsh <> EmptyString -> c <= 1 ->
        Forall (fun w => proper_words w = true) (kids_sets m) ->
        exists c', validate_loop m c (Some hsh) = Some (c', Some hsh)
                   /\ c <= c'
                   /\ (Forall (fun w => hash_matches hsh w = true) (kids_sets m) -> c' = c)
                   /\ (Exists (fun w => hash_matches hsh w = false) (kids_sets m) ->
                       c + 1 <= c'))
  /\ (forall w rest, kids_sets m = w :: rest ->
        Forall (fun w => proper_words w = true) (kids_sets m) ->
        exists c hsh, item_Hash w = Some hsh
                  /\ validate_loop m 0 (Some EmptyString) = Some (c, Some hsh)
                  /\ 1 <= c
                  /\ (Forall (fun w' => hash_matches hsh w' = true) rest -> c = 1)
                  /\ (Exists (fun w' => hash_matches hsh w' = false) rest -> 2 <= c)).

(** What the steps of a pass after the imports leave alone in a document:
    they only add problems. *)
Definition keeps (d d' : RainDocument) : Prop :=
  text d' = text d
  /\ importDepth d' = importDepth d
  /\ imports d' = imports d
  /\ comments d' = comments d
  /\ exists ps, problems d' = problems d ++ ps.

Definition heap_ok (h : Heap) : Prop := Forall binding_ok h.

(** No binding gains an expression from [h] to [h']. *)
Definition no_new_exp (h h' : Heap) : Prop :=
  forall r b',
    heap_get h' r = Some b' -> b_exp b' <> None ->
    exists b, heap_get h r = Some b /\ b_exp b <> None.

Definition heap_step (h h' : Heap) : Prop :=
  (heap_ok h -> heap_ok h') /\ no_new_exp h h'.


(** An alias of the list stands for [name] at [column] and [row]. *)
Definition has_alias (l : list ContextAlias) (name : string) (column : Z)
    (row : option Z) : Prop :=
  exists e, In e l /\ ca_name e = name /\ ca_column e = column /\ ca_row e = row.

(** The contract meta declares the alias [name] for the column [column]
    (with no row) or for the cell [row] of that column. *)
Definition declares (contractMeta : ContractMeta) (name : string) (column : Z)
    (row : option Z) : Prop :=
  exists method exp cols ctxCol,
    In method (methods contractMeta)
    /\ In exp (expressions method)
    /\ contextColumns exp = Some cols
    /\ In ctxCol cols
    /\ column = columnIndex ctxCol
    /\ ((name = col_alias ctxCol /\ row = None)
        \/ exists cs ctxCell,
             cells ctxCol = Some cs /\ In ctxCell cs
             /\ name = cell_alias ctxCell /\ row = Some (cellIndex ctxCell)).

(** The chunks a configuration was made of, and its text. *)
Definition reconfig_chunks (r : Reconfig) : list ParsedChunk :=
  fst r :: match snd r with Some n => [n] | None => [] end.

Definition reconfig_text (r : Reconfig) : string * option string :=
  (chunk_text (fst r), option_map chunk_text (snd r)).

Section Directives.
Context {LT : LanguageTypes}.

(** A configuration that reads as an elision, a rebinding or a renaming. *)
Definition well_formed_directive (r : Reconfig) : Prop :=
  exists n,
    snd r = Some n
    /\ ((chunk_text (fst r) = "." /\ chunk_text n = "!")
        \/ (WORD_PATTERN (chunk_text (fst r)) = true
            /\ (NUMERIC_PATTERN (chunk_text n) = true \/ chunk_text n = "!"))
        \/ (JS.startsWith "'" (chunk_text (fst r)) = true
            /\ WORD_PATTERN (JS.slice_from 1 (chunk_text (fst r))) = true
            /\ WORD_PATTERN (chunk_text n) = true)).
End Directives.

(** The directive [key !] of an import, from its two chunks. *)
Definition elide_directive (key : string) (p0 p1 : Offsets) : Reconfig :=
  ((key, p0), Some ("!", p1)).

(** The loop of [_merge] over the entries of [nns], with the keys [cns]
    had when [_merge] was called. *)
Fixpoint merge_loop (_cKeys : list string) (l : list (string * NsItem))
    (acc : Namespace) : Namespace :=
  match l with
  | [] => acc
  | (k, nk) :: l' =>
      if is_nil _cKeys then merge_loop _cKeys l' (obj_set k nk acc)
      else if negb (includes_key k _cKeys) then merge_loop _cKeys l' (obj_set k nk acc)
      else if negb (has_Element nk) then
        match obj_get k acc with
        | Some (NsInterior ck) =>
            merge_loop _cKeys l' (obj_set k (NsInterior (_merge nk ck)) acc)
        | _ => merge_loop _cKeys l' acc
        end
      else merge_loop _cKeys l' acc
  end.

(** No namespace of the tree holds an entry named [Element]: on such a
    tree ["Element" in x] and [!x.Element] tell a node from a namespace. *)
Fixpoint plain (x : NsItem) : bool :=
  match x with
  | NsLeaf _ => true
  | NsInterior m =>
      negb (includes_key "Element" (obj_keys m))
      && forallb (fun kv => plain (snd kv)) m
  end.

(** The two tests on [Words] that open [_check]: the hashes of the two sets
    differ, and the value [_dupWords] has when they do not. *)
Definition words_differ (n c : Namespace) : bool :=
  match obj_get "Words" c, obj_get "Words" n with
  | Some cw, Some nw => negb (opt_string_eqb (item_Hash nw) (item_Hash cw))
  | _, _ => false
  end.

Definition dup_words (n c : Namespace) : bool :=
  match obj_get "Words" c, obj_get "Words" n with
  | Some cw, Some nw => opt_string_eqb (item_Hash nw) (item_Hash cw)
  | _, _ => false
  end.

(** The loop of [_check] over the entries of [nns]. *)
Fixpoint check_loop (_dupWords : bool) (c : Namespace) (l : list (string * NsItem))
    : string :=
  match l with
  | [] => msg_ok
  | (k, nk) :: l' =>
      match obj_get k c with
      | None => check_loop _dupWords c l'
      | Some ck =>
          if negb (has_Element nk) && negb (has_Element ck) then
            let _result := _check nk ck in
            if negb (String.eqb _result msg_ok) then _result
            else check_loop _dupWords c l'
          else if isNode nk && isNode ck then
            match check_leaves _dupWords nk ck with
            | Some r => r
            | None => check_loop _dupWords c l'
            end
          else msg_occupied
      end
  end.

(** The check lets an entry of the import pass, and goes on with the next
    one: the target has no entry under that key; or the two entries are
    namespaces that pass the check in turn; or they are two bindings, or
    two context aliases, with the same hash; or they are two single words,
    the import and the target holding the same set of words. *)
Definition entry_passes (_dupWords : bool) (c : Namespace) (kv : string * NsItem)
    : bool :=
  match obj_get (fst kv) c, snd kv with
  | None, _ => true
  | Some (NsInterior ck), NsInterior nk =>
      String.eqb (_check (NsInterior nk) (NsInterior ck)) msg_ok
  | Some (NsLeaf cn), NsLeaf nn =>
      if isWord (NsLeaf nn) && isWord (NsLeaf cn) then _dupWords
      else ((isBinding (NsLeaf nn) && isBinding (NsLeaf cn))
            || (isContextAlias (NsLeaf nn) && isContextAlias (NsLeaf cn)))
           && String.eqb (Hash nn) (Hash cn)
  | Some _, _ => false
  end.

(** The namespace [n] an import brings clashes on words with the namespace
    [c] it is merged into, and the check meets no other clash before:
    - both hold an entry under [Words], with different hashes;
    - or both hold a single word under the same key, without holding the
      same set of words, and the entries of [n] before it pass;
    - or both hold a namespace under the same key, the entries of [n]
      before it pass, and the two namespaces clash on words in turn. *)
Inductive words_clash : Namespace -> Namespace -> Prop :=
  | clash_sets (n c : Namespace) (nw cw : NsItem) :
      obj_get "Words" n = Some nw ->
      obj_get "Words" c = Some cw ->
      item_Hash nw <> item_Hash cw ->
      words_clash n c
  | clash_word (n c pre post : Namespace) (k : string) (nk ck : NsItem) :
      dup_words n c = false ->
      n = pre ++ (k, nk) :: post ->
      forallb (entry_passes false c) pre = true ->
      obj_get k c = Some ck ->
      isWord nk = true -> isWord ck = true ->
      words_clash n c
  | clash_nested (n c pre post : Namespace) (k : string) (n' c' : Namespace) :
      n = pre ++ (k, NsInterior n') :: post ->
      forallb (entry_passes (dup_words n c) c) pre = true ->
      obj_get k c = Some (NsInterior c') ->
      words_clash n' c' ->
      words_clash n c.

(** The node [copyNamespace] makes of a node. *)
Definition copied_node (index : Z) (hash : string) (n : NamespaceNode)
    : NamespaceNode :=
  mkNode (if String.eqb (Hash n) EmptyString then hash else Hash n) index
    (node_Element n) None.

(** An import the merge loop takes up that names a hash. *)
Definition mergeable (imp : Import RainDocument) : bool :=
  is_nil (imp_problems imp) && negb (is_empty_string (imp_hash imp)).

(** From the document [d0] over the store [h0], binding extraction has
    reached [d] over [h]: the store has grown by the bindings [bs], which
    are the new entries of [bindings], in order; their names are valid,
    pairwise distinct and were free in the namespace, where each now
    resolves to its binding; what the namespace held is still there. *)
Definition extracted (d0 : RainDocument) (h0 : Heap) (d : RainDocument) (h : Heap)
    : Prop :=
  exists bs,
    h = h0 ++ bs
    /\ bindings d = bindings d0 ++ seq (List.length h0) (List.length bs)
    /\ NoDup (map b_name bs)
    /\ (forall i b,
          nth_error bs i = Some b ->
          is_binding_name (b_name b) = true
          /\ obj_get (b_name b) (namespace d0) = None
          /\ obj_get (b_name b) (namespace d)
             = Some (binding_node (List.length h0 + i))
          /\ b_problems b = [] /\ b_dependencies b = [] /\ b_exp b = None)
    /\ (forall k x,
          obj_get k (namespace d0) = Some x -> obj_get k (namespace d) = Some x).

(** The problems of an import: its own and those of its configurations. *)
Definition import_problems (imp : Import RainDocument) : list Problem :=
  imp_problems imp ++ match reconfigProblems imp with Some ps => ps | None => [] end.

(** What dependency resolution may have made of a binding: the same
    binding with more dependencies and more "circular dependency" problems,
    and the very same binding when it is a constant or elided. *)
Definition resolved_from (b b' : Binding) : Prop :=
  b_name b' = b_name b
  /\ b_namePosition b' = b_namePosition b
  /\ b_content b' = b_content b
  /\ b_contentPosition b' = b_contentPosition b
  /\ b_position b' = b_position b
  /\ b_elided b' = b_elided b
  /\ b_constant b' = b_constant b
  /\ b_exp b' = b_exp b
  /\ (exists ds, b_dependencies b' = b_dependencies b ++ ds)
  /\ (exists ps, b_problems b' = b_problems b ++ ps
                 /\ Forall (fun p => p = circular_problem b) ps)
  /\ (is_expression_binding b = false -> b' = b).

Definition heap_resolved (h h' : Heap) : Prop :=
  List.length h' = List.length h
  /\ forall r b, heap_get h r = Some b ->
                 exists b', heap_get h' r = Some b' /\ resolved_from b b'.

(** [d'] is [d] with more problems and nothing else changed. *)
Definition only_problems (d d' : RainDocument) : Prop :=
  exists ps, d' = push_problems ps d.

Section BeforeTheLastLoop.
Context {HP : Helpers} {LT : LanguageTypes} {TD : TextDocumentLib}
        {MS : MetaStore} {TS : ToposortLib} {JN : JSNumbers} {RL : RainlangLib}.

(** The steps of [_parse] before its last loop, the one over the comments
    that ask to ignore the next line: the document and the store that loop
    starts from. *)
Definition _parse_collect
    (parse_nested : RainDocument -> Heap -> option (RainDocument * Heap))
    (fuel : nat) (d0 : RainDocument) (h0 : Heap)
    : option (Completion (RainDocument * Heap)) :=
  let d1 := reset d0 in
  let '(d2, document2) := parse_comments d1 (text d1) in
  let d3 := parse_flags d2 in
  let '(_importStatements, document3) := import_statements document2 in
  match parse_imports parse_nested _importStatements d3 h0 with
  | None => None
  | Some (d4, h4) =>
      match merge_imports (indexed (imports d4)) (d4, h4) with
      | Throws e st => Some (Throws e st)
      | Normal (d5, h5) =>
          let '(d6, h6, document6) := parse_bindings (d5, h5, document3) in
          let d7 := check_top_level_imports d6 h6 in
          let d8 := check_remaining d7 document6 in
          match processDependencies fuel d8 h6 with
          | None => None
          | Some (d9, h9) => Some (parse_top_level d9 h9)
          end
      end
  end.

Definition collected (fuel : nat) (d : RainDocument) (h : Heap)
    : option (Completion (RainDocument * Heap)) :=
  match fuel with
  | O => None
  | S fuel' => _parse_collect (parse_with (_parse fuel')) fuel d h
  end.
End BeforeTheLastLoop.

(** The document an import statement of [d] brought: that of its first
    import, and the one [n] levels down. *)
Definition nested_document (d : RainDocument) : option RainDocument :=
  match imports d with
  | imp :: _ =>
      match sequence imp with
      | Some s => dotrain s
      | None => None
      end
  | [] => None
  end.

Fixpoint nested_at (n : nat) (d : RainDocument) : option RainDocument :=
  match n with
  | O => Some d
  | S n' =>
      match nested_document d with
      | Some d1 => nested_at n' d1
      | None => None
      end
  end.

Section Statements.
Context {HP : Helpers}.

(** The import statements [_parse] finds in the text of a document. *)
Definition document_import_statements (d : RainDocument) : list ParsedChunk :=
  fst (import_statements (snd (parse_comments (reset d) (text d)))).
End Statements.

(** ** Sample collaborators

    Simple implementations of the interfaces, used to run the examples. *)

Module Sample.

(** Split on the characters of a class; every part comes with its start. *)
Fixpoint split_parts (is_sep : ascii -> bool) (s : string) (pos : Z)
    (start : Z) (cur : string) : list (string * Z) :=
  match s with
  | EmptyString => [(cur, start)]
  | String c s' =>
      if is_sep c then (cur, start) :: split_parts is_sep s' (pos + 1) (pos + 1) EmptyString
      else split_parts is_sep s' (pos + 1) start (cur ++ String c EmptyString)
  end.

Fixpoint keep_parts (ends : bool) (first : bool) (l : list (string * Z))
    : list ParsedChunk :=
  match l with
  | [] => []
  | (s, start) :: l' =>
      let last := is_nil l' in
      let chunk : ParsedChunk := (s, (start, (start + Z.of_nat (String.length s) - 1)%Z)) in
      if negb (is_empty_string s) || (ends && (first || last))
      then chunk :: keep_parts ends false l'
      else keep_parts ends false l'
  end.

Definition separator (p : Pattern) (c : ascii) : bool :=
  match p with
  | AtGd => Ascii.eqb c "@"
  | HashGd => Ascii.eqb c "#"
  | _ => JS.is_space c
  end.

Definition exclusive (s : string) (p : Pattern) (offset : option Z) (ends : bool)
    : list ParsedChunk :=
  let off := match offset with Some o => o | None => 0%Z end in
  keep_parts ends true (split_parts (separator p) s off off EmptyString).

(** The comments of a text, an unterminated one running to the end. *)
Fixpoint scan_comments (s : string) (pos : Z) (inside : option (Z * string))
    : list ParsedChunk :=
  match inside, s with
  | None, String a (String b s'' as s') =>
      if Ascii.eqb a "/" && Ascii.eqb b "*"
      then scan_comments s'' (pos + 2) (Some (pos, "/*"))
      else scan_comments s' (pos + 1) None
  | None, _ => []
  | Some (start, acc), String a (String b s'' as s') =>
      if Ascii.eqb a "*" && Ascii.eqb b "/"
      then ((acc ++ "*/")%string, (start, (pos + 1)%Z)) :: scan_comments s'' (pos + 2) None
      else scan_comments s' (pos + 1) (Some (start, (acc ++ String a EmptyString)%string))
  | Some (start, acc), String a EmptyString =>
      [((acc ++ String a EmptyString)%string, (start, pos))]
  | Some (start, acc), EmptyString => [(acc, (start, (pos - 1)%Z))]
  end.

Fixpoint blank (s : string) (pos : Z) (range : Offsets) : string :=
  match s with
  | EmptyString => EmptyString
  | String c s' =>
      String (if (fst range <=? pos)%Z && (pos <=? snd range)%Z then " "%char else c)
        (blank s' (pos + 1) range)
  end.

Definition tracked (s : string) : TrackedTrim :=
  let t1 := JS.trimStart s in
  let t := JS.trim s in
  mkTrackedTrim t (Z.of_nat (String.length s - String.length t1))
    (Z.of_nat (String.length t1 - String.length t)).

#[export] Instance helpers : Helpers := {|
  inclusiveParse := fun s _ => scan_comments s 0 None;
  exclusiveParse := exclusive;
  fillIn := fun s range => blank s 0 range;
  trackedTrim := tracked;
  hasDuplicate := fun a b => existsb (fun x => includes_key x b) a;
  isConsumableMeta := fun maps =>
    negb (is_nil maps) &&
    forallb (fun m => is_deployer m || is_contract m || is_dotrain m) maps
|}.

Definition is_hex (s : string) : bool :=
  JS.startsWith "0x" s && negb (is_empty_string (JS.drop 2 s)) &&
  JS.every (fun c => JS.is_digit c || JS.is_lower c || JS.is_upper c) (JS.drop 2 s).

#[export] Instance languageTypes : LanguageTypes := {|
  HEX_PATTERN := is_hex;
  HASH_PATTERN := fun s => is_hex s && (String.length s =? 66);
  WORD_PATTERN := is_binding_name;
  NUMERIC_PATTERN := fun s =>
    is_hex s || (negb (is_empty_string s) && JS.every JS.is_digit s) || is_sci s;
  DEFAULT_ELISION := "elided binding, requires rebinding"
|}.

(** Lines end at a line feed. *)
Fixpoint line_of (s : string) (offset : nat) : Z :=
  match offset, s with
  | S n, String c s' =>
      ((if Ascii.eqb c (ascii_of_nat 10) then 1 else 0) + line_of s' n)%Z
  | _, _ => 0%Z
  end.

#[export] Instance textDocument : TextDocumentLib := {|
  positionAt_line := fun s offset => line_of s (Z.to_nat offset);
  getText_range := fun s a b => JS.take (Z.to_nat (b - a)) (JS.drop (Z.to_nat a) s)
|}.

#[export] Instance toposort : ToposortLib := {|
  toposort_array := fun nodes _ => Sorted nodes
|}.

#[export] Instance numbers : JSNumbers := {|
  BigInt_toString := fun s => s
|}.

(** An expression parser that knows no word: it reports the whole content
    of a binding that is not empty. *)
#[export] Instance rainlang : RainlangLib := {|
  Rainlang_new := fun content _ _ _ _ =>
    mkRainlang
      (if is_empty_string content then []
       else [mkProblem "undefined word" (0, Z.of_nat (String.length content) - 1)%Z
               (OtherCode 0)])
|}.

Definition nl : string := String (ascii_of_nat 10) EmptyString.

Definition hash_a : string :=
  "0xaaaaaaaaaaaaaaaaaaaaaaaaaaaaaaaaaaaaaaaaaaaaaaaaaaaaaaaaaaaaaaaa".
Definition hash_b : string :=
  "0xbbbbbbbbbbbbbbbbbbbbbbbbbbbbbbbbbbbbbbbbbbbbbbbbbbbbbbbbbbbbbbbb".
Definition hash_c : string :=
  "0xcccccccccccccccccccccccccccccccccccccccccccccccccccccccccccccccc".
Definition hash_d : string :=
  "0xdddddddddddddddddddddddddddddddddddddddddddddddddddddddddddddddd".

Definition hash_e : string :=
  "0xeeeeeeeeeeeeeeeeeeeeeeeeeeeeeeeeeeeeeeeeeeeeeeeeeeeeeeeeeeeeeeee".

(** A document that imports the words of [hash_b]. *)
Definition words_import : string := ("@ " ++ hash_b)%string.

(** A document that imports itself. *)
Definition self_import : string := ("@ " ++ hash_a)%string.

(** A document with an elided binding and an expression. *)
Definition library_text : string := ("#limit ! set me" ++ nl ++ "#twice _: limit;")%string.

Definition words_a : list Authoring := [mkAuthoring "add" "adds"; mkAuthoring "mul" "multiplies"].

(** A store: [hash_a] is the self-importing document, [hash_b] a set of
    words, [hash_c] a document with bindings, [hash_d] a bytecode next to a
    contract meta that does not decode, [hash_e] a document that imports
    the words of [hash_b]. *)
#[export] Instance store : MetaStore := {|
  getMeta := fun hsh =>
    if String.eqb hsh hash_a then Some "a"
    else if String.eqb hsh hash_b then Some "b"
    else if String.eqb hsh hash_c then Some "c"
    else if String.eqb hsh hash_d then Some "d"
    else if String.eqb hsh hash_e then Some "e"
    else None;
  Meta_decode := fun rec =>
    if String.eqb rec "a" then Some [DotrainMeta (Some self_import)]
    else if String.eqb rec "b"
    then Some [DeployerBytecodeMeta (Some "0x6080") (LookupFound words_a)]
    else if String.eqb rec "c" then Some [DotrainMeta (Some library_text)]
    else if String.eqb rec "d"
    then Some [ContractMetaV1 None; DeployerBytecodeMeta (Some "0x6080") (LookupFound words_a)]
    else if String.eqb rec "e" then Some [DotrainMeta (Some words_import)]
    else None
|}.

End Sample.

(** ** Example documents *)

Module Examples.

Definition expression_binding (n c : string) : Binding :=
  mkBinding n (0, 0)%Z c (0, 0)%Z (0, 0)%Z [] [] None None None.

(** Bindings [a] and [b] that refer to each other, and [c] on its own. *)
Definition cycle_heap : Heap :=
  [expression_binding "a" "_: 'b;"; expression_binding "b" "_: 'a;";
   expression_binding "c" "_: 1 2;"].

Definition cycle_document : RainDocument :=
  set_bindings [0; 1; 2] (new_RainDocument "#a _: 'b; #b _: 'a; #c _: 1 2;" 0).

(** The chunks of the configurations [limit 5 'twice thrice . !]. *)
Definition config_chunks : list ParsedChunk :=
  [("limit", (73, 77)%Z); ("5", (79, 79)%Z); ("'twice", (81, 86)%Z);
   ("thrice", (88, 93)%Z); (".", (95, 95)%Z); ("!", (97, 97)%Z)].

(** A namespace with a binding and a nested namespace, and one an import
    brings over it. *)
Definition target_namespace : Namespace :=
  [("limit", binding_node 0); ("lib", NsInterior [("twice", binding_node 1)])].

Definition brought_namespace : Namespace :=
  [("lib", NsInterior [("thrice", binding_node 2)]); ("limit", binding_node 3);
   ("cap", binding_node 4)].

(** An import of the library of [hash_c] that renames a binding to [Words]
    and then elides the words: the elision throws. *)
Definition throwing_text : string :=
  ("@ lib " ++ Sample.hash_c ++ " 'limit Words . !")%string.

(** An import at the root, over [target_namespace]. *)
Definition root_import : Import RainDocument :=
  mkImport "." Sample.hash_c (2, 67)%Z (2, 67)%Z [] (0, 67)%Z None None None.

(** A contract meta with a column of two cells and a column without cells,
    and one that uses the alias of a column for a second column. *)
Definition sample_contract : ContractMeta :=
  mkContractMeta
    [mkMetaMethod
       [mkMetaExpression
          (Some [mkContextColumn "base" 0 None
                   (Some [mkContextCell "caller" 0 (Some "the caller");
                          mkContextCell "contract" 1 None]);
                 mkContextColumn "calculations" 1 (Some "what was calculated") None])]].

Definition clashing_contract : ContractMeta :=
  mkContractMeta
    [mkMetaMethod
       [mkMetaExpression
          (Some [mkContextColumn "base" 0 None None;
                 mkContextColumn "base" 1 None None])]].


(** A comment with the marker, and on the next line a binding whose name
    is not valid. *)
Definition ignored_name_text : string :=
  ("/* ignore-next-line */" ++ Sample.nl ++ "#A 1")%string.

(** A comment with the marker, and on the next line a binding whose
    expression the sample parser reports. *)
Definition ignored_expression_text : string :=
  ("/* ignore-next-line */" ++ Sample.nl ++ "#a bad")%string.

(** The statement of the import of the document that imports itself. *)
Definition self_statement : ParsedChunk :=
  ((" " ++ Sample.hash_a)%string, (1, 67)%Z).

(** The statement of an import of [hash_d], whose contract meta does not
    decode, as the segmenter hands it over. *)
Definition corrupt_statement : ParsedChunk :=
  ((" " ++ Sample.hash_d)%string, (1, 67)%Z).

Definition corrupt_document : RainDocument :=
  new_RainDocument ("@ " ++ Sample.hash_d) 0.

(** The import of [hash_d] and the payloads of its record: a contract meta
    that does not decode, and the bytecode of a deployer whose authoring
    meta the store finds. *)
Definition corrupt_import : Import RainDocument :=
  mkImport "." Sample.hash_d (2, 67)%Z (2, 67)%Z [] (0, 67)%Z None None None.

Definition corrupt_maps : list MetaMap :=
  [ContractMetaV1 None; DeployerBytecodeMeta (Some "0x6080") (LookupFound Sample.words_a)].

(** A document that imports the words of [hash_b] under [a], and under
    [b] a document that imports the same words. *)
Definition same_words_twice_text : string :=
  ("@a " ++ Sample.hash_b ++ " @b " ++ Sample.hash_e)%string.


(** The namespace of an import that brings the words [add] and [mul]. *)
Definition word_leaf (hsh : string) (w : Authoring) : NsItem :=
  NsLeaf (mkNode hsh 0 (EWord w) None).

Definition words_leaf (hsh : string) (i : Z) : NsItem :=
  NsLeaf (mkNode hsh i (EWords Sample.words_a) (Some "0x6080")).

Definition words_namespace : Namespace :=
  [("Words", words_leaf Sample.hash_b 0);
   ("add", word_leaf Sample.hash_b (mkAuthoring "add" "adds"));
   ("mul", word_leaf Sample.hash_b (mkAuthoring "mul" "multiplies"))].

(** A document whose namespace holds a set of words under [a], and an
    import that brings another set of words under [b]. *)
Definition document_with_words : RainDocument :=
  set_namespace [("a", NsInterior [("Words", words_leaf Sample.hash_b 0)])]
    (new_RainDocument "@a 0xbb @b 0xdd" 0).

Definition import_b : Import RainDocument :=
  mkImport "b" Sample.hash_d (9, 9)%Z (11, 14)%Z [] (8, 14)%Z None None None.

End Examples.

(** * Properties *)

(** ** Strings and objects *)

Lemma every_space_some (s : string) :
  JS.every JS.is_space s = true ->
  JS.some (fun c => negb (JS.is_space c)) s = false.
Proof.
  induction s as [|c s IH]; simpl; intros H.
  - reflexivity.
  - apply andb_true_iff in H. destruct H as [Hc Hs].
    rewrite Hc. simpl. now apply IH.
Qed.


Lemma set_namespace_same (d : RainDocument) : set_namespace (namespace d) d = d.
Proof. now destruct d. Qed.

Section ObjLemmas.
Context {V : Type}.
Implicit Types (o : obj V) (k : string) (v : V).

Lemma obj_get_set_same k v o : obj_get k (obj_set k v o) = Some v.
Proof.
  induction o as [|[k' v'] o IH]; simpl.
  - now rewrite String.eqb_refl.
  - destruct (String.eqb k k') eqn:E; simpl.
    + now rewrite String.eqb_refl.
    + now rewrite E.
Qed.

Lemma obj_get_set_other k k' v o :
  k <> k' -> obj_get k (obj_set k' v o) = obj_get k o.
Proof.
  intros Hne. induction o as [|[k2 v2] o IH]; simpl.
  - apply String.eqb_neq in Hne. now rewrite Hne.
  - destruct (String.eqb k' k2) eqn:E; simpl.
    + apply String.eqb_eq in E. subst k2.
      apply String.eqb_neq in Hne. now rewrite Hne.
    + destruct (String.eqb k k2); [reflexivity | exact IH].
Qed.

Lemma obj_get_delete_same k o : obj_get k (obj_delete k o) = None.
Proof.
  induction o as [|[k' v'] o IH]; simpl.
  - reflexivity.
  - destruct (String.eqb k k') eqn:E; simpl.
    + exact IH.
    + now rewrite E.
Qed.

Lemma obj_get_delete_other k k' o :
  k <> k' -> obj_get k (obj_delete k' o) = obj_get k o.
Proof.
  intros Hne. induction o as [|[k2 v2] o IH]; simpl.
  - reflexivity.
  - destruct (String.eqb k' k2) eqn:E; simpl.
    + apply String.eqb_eq in E. subst k2.
      apply String.eqb_neq in Hne. now rewrite Hne.
    + destruct (String.eqb k k2); [reflexivity | exact IH].
Qed.

Lemma obj_has_get k o : obj_has k o = true <-> obj_get k o <> None.
Proof.
  unfold obj_has. destruct (obj_get k o); split; intros H; congruence.
Qed.
End ObjLemmas.

(** ** Dependency resolution *)

Section DependencyProperties.
Context {TS : ToposortLib}.

(** The loop of [processDependencies] is not entered when there are both
    nodes and edges. *)
Lemma resolve_loop_skipped fuel bs nodes edges d h :
  nodes <> [] -> edges <> [] ->
  resolve_loop fuel bs nodes edges d h = Some (d, h).
Proof.
  intros Hn He.
  destruct nodes as [|n nodes]; [congruence|].
  destruct edges as [|e edges]; [congruence|].
  destruct fuel; reflexivity.
Qed.

(** C1 (the code at the failing input): for the bindings [a -> b -> a] and
    an independent [c], [processDependencies] ends without attaching any
    problem: the cycle is recorded in the dependencies of [a] and [b], but
    no binding receives a circular dependency problem, whatever the
    topological sort would answer. *)
Theorem processDependencies_cycle_unreported (fuel : nat) :
  exists h',
    processDependencies fuel Examples.cycle_document Examples.cycle_heap
      = Some (Examples.cycle_document, h')
    /\ map b_name h' = ["a"; "b"; "c"]
    /\ map b_dependencies h' = [["b"]; ["a"]; []]
    /\ map b_problems h' = [[]; []; []]
    /\ getAllProblems Examples.cycle_document h' = [].
Proof.
  unfold processDependencies. cbn.
  eexists. split; [destruct fuel; reflexivity|].
  repeat split; reflexivity.
Qed.
End DependencyProperties.

(** ** The empty document *)

Section EmptyDocument.
Context {HP : Helpers} {LT : LanguageTypes} {TD : TextDocumentLib}
        {MS : MetaStore} {TS : ToposortLib} {JN : JSNumbers} {RL : RainlangLib}.

(** C8: when the text holds white space only (or nothing), [parse] ends
    normally and leaves the document with no binding, import, namespace
    entry, comment or problem, no working words, an empty path and no
    runtime error. *)
Theorem parse_whitespace_only (fuel : nat) (d : RainDocument) (h : Heap) :
  JS.every JS.is_space (text d) = true ->
  exists d',
    parse fuel d h = Some (d', h)
    /\ text d' = text d
    /\ bindings d' = [] /\ imports d' = [] /\ namespace d' = []
    /\ comments d' = [] /\ problems d' = []
    /\ authoringMeta d' = [] /\ authoringMetaPath d' = EmptyString
    /\ bytecode d' = Some EmptyString
    /\ runtimeError d' = None
    /\ getAllProblems d' h = [].
Proof.
  intros Hws. exists (reset d).
  unfold parse, parse_with. rewrite (every_space_some _ Hws).
  repeat split; reflexivity.
Qed.
End EmptyDocument.


(** ** Reconfigurations *)

Section ReconfigProperties.

End ReconfigProperties.

(** ** Merging an import *)

Section MergeProperties.

Lemma _check_unfold (n c : Namespace) :
  c <> [] ->
  _check (NsInterior n) (NsInterior c)
  = if includes_key "Element" (obj_keys c) then msg_occupied
    else if words_differ n c then msg_words
    else check_loop (dup_words n c) c n.
Proof.
  intros Hc. destruct c as [|e c]; [congruence|].
  cbn -[obj_get obj_keys includes_key].
  destruct (includes_key "Element" (obj_keys (e :: c))); [reflexivity|].
  unfold words_differ, dup_words.
  destruct (obj_get "Words" (e :: c)) as [cw|], (obj_get "Words" n) as [nw|];
    try destruct (opt_string_eqb (item_Hash nw) (item_Hash cw));
    cbn [negb];
    try reflexivity;
    (induction n as [|[k nk] l IH]; [reflexivity|];
     cbn [check_loop]; now rewrite IH).
Qed.

Lemma check_loop_pass (dup : bool) (c l : Namespace) (kv : string * NsItem) :
  entry_passes dup c kv = true ->
  check_loop dup c (kv :: l) = check_loop dup c l.
Proof.
  destruct kv as [k nk]. unfold entry_passes. cbn [fst snd check_loop].
  destruct (obj_get k c) as [[cn|ck]|]; [| |reflexivity];
    destruct nk as [nn|nm]; try discriminate;
    cbn [has_Element negb andb isNode].
  - unfold check_leaves. cbn [item_Hash opt_string_eqb].
    destruct (isWord (NsLeaf nn)), (isWord (NsLeaf cn)); cbn [negb orb andb];
      try (intros ->; reflexivity);
      (destruct ((isBinding (NsLeaf nn) && isBinding (NsLeaf cn))
                 || (isContextAlias (NsLeaf nn) && isContextAlias (NsLeaf cn)));
       cbn [andb]; [intros ->; reflexivity | discriminate]).
  - cbv zeta. intros ->. reflexivity.
Qed.

Lemma check_loop_app (dup : bool) (c pre l : Namespace) :
  forallb (entry_passes dup c) pre = true ->
  check_loop dup c (pre ++ l) = check_loop dup c l.
Proof.
  induction pre as [|kv pre IH]; [reflexivity|].
  cbn [forallb app]. intros H. apply andb_prop in H. destruct H as [Hk Hpre].
  rewrite (check_loop_pass _ _ _ _ Hk). now apply IH.
Qed.

Lemma plain_get (k : string) (c : Namespace) (v : NsItem) :
  plain (NsInterior c) = true -> obj_get k c = Some v -> plain v = true.
Proof.
  cbn [plain]. intros H. apply andb_prop in H. destruct H as [_ H].
  induction c as [|[k' v'] c IH]; cbn [obj_get forallb snd] in *; [discriminate|].
  apply andb_prop in H. destruct H as [Hv Hc].
  destruct (String.eqb k k'); [intros [= <-]; exact Hv | now apply IH].
Qed.

Lemma plain_no_Element (c : Namespace) :
  plain (NsInterior c) = true -> includes_key "Element" (obj_keys c) = false.
Proof.
  cbn [plain]. intros H. apply andb_prop in H. destruct H as [H _].
  now apply negb_true_iff in H.
Qed.

Lemma words_clash_target (n c : Namespace) : words_clash n c -> c <> [].
Proof. intros H; destruct H; intros ->; discriminate. Qed.

(** A clash on words is what the check answers. *)
Lemma words_clash_check (n c : Namespace) :
  words_clash n c -> plain (NsInterior c) = true ->
  _check (NsInterior n) (NsInterior c) = msg_words.
Proof.
  intros H. induction H as [n c nw cw Hn Hc Hne
                           |n c pre post k nk ck Hdup -> Hpre Hk Hnk Hck
                           |n c pre post k n' c' -> Hpre Hk Hclash IH]; intros Hplain.
  - rewrite _check_unfold by (intros ->; discriminate).
    rewrite (plain_no_Element _ Hplain). unfold words_differ. rewrite Hc, Hn.
    replace (opt_string_eqb (item_Hash nw) (item_Hash cw)) with false; [reflexivity|].
    symmetry. destruct (item_Hash nw) as [a|], (item_Hash cw) as [b|]; simpl;
      try reflexivity; try congruence.
    apply String.eqb_neq. congruence.
  - rewrite _check_unfold by (intros ->; discriminate).
    rewrite (plain_no_Element _ Hplain).
    destruct (words_differ _ c); [reflexivity|].
    rewrite Hdup, (check_loop_app _ _ _ _ Hpre). cbn [check_loop]. rewrite Hk.
    destruct nk as [nn|nm]; [|discriminate]. destruct ck as [cn|cm]; [|discriminate].
    cbn [has_Element negb andb isNode]. unfold check_leaves. rewrite Hnk, Hck.
    reflexivity.
  - rewrite _check_unfold by (intros ->; discriminate).
    rewrite (plain_no_Element _ Hplain).
    destruct (words_differ _ c); [reflexivity|].
    rewrite (check_loop_app _ _ _ _ Hpre). cbn [check_loop]. rewrite Hk.
    cbn [has_Element negb andb]. cbv zeta.
    rewrite (IH (plain_get _ _ _ Hplain Hk)). reflexivity.
Qed.

(** C3 (amended): take an import whose namespace is merged into a
    namespace the document already holds (the root for the name [.], else
    the namespace under the import's name), no namespace of either holding
    an entry named [Element]. When the two clash on words before any other
    clash is met -- they hold sets of words with different hashes under
    [Words] at the same path, at the top or under nested namespaces they
    share, or they hold a single word under the same key without holding
    the same set of words -- the merge is refused: exactly one problem,
    "namespace already contains a set of words", is recorded at the hash
    position of the import, and the namespace of the document is left as
    it was, so nothing the import brings appears in it. *)
Theorem mergeNamespace_words_conflict (imp : Import RainDocument) (ns target : Namespace)
    (d : RainDocument) :
  merge_target imp d = Some (NsInterior target) ->
  plain (NsInterior ns) = true ->
  plain (NsInterior target) = true ->
  words_clash ns target ->
  mergeNamespace imp ns d
    = (false,
       push_problem
         (mkProblem "namespace already contains a set of words"
            (imp_hashPosition imp) MultipleWords) d)
  /\ namespace (snd (mergeNamespace imp ns d)) = namespace d
  /\ problems (snd (mergeNamespace imp ns d))
     = problems d ++ [mkProblem "namespace already contains a set of words"
                        (imp_hashPosition imp) MultipleWords].
Proof.
  intros Htarget _ Hplain Hclash.
  pose proof (words_clash_check _ _ Hclash Hplain) as Hcheck.
  pose proof (words_clash_target _ _ Hclash) as Hnonempty.
  assert (Hmain : mergeNamespace imp ns d
    = (false,
       push_problem
         (mkProblem "namespace already contains a set of words"
            (imp_hashPosition imp) MultipleWords) d)).
  { unfold mergeNamespace, merge_target in *.
    destruct (String.eqb (imp_name imp) ".") eqn:Eroot; cbn [negb andb].
    - injection Htarget as Ht. subst target.
      rewrite Hcheck.
      cbn. rewrite set_namespace_same. now destruct d.
    - unfold obj_has. rewrite Htarget. cbn [negb orb andb]. rewrite Htarget.
      rewrite Hcheck.
      destruct target; [congruence|].
      cbn. rewrite set_namespace_same. now destruct d. }
  rewrite Hmain. repeat split; reflexivity.
Qed.
End MergeProperties.

(** ** Ignored lines *)

Lemma remove_first_none {A : Type} (p : A -> bool) (l : list A) :
  remove_first p l = None -> filter (fun x => negb (p x)) l = l.
Proof.
  induction l as [|x l IH]; simpl; intros H.
  - reflexivity.
  - destruct (p x); [discriminate|]. simpl.
    destruct (remove_first p l); [discriminate|]. now rewrite IH.
Qed.

Lemma remove_first_some {A : Type} (p : A -> bool) (l l' : list A) :
  remove_first p l = Some l' ->
  filter (fun x => negb (p x)) l = filter (fun x => negb (p x)) l'
  /\ S (List.length l') = List.length l.
Proof.
  revert l'. induction l as [|x l IH]; simpl; intros l' H.
  - discriminate.
  - destruct (p x) eqn:E.
    + injection H as <-. split; reflexivity.
    + destruct (remove_first p l) as [r|]; [|discriminate].
      injection H as <-. destruct (IH r eq_refl) as [IH1 IH2].
      simpl. rewrite E. simpl. now rewrite IH1, IH2.
Qed.

(** The [while] loop with [splice] removes every problem of the given
    line; as many turns as there are problems are enough. *)
Lemma splice_loop_filter {A : Type} (p : A -> bool) (fuel : nat) (l : list A) :
  List.length l <= fuel ->
  splice_loop fuel p l = filter (fun x => negb (p x)) l.
Proof.
  revert l. induction fuel as [|fuel IH]; intros l Hlen.
  - destruct l; [reflexivity | simpl in Hlen; lia].
  - simpl. destruct (remove_first p l) as [l'|] eqn:E.
    + destruct (remove_first_some _ _ _ E) as [Hf Hl].
      rewrite Hf. apply IH. lia.
    + symmetry. now apply remove_first_none.
Qed.

Lemma filter_filter {A : Type} (p q : A -> bool) (l : list A) :
  filter q (filter p l) = filter (fun x => p x && q x) l.
Proof.
  induction l as [|x l IH]; simpl; [reflexivity|].
  destruct (p x); simpl; [destruct (q x)|]; now rewrite IH.
Qed.

Lemma filter_true {A : Type} (l : list A) : filter (fun _ => true) l = l.
Proof. induction l; simpl; congruence. Qed.

Lemma set_problems_same (d : RainDocument) : set_problems (problems d) d = d.
Proof. now destruct d. Qed.

Section IgnoreProperties.
Context {TD : TextDocumentLib}.

Lemma ignore_fold (cs : list Comment) (d : RainDocument) :
  fold_left
    (fun d v =>
       if has_ignore_next_line v then
         set_problems
           (splice_loop (List.length (problems d))
              (fun e => (problem_line d e =? comment_line d v + 1)%Z) (problems d)) d
       else d) cs d
  = set_problems
      (filter (fun e => negb (existsb (suppressed_by d e) cs)) (problems d)) d.
Proof.
  revert d. induction cs as [|v cs IH]; intros d; simpl.
  - now rewrite filter_true, set_problems_same.
  - rewrite IH. destruct (has_ignore_next_line v) eqn:Ev.
    + assert (Hv : forall e, suppressed_by d e v
                             = (problem_line d e =? comment_line d v + 1)%Z)
        by (intros e; unfold suppressed_by; now rewrite Ev).
      change (set_problems
                (filter (fun e => negb (existsb (suppressed_by d e) cs))
                   (splice_loop (List.length (problems d))
                      (fun e => (problem_line d e =? comment_line d v + 1)%Z)
                      (problems d))) d
              = set_problems
                  (filter (fun e => negb (suppressed_by d e v
                                          || existsb (suppressed_by d e) cs))
                     (problems d)) d).
      rewrite splice_loop_filter by lia. rewrite filter_filter.
      f_equal. apply filter_ext. intros e. now rewrite Hv, negb_orb.
    + f_equal. apply filter_ext. intros e.
      unfold suppressed_by at 2. now rewrite Ev.
Qed.

(** What the closing pass of [_parse] does: it filters the problems of the
    document and nothing else. *)
Lemma ignore_next_line_filter (d : RainDocument) :
  ignore_next_line d
  = set_problems (filter (fun e => negb (suppressed d e)) (problems d)) d.
Proof. apply ignore_fold. Qed.
End IgnoreProperties.

Ltac destruct_match_in H :=
  match type of H with
  | context [match ?x with _ => _ end] => destruct x eqn:?
  end.

Section PassProperties.
Context {HP : Helpers} {LT : LanguageTypes} {TD : TextDocumentLib}
        {MS : MetaStore} {TS : ToposortLib} {JN : JSNumbers} {RL : RainlangLib}.

(** The pass is its steps before the last loop, followed by that loop. *)
Lemma _parse_body_collect
    (run : RainDocument -> Heap -> option (RainDocument * Heap))
    (fuel : nat) (d : RainDocument) (h : Heap) :
  _parse_body run fuel d h
  = match _parse_collect run fuel d h with
    | Some (Normal (d0, h0)) => Some (Normal (ignore_next_line d0, h0))
    | r => r
    end.
Proof.
  unfold _parse_body, _parse_collect.
  destruct (parse_comments (reset d) (text (reset d))) as [d2 document2].
  destruct (import_statements document2) as [stmts document3].
  destruct (parse_imports run stmts (parse_flags d2) h) as [[d4 h4]|]; [|reflexivity].
  destruct (merge_imports (indexed (imports d4)) (d4, h4)) as [[d5 h5]|e st];
    [|reflexivity].
  destruct (parse_bindings (d5, h5, document3)) as [[d6 h6] document6].
  destruct (processDependencies fuel _ h6) as [[d9 h9]|]; [|reflexivity].
  destruct (parse_top_level d9 h9) as [[d10 h10]|e st]; reflexivity.
Qed.

(** C2 (amended): a pass that ends normally ends with the loop over the
    comments, run on the document [d0] and the store its earlier steps
    produced. That loop drops from the problems of the document every
    problem whose first line is exactly one line below the line on which a
    comment with the [ignore-next-line] marker ends, and keeps the others in
    their order. It does not touch the store: the problems attached to the
    bindings are not filtered, and every one of them, also one on such a
    line, is among the reported problems after the pass. *)
Theorem ignore_next_line_document_problems (fuel : nat) (d d' : RainDocument)
    (h h' : Heap) :
  _parse fuel d h = Some (Normal (d', h')) ->
  exists d0,
    collected fuel d h = Some (Normal (d0, h'))
    /\ d' = ignore_next_line d0
    /\ problems d' = filter (fun e => negb (suppressed d0 e)) (problems d0)
    /\ (forall e, suppressed d0 e = true -> ~ In e (problems d'))
    /\ (forall e, In e (problems d0) -> suppressed d0 e = false -> In e (problems d'))
    /\ getBindingsProblems d' h' = getBindingsProblems d0 h'
    /\ (forall e, In e (getBindingsProblems d0 h') -> In e (getAllProblems d' h')).
Proof.
  intros H. destruct fuel as [|fuel]; [discriminate|].
  cbn [_parse] in H. rewrite _parse_body_collect in H. cbn [collected].
  destruct (_parse_collect (parse_with (_parse fuel)) (S fuel) d h)
    as [[[d0 h0]|e st]|]; try discriminate.
  injection H as Hd Hh. subst h0. exists d0.
  pose proof (ignore_next_line_filter d0) as Hf. rewrite Hd in Hf.
  assert (Hp : problems d' = filter (fun e => negb (suppressed d0 e)) (problems d0))
    by (rewrite Hf; reflexivity).
  assert (Hb : getBindingsProblems d' h' = getBindingsProblems d0 h')
    by (rewrite Hf; reflexivity).
  split; [reflexivity|]. split; [now symmetry|]. split; [exact Hp|].
  split; [|split; [|split]].
  - intros e Hs Hin. rewrite Hp in Hin. apply filter_In in Hin.
    destruct Hin as [_ Hin]. rewrite Hs in Hin. discriminate.
  - intros e He Hn. rewrite Hp. apply filter_In. split; [exact He|].
    now rewrite Hn.
  - exact Hb.
  - intros e He. unfold getAllProblems. apply in_or_app. right. now rewrite Hb.
Qed.
End PassProperties.


(** ** Imports with problems *)

(** Induction over a namespace tree and the entries of its nested
    namespaces. *)
Lemma NsItem_tree_ind (P : NsItem -> Prop) :
  (forall n, P (NsLeaf n)) ->
  (forall m, Forall (fun kv => P (snd kv)) m -> P (NsInterior m)) ->
  forall x, P x.
Proof.
  intros Hleaf Hnode.
  fix IH 1. intros [n|m].
  - apply Hleaf.
  - apply Hnode. induction m as [|[k v] m IHm].
    + constructor.
    + constructor; [apply IH | exact IHm].
Qed.

Section LeavesLemmas.
Variable P : NamespaceNode -> Prop.

Lemma leaves_cons k v (o : Namespace) :
  ns_leaves ((k, v) :: o) = leaves v ++ ns_leaves o.
Proof. reflexivity. Qed.

Lemma Forall_leaves_get k (o : Namespace) v :
  Forall P (ns_leaves o) -> obj_get k o = Some v -> Forall P (leaves v).
Proof.
  induction o as [|[k' v'] o IH]; simpl; intros Hall Hget; [discriminate|].
  rewrite leaves_cons in Hall. apply Forall_app in Hall. destruct Hall as [H1 H2].
  destruct (String.eqb k k'); [injection Hget as <-; exact H1 | now apply IH].
Qed.

Lemma Forall_leaves_set k v (o : Namespace) :
  Forall P (ns_leaves o) -> Forall P (leaves v) -> Forall P (ns_leaves (obj_set k v o)).
Proof.
  induction o as [|[k' v'] o IH]; simpl; intros Hall Hv.
  - rewrite leaves_cons. apply Forall_app. split; [exact Hv | constructor].
  - rewrite leaves_cons in Hall. apply Forall_app in Hall. destruct Hall as [H1 H2].
    destruct (String.eqb k k'); rewrite leaves_cons; apply Forall_app; split; auto.
Qed.

Lemma Forall_leaves_delete k (o : Namespace) :
  Forall P (ns_leaves o) -> Forall P (ns_leaves (obj_delete k o)).
Proof.
  induction o as [|[k' v'] o IH]; simpl; intros Hall; [exact Hall|].
  rewrite leaves_cons in Hall. apply Forall_app in Hall. destruct Hall as [H1 H2].
  destruct (String.eqb k k'); [now apply IH|].
  rewrite leaves_cons. apply Forall_app. split; auto.
Qed.

Lemma Forall_leaves_merge (nns : NsItem) :
  forall cns : Namespace,
    Forall P (leaves nns) -> Forall P (ns_leaves cns) ->
    Forall P (ns_leaves (_merge nns cns)).
Proof.
  induction nns as [n|m IHm] using NsItem_tree_ind; intros cns Hn Hc.
  - exact Hc.
  - simpl. generalize (obj_keys cns) as keys. intros keys.
    change (Forall P (ns_leaves m)) in Hn.
    revert cns Hc. induction m as [|[k v] m IHl]; intros cns Hc.
    + exact Hc.
    + rewrite leaves_cons in Hn. apply Forall_app in Hn. destruct Hn as [Hv Hm].
      inversion IHm as [|? ? Hhead Htail]; subst.
      specialize (IHl Htail Hm).
      destruct (is_nil keys).
      * apply IHl. now apply Forall_leaves_set.
      * destruct (negb (includes_key k keys)).
        -- apply IHl. now apply Forall_leaves_set.
        -- destruct (negb (has_Element v)); [|now apply IHl].
           destruct (obj_get k cns) as [[nl|ck]|] eqn:Eget; try now apply IHl.
           apply IHl. apply Forall_leaves_set; [exact Hc|].
           apply Hhead; [exact Hv|].
           exact (Forall_leaves_get _ _ _ Hc Eget).
Qed.
End LeavesLemmas.

Section LeavesOfImports.
Variable P : NamespaceNode -> Prop.

Lemma Forall_leaves_fold_set {A : Type} (key : A -> string) (val : A -> NsItem)
    (l : list A) (o : Namespace) :
  (forall a, In a l -> Forall P (leaves (val a))) ->
  Forall P (ns_leaves o) ->
  Forall P (ns_leaves (fold_left (fun ns v => obj_set (key v) (val v) ns) l o)).
Proof.
  revert o. induction l as [|a l IH]; simpl; intros o Hval Ho; [exact Ho|].
  apply IH; [auto|]. apply Forall_leaves_set; auto.
Qed.

Lemma Forall_leaves_fold_delete {A : Type} (key : A -> string) (l : list A)
    (o : Namespace) :
  Forall P (ns_leaves o) ->
  Forall P (ns_leaves (fold_left (fun ns v => obj_delete (key v) ns) l o)).
Proof.
  revert o. induction l as [|a l IH]; simpl; intros o Ho; [exact Ho|].
  apply IH. now apply Forall_leaves_delete.
Qed.

Lemma Forall_leaves_spread (copy o : Namespace) :
  Forall P (ns_leaves copy) -> Forall P (ns_leaves o) ->
  Forall P (ns_leaves (spread o copy)).
Proof.
  unfold spread. revert o. induction copy as [|[k v] copy IH]; simpl; intros o Hc Ho.
  - exact Ho.
  - rewrite leaves_cons in Hc. apply Forall_app in Hc. destruct Hc as [Hv Hc].
    apply IH; [exact Hc|]. now apply Forall_leaves_set.
Qed.

Lemma Forall_leaves_mergeNamespace imp (ns : Namespace) d :
  Forall P (ns_leaves (namespace d)) -> Forall P (ns_leaves ns) ->
  Forall P (ns_leaves (namespace (snd (mergeNamespace imp ns d)))).
Proof.
  intros Hd Hns. unfold mergeNamespace.
  set (root1 := if negb (String.eqb (imp_name imp) ".")
                   && negb (obj_has (imp_name imp) (namespace d)
                            || inherited (imp_name imp))
                then obj_set (imp_name imp) (NsInterior []) (namespace d)
                else namespace d).
  assert (H1 : Forall P (ns_leaves root1)).
  { subst root1. destruct (_ && _); [|exact Hd].
    apply Forall_leaves_set; [exact Hd | constructor]. }
  clearbody root1. cbv zeta.
  destruct (if String.eqb (imp_name imp) "." then Some (NsInterior root1)
            else obj_get (imp_name imp) root1) as [_mns|] eqn:Emns; [|exact Hd].
  destruct (negb (String.eqb (_check _ _) msg_ok)).
  - cbn [snd namespace set_namespace].
    destruct (_ && _); [now apply Forall_leaves_delete | exact H1].
  - cbn [snd namespace set_namespace].
    destruct _mns as [n|m]; [exact H1|].
    destruct (String.eqb (imp_name imp) ".").
    + injection Emns as <-. now apply Forall_leaves_merge.
    + apply Forall_leaves_set; [exact H1|].
      apply Forall_leaves_merge; [exact Hns|].
      exact (Forall_leaves_get _ _ _ _ H1 Emns).
Qed.

Lemma Forall_leaves_read k (o : Namespace) v :
  Forall P (ns_leaves o) -> ns_read k o = Some v -> Forall P (leaves v).
Proof.
  intros Ho. unfold ns_read.
  destruct (obj_get k o) as [x|] eqn:Eget.
  - intros [= <-]. exact (Forall_leaves_get _ _ _ _ Ho Eget).
  - destruct (inherited k); [|discriminate]. intros [= <-]. constructor.
Qed.

Lemma apply_reconfig_namespace _s (_ns : Namespace) d h :
  Forall P (ns_leaves _ns) ->
  Forall P (ns_leaves (fst (fst (state_of (apply_reconfig _s (_ns, d, h))))))
  /\ namespace (snd (fst (state_of (apply_reconfig _s (_ns, d, h))))) = namespace d.
Proof.
  intros Hns. unfold apply_reconfig.
  repeat match goal with
         | |- context [match ?x with _ => _ end] => destruct x eqn:?
         end;
    cbn [state_of fst snd]; split; try reflexivity; try exact Hns.
  - unfold delete_words. apply Forall_leaves_delete.
    now apply Forall_leaves_fold_delete.
  - now apply Forall_leaves_delete.
  - apply Forall_leaves_delete. apply Forall_leaves_set; [exact Hns|].
    eapply Forall_leaves_read; eauto.
Qed.

Lemma apply_reconfigs_namespace rs (_ns : Namespace) d h :
  Forall P (ns_leaves _ns) ->
  Forall P (ns_leaves (fst (fst (state_of (apply_reconfigs rs (_ns, d, h))))))
  /\ namespace (snd (fst (state_of (apply_reconfigs rs (_ns, d, h))))) = namespace d.
Proof.
  revert _ns d h. induction rs as [|_s rs IH]; intros _ns d h Hns;
    cbn [apply_reconfigs].
  - split; [exact Hns | reflexivity].
  - destruct (apply_reconfig_namespace _s _ns d h Hns) as [H1 H2].
    destruct (apply_reconfig _s (_ns, d, h)) as [[[ns1 d1] h1]|e [[ns1 d1] h1]];
      cbn [state_of fst snd] in *.
    + destruct (IH ns1 d1 h1 H1) as [H3 H4]. split; [exact H3 | congruence].
    + split; assumption.
Qed.
End LeavesOfImports.

Lemma copyItem_index (i : Z) (hsh : string) (x : NsItem) :
  Forall (fun n => ImportIndex n = i) (leaves (copyItem i hsh x)).
Proof.
  induction x as [n|m IHm] using NsItem_tree_ind.
  - simpl. constructor; [reflexivity | constructor].
  - simpl. induction m as [|[k v] m IHl]; simpl.
    + constructor.
    + inversion IHm as [|? ? Hhead Htail]; subst.
      apply Forall_app. split; [exact Hhead | now apply IHl].
Qed.

Lemma copyNamespace_index (ns : Namespace) (i : Z) (hsh : string) :
  Forall (fun n => ImportIndex n = i) (ns_leaves (copyNamespace ns i hsh)).
Proof. exact (copyItem_index i hsh (NsInterior ns)). Qed.

Lemma is_nil_true {A : Type} (l : list A) : is_nil l = true -> l = [].
Proof. destruct l; [reflexivity | discriminate]. Qed.

Lemma indexed_from_nth {A : Type} (l : list A) (k i : nat) (x : A) :
  In (i, x) (indexed_from k l) -> k <= i /\ nth_error l (i - k) = Some x.
Proof.
  revert k. induction l as [|y l IH]; simpl; intros k Hin; [contradiction|].
  destruct Hin as [Heq|Hin].
  - injection Heq as <- <-. split; [lia|]. now rewrite Nat.sub_diag.
  - apply IH in Hin. destruct Hin as [Hle Hnth]. split; [lia|].
    replace (i - k) with (S (i - S k)) by lia. exact Hnth.
Qed.

Section ImportsWithProblems.
Context {HP : Helpers}.

Lemma import_namespace_index (i : Z) (_imp : Import RainDocument) :
  Forall (fun n => ImportIndex n = i) (ns_leaves (fst (fst (import_namespace i _imp)))).
Proof.
  unfold import_namespace. cbv zeta.
  match goal with
  | |- context [hasDuplicate (map ca_name _) (obj_keys ?n)] => set (ns1 := n)
  end.
  assert (H1 : Forall (fun n => ImportIndex n = i) (ns_leaves ns1)).
  { subst ns1. destruct (dispair (the_sequence _imp)) as [dis|]; [|constructor].
    apply (Forall_leaves_fold_set _ word
             (fun v => NsLeaf (mkNode (imp_hash _imp) i (EWord v) None))).
    - intros a _. constructor; [reflexivity | constructor].
    - constructor; [reflexivity | constructor]. }
  clearbody ns1.
  destruct (ctxmeta (the_sequence _imp)) as [aliases|].
  - destruct (hasDuplicate (map ca_name aliases) (obj_keys ns1)).
    + destruct (dotrain (the_sequence _imp)); exact H1.
    + assert (H2 : Forall (fun n => ImportIndex n = i)
                     (ns_leaves
                        (fold_left
                           (fun ns v => obj_set (ca_name v)
                              (NsLeaf (mkNode (imp_hash _imp) i (EContextAlias v) None)) ns)
                           aliases ns1))).
      { apply (Forall_leaves_fold_set _ ca_name
                 (fun v => NsLeaf (mkNode (imp_hash _imp) i (EContextAlias v) None)));
          [|exact H1].
        intros a _. constructor; [reflexivity | constructor]. }
      destruct (dotrain (the_sequence _imp)) as [_rd|]; [|exact H2].
      cbn [negb]. destruct (_ && _); [exact H2|].
      destruct (hasDuplicate _ _); [exact H2|].
      apply Forall_leaves_spread; [apply copyNamespace_index | exact H2].
  - destruct (dotrain (the_sequence _imp)) as [_rd|]; [|exact H1].
    cbn [negb]. destruct (_ && _); [exact H1|].
    destruct (hasDuplicate _ _); [exact H1|].
    apply Forall_leaves_spread; [apply copyNamespace_index | exact H1].
Qed.

(** An import that recorded a problem is passed over by the merge loop. *)
Lemma merge_import_skipped (i : nat) (_imp : Import RainDocument)
    (st : RainDocument * Heap) :
  imp_problems _imp <> [] -> merge_import i _imp st = Normal st.
Proof.
  intros Hp. unfold merge_import. destruct st as [d h].
  destruct (imp_problems _imp); [congruence | reflexivity].
Qed.

Lemma merge_imports_filter (ps : list (nat * Import RainDocument))
    (st : RainDocument * Heap) :
  merge_imports ps st = merge_imports (filter is_clean ps) st.
Proof.
  revert st. induction ps as [|[i _imp] ps IH]; intros st; simpl; [reflexivity|].
  unfold is_clean at 1. cbn [snd].
  destruct (imp_problems _imp) as [|p l] eqn:E; cbn [is_nil].
  - cbn [merge_imports]. destruct (merge_import i _imp st); [apply IH | reflexivity].
  - rewrite merge_import_skipped by (rewrite E; discriminate). apply IH.
Qed.

Lemma merge_import_leaves (imps : list (Import RainDocument))
    (P0 : NamespaceNode -> Prop) (i : nat) (_imp : Import RainDocument)
    (d : RainDocument) (h : Heap) :
  nth_error imps i = Some _imp ->
  Forall (fun n => P0 n \/ from_clean_import imps n) (ns_leaves (namespace d)) ->
  Forall (fun n => P0 n \/ from_clean_import imps n)
    (ns_leaves (namespace (fst (state_of (merge_import i _imp (d, h)))))).
Proof.
  intros Hnth Hd. unfold merge_import.
  destruct (is_nil (imp_problems _imp)) eqn:Eclean; [|exact Hd].
  apply is_nil_true in Eclean.
  destruct (match obj_get (imp_name _imp) (namespace d) with
            | Some x => has_Element x
            | None => false
            end); [exact Hd|].
  destruct (isDeepImport _imp); [exact Hd|].
  pose proof (import_namespace_index (Z.of_nat i) _imp) as Hidx.
  destruct (import_namespace (Z.of_nat i) _imp) as [[_ns dupKeys] dupWords].
  cbn [fst] in Hidx.
  assert (Hns : Forall (fun n => P0 n \/ from_clean_import imps n) (ns_leaves _ns)).
  { eapply Forall_impl; [|exact Hidx]. intros n Hn. right. now exists i, _imp. }
  assert (Hconf : forall c : Completion MergeState,
            Forall (fun n => P0 n \/ from_clean_import imps n)
              (ns_leaves (fst (fst (state_of c)))) ->
            namespace (snd (fst (state_of c))) = namespace d ->
            Forall (fun n => P0 n \/ from_clean_import imps n)
              (ns_leaves
                 (namespace
                    (fst (state_of
                            match c with
                            | Normal (_ns1, d1, h1) =>
                                Normal (snd (mergeNamespace _imp _ns1 d1), h1)
                            | Throws e (_, d1, h1) => Throws e (d1, h1)
                            end))))).
  { intros [[[ns1 d1] h1]|e [[ns1 d1] h1]] Hc1 Hc2; cbn [state_of fst snd] in *.
    - apply Forall_leaves_mergeNamespace; [now rewrite Hc2 | exact Hc1].
    - now rewrite Hc2. }
  cbv zeta. destruct (dupKeys || dupWords).
  - destruct dupKeys; cbn [state_of fst snd];
      apply Forall_leaves_mergeNamespace; assumption.
  - destruct (reconfigs _imp) as [rs|].
    + destruct (apply_reconfigs_namespace _ rs _ns d h Hns) as [Ha Hb].
      apply (Hconf (apply_reconfigs rs (_ns, d, h))); assumption.
    + cbn [state_of fst snd]. apply Forall_leaves_mergeNamespace; assumption.
Qed.

Lemma merge_imports_leaves (imps : list (Import RainDocument))
    (P0 : NamespaceNode -> Prop) (ps : list (nat * Import RainDocument))
    (d : RainDocument) (h : Heap) :
  (forall i _imp, In (i, _imp) ps -> nth_error imps i = Some _imp) ->
  Forall (fun n => P0 n \/ from_clean_import imps n) (ns_leaves (namespace d)) ->
  Forall (fun n => P0 n \/ from_clean_import imps n)
    (ns_leaves (namespace (fst (state_of (merge_imports ps (d, h)))))).
Proof.
  revert d h. induction ps as [|[i _imp] ps IH]; intros d h Hps Hd;
    cbn [merge_imports].
  - exact Hd.
  - pose proof (merge_import_leaves imps P0 i _imp d h
                  (Hps i _imp (or_introl eq_refl)) Hd) as Hstep.
    destruct (merge_import i _imp (d, h)) as [[d1 h1]|e [d1 h1]];
      cbn [state_of fst] in Hstep.
    + apply IH; [|exact Hstep]. intros j imp' Hin. apply Hps. now right.
    + exact Hstep.
Qed.

(** C10: an import that recorded a problem of its own by the end of import
    processing contributes nothing to the namespace. The merge loop over
    the imports does what it does over the imports without problems alone
    (each keeping its index), and in the namespace it leaves every leaf was
    there before the loop or carries the index of an import without
    problems; from the empty namespace of a pass, every leaf comes from an
    import without problems. *)
Theorem imports_with_problems_contribute_nothing
    (imps : list (Import RainDocument)) (d : RainDocument) (h : Heap) :
  merge_imports (indexed imps) (d, h)
  = merge_imports (filter is_clean (indexed imps)) (d, h)
  /\ (forall P0 : NamespaceNode -> Prop,
        Forall P0 (ns_leaves (namespace d)) ->
        Forall (fun n => P0 n \/ from_clean_import imps n)
          (ns_leaves (namespace (fst (state_of (merge_imports (indexed imps) (d, h)))))))
  /\ (namespace d = [] ->
      Forall (from_clean_import imps)
        (ns_leaves (namespace (fst (state_of (merge_imports (indexed imps) (d, h))))))).
Proof.
  assert (Hidx : forall i _imp,
            In (i, _imp) (indexed imps) -> nth_error imps i = Some _imp).
  { intros i _imp Hin. apply indexed_from_nth in Hin.
    destruct Hin as [_ Hnth]. now rewrite Nat.sub_0_r in Hnth. }
  split; [apply merge_imports_filter|]. split.
  - intros P0 H0. apply merge_imports_leaves; [exact Hidx|].
    eapply Forall_impl; [|exact H0]. intros n Hn. now left.
  - intros Hempty.
    assert (H0 : Forall (fun n => False \/ from_clean_import imps n)
                   (ns_leaves (namespace d))) by (rewrite Hempty; constructor).
    pose proof (merge_imports_leaves imps (fun _ => False) (indexed imps) d h Hidx H0)
      as Hall.
    eapply Forall_impl; [|exact Hall]. intros n [[]|Hn]. exact Hn.
Qed.
End ImportsWithProblems.

(** ** Classifying the meta of an import *)

Lemma filter_snoc_false {A : Type} (p : A -> bool) (l : list A) (x : A) :
  p x = false -> filter p (l ++ [x]) = filter p l.
Proof.
  intros Hx. rewrite filter_app. simpl. rewrite Hx. apply app_nil_r.
Qed.

Section ClassifyProperties.
Context {HP : Helpers} {LT : LanguageTypes} {MS : MetaStore}.
Variable parse_nested : RainDocument -> Heap -> option (RainDocument * Heap).

Lemma meta_frame_refl st : meta_frame st st.
Proof. repeat split. Qed.

Lemma meta_frame_trans st1 st2 st3 :
  meta_frame st1 st2 -> meta_frame st2 st3 -> meta_frame st1 st3.
Proof.
  unfold meta_frame. intros (A1 & A2 & A3 & A4 & A5) (B1 & B2 & B3 & B4 & B5).
  repeat split; congruence.
Qed.

Lemma processMeta_settles imp meta d h :
  (forall txt, meta = DotrainMeta (Some txt) ->
     exists r, parse_nested (new_RainDocument txt (importDepth d + 1)) h = Some r) ->
  exists s st',
    processMeta parse_nested imp meta d h = Some (s, st')
    /\ (s = Rejected <-> payload_throws (_ignoreAM d) meta = true)
    /\ meta_frame (imp, d, h) st'.
Proof.
  intros Hnested. unfold processMeta, payload_throws.
  destruct meta as [[bc|] lookup|[c|]|[txt|]|[|]].
  - destruct (_ignoreAM d) eqn:Eam, lookup as [| |am];
      try destruct (_ignoreUAM d);
      do 2 eexists; (split; [reflexivity|]);
      (split; [split; intros; try discriminate; reflexivity|]);
      repeat split; exact Eam.
  - do 2 eexists. split; [reflexivity|]. split; [split; reflexivity|]. repeat split.
  - destruct (toContextAlias c); do 2 eexists; (split; [reflexivity|]);
      (split; [split; intros; try discriminate; reflexivity|]); repeat split.
  - do 2 eexists. split; [reflexivity|]. split; [split; reflexivity|]. repeat split.
  - destruct (Hnested txt eq_refl) as [[nested h1] Hrun]. rewrite Hrun.
    do 2 eexists. split; [reflexivity|]. split; [split; discriminate|].
    destruct (is_nil (problems nested)); repeat split.
    cbn. now rewrite filter_snoc_false.
  - do 2 eexists. split; [reflexivity|]. split; [split; reflexivity|]. repeat split.
  - do 2 eexists. split; [reflexivity|]. split; [split; reflexivity|]. repeat split.
  - do 2 eexists. split; [reflexivity|]. split; [split; reflexivity|]. repeat split.
Qed.

Lemma processMeta_all_settles mm st :
  (forall txt d h, In (DotrainMeta (Some txt)) mm ->
     importDepth d = importDepth (snd (fst st)) ->
     exists r, parse_nested (new_RainDocument txt (importDepth d + 1)) h = Some r) ->
  exists st',
    processMeta_all parse_nested mm st
    = Some (existsb (payload_throws (_ignoreAM (snd (fst st)))) mm, st')
    /\ meta_frame st st'.
Proof.
  revert st. induction mm as [|meta mm IH]; intros [[imp d] h] Hnested;
    cbn [processMeta_all].
  - eexists. split; [reflexivity | apply meta_frame_refl].
  - destruct (processMeta_settles imp meta d h) as (s & st1 & Hrun & Hs & Hf1).
    { intros txt ->. apply Hnested; [now left | reflexivity]. }
    rewrite Hrun.
    destruct (IH st1) as (st2 & Hrest & Hf2).
    { intros txt d0 h0 Hin Hdepth. apply Hnested; [now right|].
      destruct Hf1 as (_ & _ & _ & Hd & _). cbn [fst snd] in *. congruence. }
    rewrite Hrest. eexists. split; [|exact (meta_frame_trans _ _ _ Hf1 Hf2)].
    f_equal. f_equal.
    assert (Ham : _ignoreAM (snd (fst st1)) = _ignoreAM d)
      by (destruct Hf1 as (_ & _ & H & _); exact H).
    rewrite Ham. cbn [existsb fst snd].
    destruct s.
    + destruct (payload_throws (_ignoreAM d) meta); [|reflexivity].
      destruct Hs as [_ Hs]. now specialize (Hs eq_refl).
    + destruct Hs as [Hs _]. now rewrite (Hs eq_refl).
Qed.

(** C5 (the code at the failing input): the record of the import holds a
    contract meta that does not decode and the bytecode of a deployer whose
    authoring meta is found. The deployer payload is processed first and
    the contract payload rejects. When the look-ups of the deployer have
    settled before the rejection is handled, the import is left with an
    empty sequence and one "corrupt meta" problem. When they settle after
    it, the import has the same problem, but its sequence holds the
    bytecode and the words of the deployer: the assignment lands in the
    sequence the handler has just reset. *)
Theorem classification_failure_keeps_late_payload (h : Heap) :
  ordered_maps Examples.corrupt_maps
  = [DeployerBytecodeMeta (Some "0x6080") (LookupFound Sample.words_a);
     ContractMetaV1 None]
  /\ (exists imp,
        classify_meta parse_nested Examples.corrupt_maps
          (Examples.corrupt_import, Examples.corrupt_document, h)
        = Some (imp, Examples.corrupt_document, h)
        /\ sequence imp = Some empty_sequence
        /\ imp_problems imp = [corrupt_meta (2, 67)%Z])
  /\ (exists imp,
        classify_meta_late Examples.corrupt_maps Examples.corrupt_import
          Examples.corrupt_document
        = Some (imp, Examples.corrupt_document)
        /\ sequence imp
           = Some (mkSequence (Some (mkDispair "0x6080" Sample.words_a)) None None)
        /\ imp_problems imp = [corrupt_meta (2, 67)%Z]).
Proof.
  split; [reflexivity|]. split; eexists; repeat split; reflexivity.
Qed.
End ClassifyProperties.

(** ** Working words *)

Lemma _validate_unfold (m : Namespace) (hash : option string) :
  _validate (NsInterior m) hash
  = match validate_words (obj_get "Words" m) hash with
    | None => None
    | Some (inl r) => Some r
    | Some (inr (c0, hash0)) => validate_loop m c0 hash0
    end.
Proof. reflexivity. Qed.

Lemma _get_unfold (m : Namespace) (path : string) (found : Found) :
  _get (NsInterior m) path found
  = match obj_get "Words" m with
    | Some w => (path, Some (item_words w, item_bytecode w))
    | None => get_loop path m found
    end.
Proof.
  simpl. destruct (obj_get "Words" m); [reflexivity|].
  revert found. induction m as [|[k v] m IH]; intros found; [reflexivity|].
  cbn [get_loop]. destruct (has_Element v); [apply IH|].
  destruct (_get v k found) as [_p found1].
  destruct (negb (is_empty_string _p)); [reflexivity | apply IH].
Qed.

Lemma word_sets_unfold (m : Namespace) :
  word_sets (NsInterior m)
  = match obj_get "Words" m with Some w => [w] | None => [] end ++ kids_sets m.
Proof. reflexivity. Qed.

Lemma kids_sets_cons k v (m : Namespace) :
  kids_sets ((k, v) :: m)
  = (if has_Element v then [] else word_sets v) ++ kids_sets m.
Proof. reflexivity. Qed.

Lemma toLowerCase_empty (s : string) :
  JS.toLowerCase s = EmptyString -> s = EmptyString.
Proof. destruct s; [reflexivity | discriminate]. Qed.

Lemma proper_hash (w : NsItem) :
  proper_words w = true ->
  exists hsh, item_Hash w = Some hsh /\ hsh <> EmptyString
              /\ opt_string_eqb (Some hsh) (Some EmptyString) = false.
Proof.
  destruct w as [n|m]; simpl; [|discriminate]. intros H.
  exists (Hash n). destruct (Hash n); [discriminate|].
  repeat split. discriminate.
Qed.

Lemma set_hash_not_empty (hsh : string) :
  hsh <> EmptyString -> opt_string_eqb (Some hsh) (Some EmptyString) = false.
Proof. destruct hsh; [congruence | reflexivity]. Qed.


Lemma Exists_nil_false {A : Type} (P : A -> Prop) : Exists P [] -> False.
Proof. intros H. inversion H. Qed.

Lemma validate_loop_ok (m : Namespace) :
  Forall (fun kv => validate_spec (snd kv)) m -> validate_loop_spec m.
Proof.
  induction m as [|[k v] m IHm]; intros Hkids.
  - repeat split.
    + intros hsh c _ _ _. exists c. repeat split; auto.
      intros H. now apply Exists_nil_false in H.
    + intros w rest H. discriminate.
  - inversion Hkids as [|? ? Hv Hrest]; subst. cbn [snd] in Hv.
    specialize (IHm Hrest). destruct IHm as (LZ & LG & LE).
    destruct Hv as (SZ & SG & SE).
    unfold validate_loop_spec. rewrite kids_sets_cons. cbn [validate_loop].
    destruct (has_Element v) eqn:Eleaf; [repeat split; assumption|].
    cbn [app]. split; [|split].
    + intros Hnil c hash. apply app_eq_nil in Hnil. destruct Hnil as [Hv Hm].
      rewrite (SZ Hv hash). rewrite Nat.add_0_r.
      destruct (1 <? c); [reflexivity | now apply LZ].
    + intros hsh c Hne Hc Hproper. apply Forall_app in Hproper.
      destruct Hproper as [Hpv Hpm].
      destruct (SG hsh Hne Hpv) as (c1 & Hrun & Hsame & Hdiff). rewrite Hrun.
      destruct (1 <? c + c1) eqn:Eearly.
      * apply Nat.ltb_lt in Eearly. exists (c + c1). split; [reflexivity|].
        split; [lia|]. split.
        -- intros Hall. apply Forall_app in Hall. destruct Hall as [Hall _].
           rewrite (Hsame Hall). lia.
        -- intros Hex. apply Exists_app in Hex. destruct Hex as [Hex|Hex].
           ++ specialize (Hdiff Hex). lia.
           ++ lia.
      * apply Nat.ltb_ge in Eearly.
        destruct (LG hsh (c + c1) Hne Eearly Hpm) as (c' & Hloop & Hle & Hs & Hd).
        exists c'. split; [exact Hloop|]. split; [lia|]. split.
        -- intros Hall. apply Forall_app in Hall. destruct Hall as [Hallv Hallm].
           rewrite (Hs Hallm), (Hsame Hallv). lia.
        -- intros Hex. apply Exists_app in Hex. destruct Hex as [Hex|Hex].
           ++ specialize (Hdiff Hex). lia.
           ++ specialize (Hd Hex). lia.
    + intros w rest Hsets Hproper. rewrite Hsets in Hproper.
      destruct (word_sets v) as [|w1 r1] eqn:Ev.
      * cbn [app] in Hsets. rewrite (SZ eq_refl). cbn [Nat.add Nat.ltb Nat.leb].
        apply LE; [exact Hsets | now rewrite Hsets].
      * cbn [app] in Hsets. injection Hsets as <- <-.
        assert (Hpv : Forall (fun w => proper_words w = true) (w1 :: r1)).
        { inversion Hproper as [|? ? Hw1 Hr]; subst. constructor; [exact Hw1|].
          apply Forall_app in Hr. tauto. }
        assert (Hpm : Forall (fun w => proper_words w = true) (kids_sets m)).
        { inversion Hproper as [|? ? Hw1 Hr]; subst. apply Forall_app in Hr. tauto. }
        destruct (SE w1 r1 eq_refl Hpv) as (c1 & hsh & Hh & Hrun & Hone & Hs & Hd).
        rewrite Hrun. cbn [Nat.add].
        assert (Hne : hsh <> EmptyString).
        { inversion Hpv as [|? ? Hw1 _]; subst.
          destruct (proper_hash _ Hw1) as (h1 & Hh1 & Hn1 & _). congruence. }
        destruct (1 <? c1) eqn:Eearly.
        -- apply Nat.ltb_lt in Eearly. exists c1, hsh.
           split; [exact Hh|]. split; [reflexivity|]. split; [lia|]. split.
           ++ intros Hall. apply Forall_app in Hall. destruct Hall as [Hall _].
              specialize (Hs Hall). lia.
           ++ intros _. lia.
        -- apply Nat.ltb_ge in Eearly.
           destruct (LG hsh c1 Hne Eearly Hpm) as (c' & Hloop & Hle & Hs' & Hd').
           exists c', hsh. split; [exact Hh|]. split; [exact Hloop|].
           split; [lia|]. split.
           ++ intros Hall. apply Forall_app in Hall. destruct Hall as [Hallv Hallm].
              rewrite (Hs' Hallm). now apply Hs.
           ++ intros Hex. apply Exists_app in Hex. destruct Hex as [Hex|Hex].
              ** specialize (Hd Hex). lia.
              ** specialize (Hd' Hex). lia.
Qed.

Lemma validate_node_ok (m : Namespace) :
  validate_loop_spec m -> validate_spec (NsInterior m).
Proof.
  intros (LZ & LG & LE). unfold validate_spec.
  rewrite word_sets_unfold. split; [|split].
  - intros Hnil hash. apply app_eq_nil in Hnil. destruct Hnil as [Hown Hkids].
    rewrite _validate_unfold.
    destruct (obj_get "Words" m); [discriminate|]. cbn. now apply LZ.
  - intros hsh Hne Hproper. rewrite _validate_unfold.
    destruct (obj_get "Words" m) as [w|] eqn:Eown; cbn [app] in *.
    + inversion Hproper as [|? ? Hw Hpm]; subst.
      destruct (proper_hash _ Hw) as (wh & Hwh & _ & _).
      unfold validate_words. rewrite (set_hash_not_empty _ Hne), Hwh.
      destruct (String.eqb (JS.toLowerCase wh) (JS.toLowerCase hsh)) eqn:Esame;
        cbn [negb].
      * destruct (LG hsh 0 Hne (Nat.le_0_1) Hpm) as (c' & Hloop & Hle & Hs & Hd).
        exists c'. split; [exact Hloop|]. split.
        -- intros Hall. inversion Hall; subst. now apply Hs.
        -- intros Hex. inversion Hex as [? ? Hhead|? ? Htail]; subst.
           ++ unfold hash_matches in Hhead. rewrite Hwh, Esame in Hhead. discriminate.
           ++ specialize (Hd Htail). lia.
      * exists 1. split; [reflexivity|]. split; [|intros _; lia].
        intros Hall. inversion Hall as [|? ? Hhead _]; subst.
        unfold hash_matches in Hhead. rewrite Hwh, Esame in Hhead. discriminate.
    + destruct (LG hsh 0 Hne (Nat.le_0_1) Hproper) as (c' & Hloop & Hle & Hs & Hd).
      exists c'. split; [exact Hloop|]. split; [exact Hs|].
      intros Hex. specialize (Hd Hex). lia.
  - intros w rest Hsets Hproper. rewrite _validate_unfold. rewrite Hsets in Hproper.
    destruct (obj_get "Words" m) as [w0|] eqn:Eown; cbn [app] in *.
    + injection Hsets as -> Hkids.
      inversion Hproper as [|? ? Hw Hpm]; subst.
      destruct (proper_hash _ Hw) as (wh & Hwh & Hne & _).
      cbn. rewrite Hwh.
      destruct (LG wh 1 Hne (Nat.le_refl 1) Hpm) as (c' & Hloop & Hle & Hs & Hd).
      exists c', wh. split; [reflexivity|]. split; [exact Hloop|].
      split; [exact Hle|]. split; [exact Hs|].
      intros Hex. specialize (Hd Hex). lia.
    + cbn. apply LE; [exact Hsets | now rewrite Hsets].
Qed.

Lemma validate_ok (x : NsItem) : validate_spec x.
Proof.
  induction x as [n|m IHm] using NsItem_tree_ind.
  - repeat split.
    + intros hsh _ _. exists 0. repeat split; auto.
      intros H. now apply Exists_nil_false in H.
    + intros w rest H. discriminate.
  - apply validate_node_ok. now apply validate_loop_ok.
Qed.

Lemma first_words_unfold (m : Namespace) :
  first_words (NsInterior m)
  = match obj_get "Words" m with
    | Some w => Some ([], w)
    | None => first_loop m
    end.
Proof.
  simpl. destruct (obj_get "Words" m); [reflexivity|].
  induction m as [|[k v] m IH]; [reflexivity|].
  cbn [first_loop]. destruct (first_words v) as [[p w]|]; [reflexivity | exact IH].
Qed.

Lemma dotted_from_filled (k : string) (p : list string) :
  is_empty_string k = false -> is_empty_string (dotted_from k p) = false.
Proof.
  intros Hk. destruct p as [|k' p]; [exact Hk|].
  cbn [dotted_from]. destruct k; [discriminate | reflexivity].
Qed.

(** The first set of words is the head of the sets of the walk, and its
    keys lead to it. *)
Lemma first_words_head (x : NsItem) :
  match word_sets x with
  | [] => first_words x = None
  | w :: _ => exists p, first_words x = Some (p, w) /\ leads_to p x w
  end.
Proof.
  induction x as [n|m IHm] using NsItem_tree_ind; [reflexivity|].
  rewrite first_words_unfold, word_sets_unfold.
  destruct (obj_get "Words" m) as [w|] eqn:Eown; cbn [app].
  - exists []. split; [reflexivity | now constructor].
  - assert (Hloop : match kids_sets m with
                    | [] => first_loop m = None
                    | w :: _ => exists p, first_loop m = Some (p, w)
                                          /\ exists k v p', p = k :: p' /\ In (k, v) m
                                                            /\ leads_to p' v w
                    end).
    { clear Eown. induction m as [|[k v] m IHl]; [reflexivity|].
      inversion IHm as [|? ? Hv Hrest]; subst. cbn [snd] in Hv.
      specialize (IHl Hrest). rewrite kids_sets_cons. cbn [first_loop].
      destruct v as [n|mv]; cbn [has_Element app].
      - destruct (kids_sets m) as [|w r]; [exact IHl|].
        destruct IHl as (p & Hp & k' & v' & p' & -> & Hin & Hl).
        exists (k' :: p'). split; [exact Hp|]. exists k', v', p'.
        repeat split; [now right | exact Hl].
      - destruct (word_sets (NsInterior mv)) as [|w r] eqn:Esets; cbn [app].
        + rewrite Hv. destruct (kids_sets m) as [|w r]; [exact IHl|].
          destruct IHl as (p & Hp & k' & v' & p' & -> & Hin & Hl).
          exists (k' :: p'). split; [exact Hp|]. exists k', v', p'.
          repeat split; [now right | exact Hl].
        + destruct Hv as (p & Hp & Hl). rewrite Hp.
          exists (k :: p). split; [reflexivity|]. exists k, (NsInterior mv), p.
          repeat split; [now left | exact Hl]. }
    destruct (kids_sets m) as [|w r]; [exact Hloop|].
    destruct Hloop as (p & Hp & k & v & p' & -> & Hin & Hl).
    exists (k :: p'). split; [exact Hp|]. econstructor; eassumption.
Qed.

(** What [_get] returns and assigns on a tree whose nested namespaces have
    non-empty keys: the path and the words of the first set of words, and
    nothing when there is none. *)
Lemma _get_first (x : NsItem) :
  named x = true ->
  forall path found,
    _get x path found
    = match first_words x with
      | Some (p, w) => (dotted_from path p, Some (item_words w, item_bytecode w))
      | None => (EmptyString, found)
      end.
Proof.
  induction x as [n|m IHm] using NsItem_tree_ind; intros Hnamed path found.
  - reflexivity.
  - rewrite _get_unfold, first_words_unfold.
    destruct (obj_get "Words" m) as [w|]; [reflexivity|].
    cbn [named] in Hnamed. revert found.
    induction m as [|[k v] m IHl]; intros found; [reflexivity|].
    inversion IHm as [|? ? Hv Hrest]; subst. cbn [snd fst forallb] in *.
    apply andb_prop in Hnamed. destruct Hnamed as [Hkv Hm].
    apply andb_prop in Hkv. destruct Hkv as [Hk Hnv].
    specialize (IHl Hrest Hm). cbn [get_loop first_loop].
    destruct v as [n|mv]; cbn [has_Element] in *; [apply IHl|].
    rewrite (Hv Hnv k found).
    destruct (first_words (NsInterior mv)) as [[p w]|].
    + cbn [orb] in Hk. apply negb_true_iff in Hk.
      rewrite (dotted_from_filled k p Hk). reflexivity.
    + cbn [is_empty_string negb]. apply IHl.
Qed.

Lemma word_set_proper (w : NsItem) : is_word_set w = true -> proper_words w = true.
Proof.
  destruct w as [n|m]; [|discriminate]. cbn.
  destruct (node_Element n); try discriminate. trivial.
Qed.

Lemma same_words_matches (w w' : NsItem) (hsh : string) :
  item_Hash w = Some hsh -> same_words w w' = hash_matches hsh w'.
Proof. intros H. unfold same_words, hash_matches. now rewrite H. Qed.

Section WorkingWords.
Context {RL : RainlangLib}.

(** C6 (amended): take a document whose namespace holds no entry named
    [Element] and no nested namespace under the empty key, the entries
    under [Words] met on the walk from its root being sets of words with a
    hash. With no set of words, [getWords] records "cannot find any set of
    words". When every set of words met carries the same hash up to case
    (in particular when there is exactly one), no problem is recorded and
    the first set met on the walk becomes the working set: its words, its
    bytecode, and its dotted path, made of the keys that lead from the root
    to the namespace that holds it. When a set of words carries another
    hash than the first one, it records "words must be singleton" with the
    count at which the walk stopped, at least 2. A document at a depth
    other than 0 does not select words at all. *)
Theorem getWords_selects_words (d : RainDocument) (h : Heap) :
  plain (NsInterior (namespace d)) = true ->
  named (NsInterior (namespace d)) = true ->
  Forall (fun w => is_word_set w = true) (word_sets (NsInterior (namespace d))) ->
  (word_sets (NsInterior (namespace d)) = [] ->
     getWords d = Normal (push_problem no_words_problem d))
  /\ (forall w rest,
        word_sets (NsInterior (namespace d)) = w :: rest ->
        Forall (fun w' => same_words w w' = true) rest ->
        exists p,
          first_words (NsInterior (namespace d)) = Some (p, w)
          /\ leads_to p (NsInterior (namespace d)) w
          /\ getWords d
             = Normal (set_words (item_words w) (dotted p) (item_bytecode w) d))
  /\ (forall w,
        word_sets (NsInterior (namespace d)) = [w] ->
        exists p,
          first_words (NsInterior (namespace d)) = Some (p, w)
          /\ leads_to p (NsInterior (namespace d)) w
          /\ getWords d
             = Normal (set_words (item_words w) (dotted p) (item_bytecode w) d))
  /\ (forall w rest,
        word_sets (NsInterior (namespace d)) = w :: rest ->
        Exists (fun w' => same_words w w' = false) rest ->
        exists n,
          2 <= n /\ getWords d = Normal (push_problem (singleton_problem n) d))
  /\ (importDepth d <> 0 -> parse_top_level d h = Normal (d, h)).
Proof.
  intros _ Hnamed Hsets0.
  assert (Hproper : Forall (fun w => proper_words w = true)
                      (word_sets (NsInterior (namespace d)))).
  { eapply Forall_impl; [|exact Hsets0]. intros w. apply word_set_proper. }
  destruct (validate_ok (NsInterior (namespace d))) as (SZ & _ & SE).
  assert (Hsame : forall w rest,
            word_sets (NsInterior (namespace d)) = w :: rest ->
            Forall (fun w' => same_words w w' = true) rest ->
            exists p,
              first_words (NsInterior (namespace d)) = Some (p, w)
              /\ leads_to p (NsInterior (namespace d)) w
              /\ getWords d
                 = Normal (set_words (item_words w) (dotted p) (item_bytecode w) d)).
  { intros w rest Hsets Hall.
    destruct (SE w rest Hsets Hproper) as (c & hsh & Hh & Hrun & _ & Hone & _).
    assert (Hc : c = 1).
    { apply Hone. eapply Forall_impl; [|exact Hall].
      intros w' Hw'. now rewrite <- (same_words_matches w w' hsh Hh). }
    subst c. unfold getWords. rewrite Hrun. cbn [Nat.ltb Nat.leb Nat.eqb].
    pose proof (first_words_head (NsInterior (namespace d))) as Hfirst.
    rewrite Hsets in Hfirst. destruct Hfirst as (p & Hp & Hleads).
    exists p. split; [exact Hp|]. split; [exact Hleads|].
    rewrite (_get_first _ Hnamed), Hp.
    destruct p as [|k p]; [reflexivity|].
    cbn [dotted_from dotted append is_empty_string]. reflexivity. }
  split; [|split; [exact Hsame|split; [|split]]].
  - intros Hnil. unfold getWords. rewrite (SZ Hnil). reflexivity.
  - intros w Hsets. exact (Hsame w [] Hsets (Forall_nil _)).
  - intros w rest Hsets Hex.
    destruct (SE w rest Hsets Hproper) as (c & hsh & Hh & Hrun & _ & _ & Htwo).
    assert (Hc : 2 <= c).
    { apply Htwo. eapply Exists_impl; [|exact Hex].
      intros w' Hw'. now rewrite <- (same_words_matches w w' hsh Hh). }
    exists c. split; [exact Hc|]. unfold getWords. rewrite Hrun.
    destruct (1 <? c) eqn:E; [reflexivity|]. apply Nat.ltb_ge in E. lia.
  - intros Hdepth. unfold parse_top_level.
    destruct (importDepth d =? 0) eqn:E; [|reflexivity].
    apply Nat.eqb_eq in E. contradiction.
Qed.
End WorkingWords.

(** ** Steps of a pass *)

Lemma keeps_refl d : keeps d d.
Proof. repeat split. exists []. now rewrite app_nil_r. Qed.

Lemma keeps_trans d1 d2 d3 : keeps d1 d2 -> keeps d2 d3 -> keeps d1 d3.
Proof.
  intros (A1 & A2 & A3 & A4 & [ps1 A5]) (B1 & B2 & B3 & B4 & [ps2 B5]).
  repeat split; try congruence.
  exists (ps1 ++ ps2). now rewrite B5, A5, app_assoc.
Qed.

Lemma keeps_push p d : keeps d (push_problem p d).
Proof. repeat split. now exists [p]. Qed.

Lemma keeps_fold {A : Type} (f : RainDocument -> A -> RainDocument) (l : list A) d :
  (forall d a, keeps d (f d a)) -> keeps d (fold_left f l d).
Proof.
  intros Hf. revert d. induction l as [|a l IH]; intros d; simpl.
  - apply keeps_refl.
  - eapply keeps_trans; [apply Hf | apply IH].
Qed.

Lemma keeps_In d d' p : keeps d d' -> In p (problems d) -> In p (problems d').
Proof.
  intros (_ & _ & _ & _ & [ps Hp]) Hin. rewrite Hp. apply in_or_app. now left.
Qed.

Lemma keeps_if (c : bool) p d0 d :
  keeps d0 d -> keeps d0 (if c then push_problem p d else d).
Proof.
  intros H. destruct c; [|exact H]. eapply keeps_trans; [exact H | apply keeps_push].
Qed.

Lemma keeps_set_bindings l d0 d : keeps d0 d -> keeps d0 (set_bindings l d).
Proof. intros H. exact H. Qed.

Lemma keeps_set_namespace ns d0 d : keeps d0 d -> keeps d0 (set_namespace ns d).
Proof. intros H. exact H. Qed.

(** ** The heap of bindings *)

Lemma heap_get_update r r' f (h : Heap) :
  heap_get (heap_update r f h) r'
  = if r' =? r then option_map f (heap_get h r') else heap_get h r'.
Proof.
  revert r r'. induction h as [|b h IH]; intros r r'.
  - unfold heap_get. replace (heap_update r f []) with (@nil Binding) by now destruct r.
    destruct (r' =? r); now destruct r'.
  - destruct r as [|r], r' as [|r']; simpl; try reflexivity.
    apply IH.
Qed.

Lemma heap_step_refl h : heap_step h h.
Proof. split; [auto|]. intros r b' Hget Hexp. now exists b'. Qed.

Lemma heap_step_trans h1 h2 h3 : heap_step h1 h2 -> heap_step h2 h3 -> heap_step h1 h3.
Proof.
  intros [A1 A2] [B1 B2]. split; [auto|].
  intros r b3 Hget Hexp. destruct (B2 r b3 Hget Hexp) as (b2 & Hget2 & Hexp2).
  exact (A2 r b2 Hget2 Hexp2).
Qed.

Lemma heap_step_update r f (h : Heap) :
  (forall b, binding_ok b -> binding_ok (f b)) ->
  (forall b, b_exp (f b) <> None -> b_exp b <> None) ->
  heap_step h (heap_update r f h).
Proof.
  intros Hok Hexp. split.
  - unfold heap_ok. revert r. induction h as [|b h IH]; intros r Hall.
    + destruct r; constructor.
    + inversion Hall; subst. destruct r; simpl; constructor; auto.
  - intros r' b' Hget He. rewrite heap_get_update in Hget.
    destruct (r' =? r); [|now exists b'].
    destruct (heap_get h r') as [b|]; [|discriminate].
    injection Hget as <-. exists b. split; [reflexivity | now apply Hexp].
Qed.


Lemma heap_step_push_problems r ps (h : Heap) :
  heap_step h (heap_update r (b_push_problems ps) h).
Proof. apply heap_step_update; intros b H; exact H. Qed.

Lemma heap_step_push_dependencies r ds (h : Heap) :
  heap_step h (heap_update r (b_push_dependencies ds) h).
Proof. apply heap_step_update; intros b H; exact H. Qed.




Section StepsOfAPass.
Context {HP : Helpers} {LT : LanguageTypes} {TD : TextDocumentLib}
        {MS : MetaStore} {TS : ToposortLib} {JN : JSNumbers} {RL : RainlangLib}.

Lemma parse_comments_depth d document :
  importDepth (fst (parse_comments d document)) = importDepth d
  /\ imports (fst (parse_comments d document)) = imports d
  /\ bindings (fst (parse_comments d document)) = bindings d
  /\ namespace (fst (parse_comments d document)) = namespace d.
Proof.
  unfold parse_comments. generalize (inclusiveParse document CommentRe) as l.
  intros l. revert d document. induction l as [|v l IH]; intros d document; simpl.
  - repeat split.
  - match goal with
    | |- context [fold_left _ l (?d1, ?doc1)] => destruct (IH d1 doc1) as (A & B & C & D)
    end.
    rewrite A, B, C, D. destruct (negb (endsWith "*/" (chunk_text v))); repeat split.
Qed.


Lemma add_binding_keeps st v : keeps (fst (fst st)) (fst (fst (add_binding st v))).
Proof.
  destruct st as [[d h] document]. unfold add_binding.
  destruct (binding_parts d v) as [[[[name np] content] cp] nc]. cbv zeta.
  destruct (negb (negb (is_binding_name name)) && _); unfold heap_alloc; cbn [fst snd];
    try apply keeps_set_bindings; try apply keeps_set_namespace;
    repeat apply keeps_if; apply keeps_refl.
Qed.


Lemma fold_add_binding_keeps l st :
  keeps (fst (fst st)) (fst (fst (fold_left add_binding l st))).
Proof.
  revert st. induction l as [|v l IH]; intros st; simpl; [apply keeps_refl|].
  eapply keeps_trans; [apply add_binding_keeps | apply IH].
Qed.


Lemma parse_bindings_keeps st : keeps (fst (fst st)) (fst (fst (parse_bindings st))).
Proof.
  unfold parse_bindings. destruct st as [[d h] document].
  apply (fold_add_binding_keeps _ (d, h, document)).
Qed.


Lemma check_top_level_imports_keeps d h : keeps d (check_top_level_imports d h).
Proof.
  unfold check_top_level_imports.
  destruct (bindings d) as [|r0 bs]; [apply keeps_refl|].
  destruct (heap_get h r0); [|apply keeps_refl].
  apply keeps_fold. intros d0 a. apply keeps_if, keeps_refl.
Qed.

Lemma check_remaining_keeps d document : keeps d (check_remaining d document).
Proof. unfold check_remaining. apply keeps_fold. intros d0 a. apply keeps_push. Qed.

Lemma collect_edges_heap bs h : heap_step h (snd (collect_edges bs h)).
Proof.
  revert h. induction bs as [|r bs IH]; intros h; simpl; [apply heap_step_refl|].
  destruct (heap_get h r) as [b|]; [|apply IH].
  match goal with
  | |- context [collect_edges bs ?h1] =>
      pose proof (IH h1) as Hrest; destruct (collect_edges bs h1) as [es h2]
  end.
  cbn [snd] in *. eapply heap_step_trans; [apply heap_step_push_dependencies | exact Hrest].
Qed.

Lemma collect_edges_nil h : collect_edges [] h = ([], h).
Proof. reflexivity. Qed.

Lemma mark_circular_heap bs ns h : heap_step h (mark_circular bs ns h).
Proof.
  unfold mark_circular. revert h. induction ns as [|n ns IH]; intros h; simpl;
    [apply heap_step_refl|].
  eapply heap_step_trans; [|apply IH].
  destruct (find_binding h bs n); [|apply heap_step_refl].
  apply heap_step_update; intros b0 H; exact H.
Qed.

Lemma resolve_loop_step fuel bs nodes edges d h d' h' :
  resolve_loop fuel bs nodes edges d h = Some (d', h') ->
  keeps d d' /\ bindings d' = bindings d /\ heap_step h h'.
Proof.
  revert nodes edges h. induction fuel as [|fuel IH]; intros nodes edges h; simpl.
  - destruct (is_nil nodes || is_nil edges); [discriminate|].
    intros H. injection H as <- <-.
    split; [apply keeps_refl | split; [reflexivity | apply heap_step_refl]].
  - destruct (is_nil nodes || is_nil edges).
    + destruct (toposort_array nodes edges) as [order|message|].
      * intros H. injection H as <- <-.
        split; [apply keeps_refl | split; [reflexivity | apply heap_step_refl]].
      * destruct (JS.includes "Cyclic dependency" message).
        -- destruct (negb (JS.includes " " _)).
           ++ destruct (nodes_to_delete _ _ _ _) as [ntd|]; [|discriminate].
              intros H. apply IH in H. destruct H as (H1 & H2 & H3).
              split; [exact H1 | split; [exact H2|]].
              eapply heap_step_trans; [apply mark_circular_heap | exact H3].
           ++ apply IH.
        -- intros H. injection H as <- <-.
           split; [apply keeps_push | split; [reflexivity | apply heap_step_refl]].
      * intros H. injection H as <- <-.
        split; [apply keeps_push | split; [reflexivity | apply heap_step_refl]].
    + intros H. injection H as <- <-.
      split; [apply keeps_refl | split; [reflexivity | apply heap_step_refl]].
Qed.

Lemma processDependencies_step fuel d h d' h' :
  processDependencies fuel d h = Some (d', h') ->
  keeps d d' /\ bindings d' = bindings d /\ heap_step h h'.
Proof.
  unfold processDependencies.
  pose proof (collect_edges_heap (filter (ref_is_expression h) (bindings d)) h) as Hc.
  destruct (collect_edges (filter (ref_is_expression h) (bindings d)) h) as [es h1].
  cbn [snd] in Hc. intros H. apply resolve_loop_step in H.
  destruct H as (H1 & H2 & H3).
  split; [exact H1 | split; [exact H2 | exact (heap_step_trans _ _ _ Hc H3)]].
Qed.

(** With a topological sort that answers on a graph without edges, the
    dependency loop ends within one turn. *)
Lemma resolve_loop_total fuel bs nodes edges d h :
  (forall ns, exists order, toposort_array ns [] = Sorted order) ->
  (nodes = [] -> edges = []) ->
  exists r, resolve_loop (S fuel) bs nodes edges d h = Some r.
Proof.
  intros Htopo Hne. destruct edges as [|e edges].
  - cbn [resolve_loop is_nil]. rewrite orb_true_r.
    destruct (Htopo nodes) as [order Ho]. unfold Edge in *. rewrite Ho. eauto.
  - destruct nodes as [|n nodes]; [now specialize (Hne eq_refl)|].
    cbn. eauto.
Qed.

Lemma processDependencies_total fuel d h :
  (forall ns, exists order, toposort_array ns [] = Sorted order) ->
  exists r, processDependencies (S fuel) d h = Some r.
Proof.
  intros Htopo. unfold processDependencies.
  set (bs := filter (ref_is_expression h) (bindings d)).
  destruct (collect_edges bs h) as [es h1] eqn:E.
  apply resolve_loop_total; [exact Htopo|].
  intros Hn. apply map_eq_nil in Hn. rewrite Hn in E. cbn in E. congruence.
Qed.


Lemma keeps_push_problems ps d : keeps d (push_problems ps d).
Proof. repeat split. now exists ps. Qed.

Lemma keeps_depth d d' : keeps d d' -> importDepth d' = importDepth d.
Proof. now intros (_ & H & _). Qed.

(** *** The imports of a pass *)

Section NestedParse.
Variable parse_nested : RainDocument -> Heap -> option (RainDocument * Heap).
Hypothesis nested_step :
  forall d0 h0 d1 h1,
    importDepth d0 <> 0 -> parse_nested d0 h0 = Some (d1, h1) -> heap_step h0 h1.







End NestedParse.

(** *** The merge of the imports *)






(** *** The expressions *)










(** *** A pass *)





(** *** The bound on the depth of the imports *)

Lemma classify_meta_total run mm imp d h :
  (forall txt d0 h0,
      importDepth d0 = importDepth d ->
      exists r, run (new_RainDocument txt (importDepth d0 + 1)) h0 = Some r) ->
  exists imp' d' h',
    classify_meta run mm (imp, d, h) = Some (imp', d', h')
    /\ importDepth d' = importDepth d.
Proof.
  intros Hrun. unfold classify_meta.
  destruct (processMeta_all_settles run (ordered_maps mm)
              (imp_set_sequence (Some empty_sequence) imp, d, h))
    as ([[imp1 d1] h1] & Hall & Hframe).
  { intros txt d0 h0 _ Hd0. now apply Hrun. }
  rewrite Hall. destruct Hframe as (_ & _ & _ & Hd & _). cbn [fst snd] in Hd.
  destruct (existsb _ _); do 3 eexists; (split; [reflexivity | exact Hd]).
Qed.

Lemma processImport_total run stmt d h :
  (forall txt d0 h0,
      importDepth d0 = importDepth d ->
      exists r, run (new_RainDocument txt (importDepth d0 + 1)) h0 = Some r) ->
  exists imp' d' h',
    processImport run stmt d h = Some (imp', d', h')
    /\ importDepth d' = importDepth d.
Proof.
  intros Hrun. unfold processImport.
  destruct (import_head stmt) as [[r0 requested] chunks].
  set (r1 := match chunks with Some cs => processImportConfigs r0 cs | None => r0 end).
  cbv zeta.
  destruct requested; [|do 3 eexists; split; reflexivity].
  destruct (getMeta (imp_hash r1)) as [rec|]; [|do 3 eexists; split; reflexivity].
  destruct (Meta_decode rec) as [mm|]; [|do 3 eexists; split; reflexivity].
  destruct (negb (isConsumableMeta mm)); [do 3 eexists; split; reflexivity|].
  destruct (classify_meta_total run mm r1 d h Hrun) as (imp' & d' & h' & Hc & Hd).
  rewrite Hc. do 3 eexists. split; [reflexivity | exact Hd].
Qed.

Lemma processImports_total run stmts d h :
  (forall txt d0 h0,
      importDepth d0 = importDepth d ->
      exists r, run (new_RainDocument txt (importDepth d0 + 1)) h0 = Some r) ->
  exists r, processImports run stmts d h = Some r.
Proof.
  revert d h. induction stmts as [|stmt stmts IH]; intros d h Hrun;
    cbn [processImports]; [eauto|].
  destruct (processImport_total run stmt d h Hrun) as (imp & d1 & h1 & H1 & Hd1).
  rewrite H1. destruct (IH d1 h1) as [[[imps d2] h2] H2].
  { intros txt d0 h0 Hd0. apply Hrun. congruence. }
  rewrite H2. eauto.
Qed.

Lemma parse_flags_frame d :
  importDepth (parse_flags d) = importDepth d
  /\ imports (parse_flags d) = imports d
  /\ text (parse_flags d) = text d
  /\ comments (parse_flags d) = comments d
  /\ problems (parse_flags d) = problems d.
Proof. repeat split. Qed.

(** A pass returns when the dependency loop can sort a graph without edges
    and the passes over the nested documents return. *)
Lemma _parse_body_total run fuel d h :
  (forall ns, exists order, toposort_array ns [] = Sorted order) ->
  (importDepth d < 32 ->
   forall txt h0, exists r, run (new_RainDocument txt (importDepth d + 1)) h0 = Some r) ->
  exists out, _parse_body run (S fuel) d h = Some out.
Proof.
  intros Htopo Hrun. unfold _parse_body.
  pose proof (parse_comments_depth (reset d) (text (reset d))) as (Hd2 & _).
  destruct (parse_comments (reset d) (text (reset d))) as [d2 document2].
  cbn [fst] in Hd2.
  destruct (import_statements document2) as [stmts document3].
  assert (H4 : exists r, parse_imports run stmts (parse_flags d2) h = Some r).
  { unfold parse_imports. destruct (importDepth (parse_flags d2) <? 32) eqn:E; [|eauto].
    apply Nat.ltb_lt in E.
    destruct (processImports_total run stmts (parse_flags d2) h) as [[[imps d1] h1] H1].
    { intros txt d0 h0 Hd0. rewrite Hd0.
      change (importDepth (parse_flags d2)) with (importDepth d2) in *.
      rewrite Hd2 in *. apply Hrun. exact E. }
    rewrite H1. eauto. }
  destruct H4 as [[d4 h4] H4]. rewrite H4.
  destruct (merge_imports (indexed (imports d4)) (d4, h4)) as [[d5 h5]|e st]; [|eauto].
  destruct (parse_bindings (d5, h5, document3)) as [[d6 h6] document6].
  destruct (processDependencies_total fuel
              (check_remaining (check_top_level_imports d6 h6) document6) h6 Htopo)
    as [[d9 h9] H9].
  rewrite H9. destruct (parse_top_level d9 h9) as [[d10 h10]|e st]; eauto.
Qed.

Lemma parse_with_total run d h :
  (exists out, run d h = Some out) -> exists r, parse_with run d h = Some r.
Proof.
  intros [out H]. unfold parse_with.
  destruct (JS.some _ (text d)); [|eauto].
  rewrite H. destruct out as [st|e [d1 h1]]; eauto.
Qed.

Lemma _parse_total fuel :
  (forall ns, exists order, toposort_array ns [] = Sorted order) ->
  forall d h,
    0 < fuel -> 32 < importDepth d + fuel ->
    exists out, _parse fuel d h = Some out.
Proof.
  intros Htopo. induction fuel as [|fuel IH]; intros d h Hpos Hfuel; [lia|].
  change (_parse (S fuel) d h)
    with (_parse_body (parse_with (_parse fuel)) (S fuel) d h).
  apply _parse_body_total; [exact Htopo|].
  intros Hd txt h0. apply parse_with_total. apply IH; cbn; lia.
Qed.

Lemma In_fold_push {A : Type} (f : A -> Problem) (l : list A) (a : A) d :
  In a l -> In (f a) (problems (fold_left (fun d x => push_problem (f x) d) l d)).
Proof.
  revert d. induction l as [|x l IH]; intros d; [intros []|].
  intros [->|Hin]; cbn [fold_left].
  - eapply keeps_In; [apply keeps_fold; intros d0 y; apply keeps_push|].
    cbn. apply in_or_app. right. now left.
  - now apply IH.
Qed.

Lemma keeps_imports d d' : keeps d d' -> imports d' = imports d.
Proof. now intros (_ & _ & H & _). Qed.

(** At depth 32 or more a pass does not look at the nested parse: the
    imports are reported as too deep, each over the span of its statement,
    and none is recorded. *)
Lemma _parse_body_deep fuel d h :
  (forall ns, exists order, toposort_array ns [] = Sorted order) ->
  32 <= importDepth d ->
  exists d' h',
    (forall run, _parse_body run (S fuel) d h = Some (Normal (d', h')))
    /\ imports d' = []
    /\ forall stmt,
         In stmt (document_import_statements d) ->
         In (deep_import ((fst (chunk_pos stmt) - 1)%Z, snd (chunk_pos stmt)))
           (problems d')
         \/ suppressed d'
              (deep_import ((fst (chunk_pos stmt) - 1)%Z, snd (chunk_pos stmt)))
            = true.
Proof.
  intros Htopo Hdeep. unfold document_import_statements.
  change (text d) with (text (reset d)).
  pose proof (parse_comments_depth (reset d) (text (reset d))) as (Hd2 & Hi2 & _).
  destruct (parse_comments (reset d) (text (reset d))) as [d2 document2] eqn:E1.
  cbn [fst snd] in *.
  change (importDepth (reset d)) with (importDepth d) in Hd2.
  change (imports (reset d)) with (@nil (Import RainDocument)) in Hi2.
  destruct (import_statements document2) as [stmts document3] eqn:E2.
  cbn [fst].
  set (d4 := fold_left
               (fun d imp =>
                  push_problem
                    (deep_import ((fst (chunk_pos imp) - 1)%Z, snd (chunk_pos imp))) d)
               stmts (parse_flags d2)).
  assert (K4 : keeps (parse_flags d2) d4).
  { apply keeps_fold. intros d0 a. apply keeps_push. }
  assert (I4 : imports d4 = []).
  { rewrite (keeps_imports _ _ K4). exact Hi2. }
  assert (D4 : importDepth d4 = importDepth d).
  { rewrite (keeps_depth _ _ K4). exact Hd2. }
  pose proof (parse_bindings_keeps (d4, h, document3)) as K6.
  destruct (parse_bindings (d4, h, document3)) as [[d6 h6] document6] eqn:E3.
  cbn [fst snd] in K6.
  pose proof (check_top_level_imports_keeps d6 h6) as K7.
  pose proof (check_remaining_keeps (check_top_level_imports d6 h6) document6) as K8.
  destruct (processDependencies_total fuel
              (check_remaining (check_top_level_imports d6 h6) document6) h6 Htopo)
    as [[d9 h9] E4].
  pose proof E4 as S9. apply processDependencies_step in S9. destruct S9 as (K9 & _ & _).
  assert (K : keeps d4 d9).
  { exact (keeps_trans _ _ _ K6 (keeps_trans _ _ _ K7 (keeps_trans _ _ _ K8 K9))). }
  exists (ignore_next_line d9), h9. split; [|split].
  - intros run. unfold _parse_body. cbv zeta. rewrite E1. cbv beta iota.
    rewrite E2. cbv beta iota. unfold parse_imports.
    replace (importDepth (parse_flags d2) <? 32) with false
      by (symmetry; apply Nat.ltb_ge; change (32 <= importDepth d2); lia).
    fold d4. rewrite I4. cbn [indexed indexed_from merge_imports].
    rewrite E3. cbv beta iota. rewrite E4. unfold parse_top_level.
    replace (importDepth d9 =? 0) with false
      by (symmetry; apply Nat.eqb_neq; rewrite (keeps_depth _ _ K), D4; lia).
    reflexivity.
  - rewrite ignore_next_line_filter. cbn [imports set_problems].
    rewrite (keeps_imports _ _ K). exact I4.
  - intros stmt Hin.
    assert (Hp : In (deep_import ((fst (chunk_pos stmt) - 1)%Z, snd (chunk_pos stmt)))
                   (problems d9)).
    { eapply keeps_In; [exact K|].
      apply (In_fold_push
               (fun imp => deep_import ((fst (chunk_pos imp) - 1)%Z, snd (chunk_pos imp)))
               stmts stmt (parse_flags d2) Hin). }
    rewrite ignore_next_line_filter.
    change (suppressed (set_problems _ d9) ?p) with (suppressed d9 p).
    cbn [problems set_problems].
    destruct (suppressed d9
                (deep_import ((fst (chunk_pos stmt) - 1)%Z, snd (chunk_pos stmt))))
      eqn:Es; [now right|].
    left. apply filter_In. split; [exact Hp|]. now rewrite Es.
Qed.

(** C4 (amended): the recursion into imported documents is bounded by depth 32: with
    fuel that covers the levels left down to depth 32 a parse returns
    (given a topological sort that answers on a graph without edges); and
    a document at depth 32 or more is parsed without the parse of nested
    documents being consulted at all: whatever that parse is, the pass ends
    normally in the same state, no import is recorded, and for each import
    statement the problem "import too deep" over the span of the statement,
    from its [@] to its end, is among the problems of that document unless
    an ignore-next-line comment suppresses it. *)
Theorem import_depth_bounded fuel d h :
  (forall ns, exists order, toposort_array ns [] = Sorted order) ->
  0 < fuel ->
  32 < importDepth d + fuel ->
  (exists r, parse fuel d h = Some r)
  /\ (32 <= importDepth d ->
      exists d' h',
        (forall run, _parse_body run fuel d h = Some (Normal (d', h')))
        /\ _parse fuel d h = Some (Normal (d', h'))
        /\ imports d' = []
        /\ forall stmt,
             In stmt (document_import_statements d) ->
             In (deep_import ((fst (chunk_pos stmt) - 1)%Z, snd (chunk_pos stmt)))
               (problems d')
             \/ suppressed d'
                  (deep_import ((fst (chunk_pos stmt) - 1)%Z, snd (chunk_pos stmt)))
                = true).
Proof.
  intros Htopo Hpos Hfuel. split.
  - apply parse_with_total. now apply _parse_total.
  - intros Hdeep. destruct fuel as [|fuel]; [lia|].
    destruct (_parse_body_deep fuel d h Htopo Hdeep) as (d' & h' & Hrun & Himp & Hp).
    exists d', h'. split; [exact Hrun|]. split; [|split; [exact Himp | exact Hp]].
    apply Hrun.
Qed.

End StepsOfAPass.

(** * Further properties of the resolution steps *)

(** ** Context aliases *)

Lemma fold_left_opt_inv {A B : Type} (P : A -> Prop) (f : A -> B -> option A)
    (l : list B) (a r : A) :
  (forall a0 x a1, P a0 -> f a0 x = Some a1 -> P a1) ->
  P a -> fold_left_opt f l a = Some r -> P r.
Proof.
  intros Hf. revert a. induction l as [|x l IH]; intros a Ha; cbn [fold_left_opt].
  - intros H. now inversion H; subst.
  - destruct (f a x) as [a1|] eqn:E; [|discriminate].
    apply IH. eapply Hf; eauto.
Qed.

(** What a fold that may throw leaves for each element it went over, when
    what a step establishes is kept by the later steps. *)
Lemma fold_left_opt_each {A B : Type} (R : B -> A -> Prop)
    (f : A -> B -> option A) (l : list B) (a r : A) :
  (forall a0 x a1, f a0 x = Some a1 -> R x a1) ->
  (forall a0 x a1 y, f a0 x = Some a1 -> R y a0 -> R y a1) ->
  fold_left_opt f l a = Some r ->
  forall x, In x l -> R x r.
Proof.
  intros Hnew Hkeep. revert a. induction l as [|x0 l IH]; intros a Hrun x Hin;
    [destruct Hin|].
  cbn [fold_left_opt] in Hrun.
  destruct (f a x0) as [a1|] eqn:E; [|discriminate].
  destruct Hin as [->|Hin]; [|eapply IH; eauto].
  clear IH. pose proof (Hnew _ _ _ E) as Hx. clear E.
  revert a1 Hrun Hx. induction l as [|x1 l IH]; intros a1 Hrun Hx;
    cbn [fold_left_opt] in Hrun.
  - now inversion Hrun; subst.
  - destruct (f a1 x1) as [a2|] eqn:E; [|discriminate].
    eapply IH; [exact Hrun|]. eapply Hkeep; eauto.
Qed.

Lemma alias_named_absent n (acc : list ContextAlias) :
  existsb (alias_named n) acc = false -> ~ In n (map ca_name acc).
Proof.
  intros H Hin. apply in_map_iff in Hin. destruct Hin as (e & He & Hin).
  assert (Ht : existsb (alias_named n) acc = true).
  { apply existsb_exists. exists e. split; [exact Hin|].
    unfold alias_named. rewrite He. apply String.eqb_refl. }
  congruence.
Qed.

Lemma NoDup_snoc {A : Type} (l : list A) (x : A) :
  NoDup l -> ~ In x l -> NoDup (l ++ [x]).
Proof.
  intros Hl Hx. induction Hl as [|y l Hy Hl IH]; simpl.
  - constructor; [intros []|constructor].
  - constructor.
    + intros Hin. apply in_app_or in Hin. destruct Hin as [Hin|[->|[]]].
      * contradiction.
      * apply Hx. now left.
    + apply IH. intros Hin. apply Hx. now right.
Qed.

Lemma add_cell_unique ctxCol acc ctxCell acc' :
  NoDup (map ca_name acc) -> add_cell ctxCol acc ctxCell = Some acc' ->
  NoDup (map ca_name acc').
Proof.
  intros Hnd. unfold add_cell.
  destruct (existsb _ acc); [discriminate|].
  destruct (existsb (alias_named (cell_alias ctxCell)) acc) eqn:E;
    intros H; inversion H; subst; [exact Hnd|].
  rewrite map_app. cbn [map ca_name]. apply NoDup_snoc; [exact Hnd|].
  now apply alias_named_absent.
Qed.

Lemma add_column_unique acc ctxCol acc' :
  NoDup (map ca_name acc) -> add_column acc ctxCol = Some acc' ->
  NoDup (map ca_name acc').
Proof.
  intros Hnd. unfold add_column.
  destruct (existsb _ acc); [discriminate|]. cbv zeta.
  assert (H1 : NoDup (map ca_name
                        (if existsb (alias_named (col_alias ctxCol)) acc then acc
                         else acc ++ [mkContextAlias (col_alias ctxCol)
                                        (columnIndex ctxCol) None
                                        (or_empty (col_desc ctxCol))]))).
  { destruct (existsb (alias_named (col_alias ctxCol)) acc) eqn:E; [exact Hnd|].
    rewrite map_app. cbn [map ca_name]. apply NoDup_snoc; [exact Hnd|].
    now apply alias_named_absent. }
  destruct (cells ctxCol) as [cs|].
  - apply (fold_left_opt_inv (fun a => NoDup (map ca_name a))); [|exact H1].
    intros a0 x a1 Ha0. now apply add_cell_unique.
  - intros H. now inversion H; subst.
Qed.

Lemma toContextAlias_unique (contractMeta : ContractMeta)
    (aliases : list ContextAlias) :
  toContextAlias contractMeta = Some aliases ->
  NoDup (map ca_name aliases).
Proof.
  unfold toContextAlias.
  apply (fold_left_opt_inv (fun acc => NoDup (map ca_name acc))); [|constructor].
  intros a0 method a1 Ha0. unfold add_method.
  apply (fold_left_opt_inv (fun acc => NoDup (map ca_name acc))); [|exact Ha0].
  clear. intros a0 exp a1 Ha0. unfold add_expression.
  destruct (contextColumns exp) as [cols|].
  - apply (fold_left_opt_inv (fun acc => NoDup (map ca_name acc))); [|exact Ha0].
    clear. intros a0 col a1 Ha0. now apply add_column_unique.
  - intros H. now inversion H; subst.
Qed.

Lemma has_alias_app l l' n c r : has_alias l n c r -> has_alias (l ++ l') n c r.
Proof.
  intros (e & Hin & H). exists e. split; [|exact H]. apply in_or_app. now left.
Qed.

Lemma add_cell_keeps ctxCol acc ctxCell acc' n c r :
  add_cell ctxCol acc ctxCell = Some acc' -> has_alias acc n c r -> has_alias acc' n c r.
Proof.
  unfold add_cell. destruct (existsb _ acc); [discriminate|].
  destruct (existsb (alias_named (cell_alias ctxCell)) acc);
    intros H; inversion H; subst; [auto|apply has_alias_app].
Qed.

Lemma add_cell_records ctxCol acc ctxCell acc' :
  add_cell ctxCol acc ctxCell = Some acc' ->
  has_alias acc' (cell_alias ctxCell) (columnIndex ctxCol) (Some (cellIndex ctxCell)).
Proof.
  unfold add_cell.
  destruct (existsb (fun e => alias_named (cell_alias ctxCell) e &&
                      (negb (ca_column e =? columnIndex ctxCol)%Z
                       || row_differs e (cellIndex ctxCell))) acc) eqn:Ebad;
    [discriminate|].
  destruct (existsb (alias_named (cell_alias ctxCell)) acc) eqn:Ehas;
    intros H; inversion H; subst.
  - apply existsb_exists in Ehas. destruct Ehas as (e & Hin & Hname).
    assert (Hok : alias_named (cell_alias ctxCell) e &&
                  (negb (ca_column e =? columnIndex ctxCol)%Z
                   || row_differs e (cellIndex ctxCell)) = false).
    { destruct (alias_named (cell_alias ctxCell) e &&
                (negb (ca_column e =? columnIndex ctxCol)%Z
                 || row_differs e (cellIndex ctxCell))) eqn:E; [|reflexivity].
      rewrite <- Ebad. symmetry. apply existsb_exists. now exists e. }
    rewrite Hname in Hok. cbn [andb] in Hok.
    apply orb_false_iff in Hok. destruct Hok as [Hcol Hrow].
    exists e. split; [exact Hin|]. split; [now apply String.eqb_eq|].
    split; [apply Z.eqb_eq; now destruct (ca_column e =? columnIndex ctxCol)%Z|].
    unfold row_differs in Hrow. destruct (ca_row e) as [r0|]; [|discriminate].
    f_equal. apply Z.eqb_eq. now destruct (r0 =? cellIndex ctxCell)%Z.
  - eexists. split; [apply in_or_app; right; left; reflexivity|]. now repeat split.
Qed.

Lemma add_column_keeps acc ctxCol acc' n c r :
  add_column acc ctxCol = Some acc' -> has_alias acc n c r -> has_alias acc' n c r.
Proof.
  unfold add_column. destruct (existsb _ acc); [discriminate|]. cbv zeta.
  intros Hrun Hacc.
  assert (H1 : has_alias
                 (if existsb (alias_named (col_alias ctxCol)) acc then acc
                  else acc ++ [mkContextAlias (col_alias ctxCol) (columnIndex ctxCol)
                                 None (or_empty (col_desc ctxCol))]) n c r).
  { destruct (existsb (alias_named (col_alias ctxCol)) acc);
      [exact Hacc | now apply has_alias_app]. }
  destruct (cells ctxCol) as [cs|].
  - revert Hrun. apply (fold_left_opt_inv (fun a => has_alias a n c r)); [|exact H1].
    intros a0 x a1 Ha0 Hx. eapply add_cell_keeps; eauto.
  - now inversion Hrun; subst.
Qed.

Lemma add_column_records acc ctxCol acc' :
  add_column acc ctxCol = Some acc' ->
  has_alias acc' (col_alias ctxCol) (columnIndex ctxCol) None
  /\ forall cs ctxCell,
       cells ctxCol = Some cs -> In ctxCell cs ->
       has_alias acc' (cell_alias ctxCell) (columnIndex ctxCol)
         (Some (cellIndex ctxCell)).
Proof.
  unfold add_column.
  destruct (existsb (fun e => alias_named (col_alias ctxCol) e &&
                      (negb (ca_column e =? columnIndex ctxCol)%Z || row_is_number e))
              acc) eqn:Ebad; [discriminate|].
  cbv zeta.
  assert (H1 : has_alias
                 (if existsb (alias_named (col_alias ctxCol)) acc then acc
                  else acc ++ [mkContextAlias (col_alias ctxCol) (columnIndex ctxCol)
                                 None (or_empty (col_desc ctxCol))])
                 (col_alias ctxCol) (columnIndex ctxCol) None).
  { destruct (existsb (alias_named (col_alias ctxCol)) acc) eqn:Ehas.
    - apply existsb_exists in Ehas. destruct Ehas as (e & Hin & Hname).
      assert (Hok : alias_named (col_alias ctxCol) e &&
                    (negb (ca_column e =? columnIndex ctxCol)%Z || row_is_number e)
                    = false).
      { destruct (alias_named (col_alias ctxCol) e &&
                  (negb (ca_column e =? columnIndex ctxCol)%Z || row_is_number e))
          eqn:E; [|reflexivity].
        rewrite <- Ebad. symmetry. apply existsb_exists. now exists e. }
      rewrite Hname in Hok. cbn [andb] in Hok.
      apply orb_false_iff in Hok. destruct Hok as [Hcol Hrow].
      exists e. split; [exact Hin|]. split; [now apply String.eqb_eq|].
      split; [apply Z.eqb_eq; now destruct (ca_column e =? columnIndex ctxCol)%Z|].
      unfold row_is_number in Hrow. now destruct (ca_row e).
    - eexists. split; [apply in_or_app; right; left; reflexivity|]. now repeat split. }
  destruct (cells ctxCol) as [cs|]; intros Hrun.
  - split.
    + revert Hrun.
      apply (fold_left_opt_inv
               (fun a => has_alias a (col_alias ctxCol) (columnIndex ctxCol) None));
        [|exact H1].
      intros a0 x a1 Ha0 Hx. eapply add_cell_keeps; eauto.
    + intros cs0 ctxCell Hcs Hin. inversion Hcs; subst cs0.
      refine (fold_left_opt_each
                (fun cell a => has_alias a (cell_alias cell) (columnIndex ctxCol)
                                 (Some (cellIndex cell)))
                (add_cell ctxCol) cs _ acc' _ _ Hrun ctxCell Hin).
      * intros a0 x a1. apply add_cell_records.
      * intros a0 x a1 y Hx. eapply add_cell_keeps; eauto.
  - inversion Hrun; subst. split; [exact H1|]. intros cs ctxCell Hcs. discriminate.
Qed.

Lemma add_expression_keeps acc exp acc' n c r :
  add_expression acc exp = Some acc' -> has_alias acc n c r -> has_alias acc' n c r.
Proof.
  unfold add_expression. destruct (contextColumns exp) as [cols|]; intros Hrun Hacc.
  - revert Hrun. apply (fold_left_opt_inv (fun a => has_alias a n c r)); [|exact Hacc].
    intros a0 x a1 Ha0 Hx. eapply add_column_keeps; eauto.
  - now inversion Hrun; subst.
Qed.

Lemma add_method_keeps acc method acc' n c r :
  add_method acc method = Some acc' -> has_alias acc n c r -> has_alias acc' n c r.
Proof.
  unfold add_method. intros Hrun Hacc. revert Hrun.
  apply (fold_left_opt_inv (fun a => has_alias a n c r)); [|exact Hacc].
  intros a0 x a1 Ha0 Hx. eapply add_expression_keeps; eauto.
Qed.

Lemma toContextAlias_records_each (contractMeta : ContractMeta)
    (aliases : list ContextAlias) :
  toContextAlias contractMeta = Some aliases ->
  forall method exp cols ctxCol,
    In method (methods contractMeta) ->
    In exp (expressions method) ->
    contextColumns exp = Some cols ->
    In ctxCol cols ->
    has_alias aliases (col_alias ctxCol) (columnIndex ctxCol) None
    /\ forall cs ctxCell,
         cells ctxCol = Some cs -> In ctxCell cs ->
         has_alias aliases (cell_alias ctxCell) (columnIndex ctxCol)
           (Some (cellIndex ctxCell)).
Proof.
  intros Hrun method exp cols ctxCol Hm He Hcols Hc.
  unfold toContextAlias in Hrun.
  apply (fold_left_opt_each
           (fun m a => forall exp cols col,
                In exp (expressions m) -> contextColumns exp = Some cols ->
                In col cols ->
                has_alias a (col_alias col) (columnIndex col) None
                /\ forall cs ctxCell,
                     cells col = Some cs -> In ctxCell cs ->
                     has_alias a (cell_alias ctxCell) (columnIndex col)
                       (Some (cellIndex ctxCell)))
           add_method (methods contractMeta) [] aliases)
    with (x := method) (exp := exp) (cols := cols); try assumption.
  - clear. intros a0 m a1 Hrun exp cols col He Hcols Hc. unfold add_method in Hrun.
    apply (fold_left_opt_each
             (fun e a => forall cols col,
                  contextColumns e = Some cols -> In col cols ->
                  has_alias a (col_alias col) (columnIndex col) None
                  /\ forall cs ctxCell,
                       cells col = Some cs -> In ctxCell cs ->
                       has_alias a (cell_alias ctxCell) (columnIndex col)
                         (Some (cellIndex ctxCell)))
             add_expression (expressions m) a0 a1)
      with (x := exp) (cols := cols); try assumption.
    + clear. intros a0 e a1 Hrun cols col Hcols Hc. unfold add_expression in Hrun.
      rewrite Hcols in Hrun.
      apply (fold_left_opt_each
               (fun col a =>
                  has_alias a (col_alias col) (columnIndex col) None
                  /\ forall cs ctxCell,
                       cells col = Some cs -> In ctxCell cs ->
                       has_alias a (cell_alias ctxCell) (columnIndex col)
                         (Some (cellIndex ctxCell)))
               add_column cols a0 a1); try assumption.
      * intros b0 x b1. apply add_column_records.
      * intros b0 x b1 y Hx [H1 H2]. split; [eapply add_column_keeps; eauto|].
        intros cs ctxCell Hcs Hin. eapply add_column_keeps; eauto.
    + clear. intros a0 e a1 y Hrun Hy cols col Hcols Hc.
      destruct (Hy cols col Hcols Hc) as [H1 H2].
      split; [eapply add_expression_keeps; eauto|].
      intros cs ctxCell Hcs Hin. eapply add_expression_keeps; eauto.
  - clear. intros a0 m a1 y Hrun Hy exp cols col He Hcols Hc.
    destruct (Hy exp cols col He Hcols Hc) as [H1 H2].
    split; [eapply add_method_keeps; eauto|].
    intros cs ctxCell Hcs Hin. eapply add_method_keeps; eauto.
Qed.

Lemma toContextAlias_records (contractMeta : ContractMeta)
    (aliases : list ContextAlias) (name : string) (column : Z) (row : option Z) :
  toContextAlias contractMeta = Some aliases ->
  declares contractMeta name column row ->
  has_alias aliases name column row.
Proof.
  intros Hrun (method & exp & cols & ctxCol & Hm & He & Hcols & Hc & -> & Hd).
  destruct (toContextAlias_records_each _ _ Hrun method exp cols ctxCol Hm He Hcols Hc)
    as [H1 H2].
  destruct Hd as [[-> ->]|(cs & ctxCell & Hcs & Hin & -> & ->)];
    [exact H1 | eapply H2; eauto].
Qed.

Lemma NoDup_map_eq {A B : Type} (f : A -> B) (l : list A) (x y : A) :
  NoDup (map f l) -> In x l -> In y l -> f x = f y -> x = y.
Proof.
  induction l as [|a l IH]; intros Hnd Hx Hy Hf; [destruct Hx|].
  cbn [map] in Hnd. inversion Hnd as [|? ? Hnotin Hrest]; subst.
  destruct Hx as [->|Hx], Hy as [->|Hy].
  - reflexivity.
  - exfalso. apply Hnotin. rewrite Hf. now apply in_map.
  - exfalso. apply Hnotin. rewrite <- Hf. now apply in_map.
  - now apply IH.
Qed.

(** The steps only add what is declared. *)
Lemma fold_left_opt_inv_in {A B : Type} (P : A -> Prop) (f : A -> B -> option A)
    (l : list B) (a r : A) :
  (forall a0 x a1, In x l -> P a0 -> f a0 x = Some a1 -> P a1) ->
  P a -> fold_left_opt f l a = Some r -> P r.
Proof.
  revert a. induction l as [|x l IH]; intros a Hf Ha; cbn [fold_left_opt].
  - intros H. now inversion H; subst.
  - destruct (f a x) as [a1|] eqn:E; [|discriminate].
    apply IH.
    + intros a0 y a2 Hy. apply Hf. now right.
    + eapply Hf; eauto. now left.
Qed.

Lemma Forall_snoc {A : Type} (P : A -> Prop) (l : list A) (x : A) :
  Forall P l -> P x -> Forall P (l ++ [x]).
Proof. intros Hl Hx. apply Forall_app. split; [exact Hl | now constructor]. Qed.

Lemma toContextAlias_declared (contractMeta : ContractMeta)
    (aliases : list ContextAlias) :
  toContextAlias contractMeta = Some aliases ->
  Forall (fun e => declares contractMeta (ca_name e) (ca_column e) (ca_row e)) aliases.
Proof.
  set (P := fun acc : list ContextAlias =>
              Forall (fun e => declares contractMeta (ca_name e) (ca_column e)
                                 (ca_row e)) acc).
  unfold toContextAlias.
  apply (fold_left_opt_inv_in P); [|constructor].
  intros a0 method a1 Hm Ha0. unfold add_method.
  apply (fold_left_opt_inv_in P); [|exact Ha0]. clear a0 a1 Ha0.
  intros a0 exp a1 He Ha0. unfold add_expression.
  destruct (contextColumns exp) as [cols|] eqn:Hcols;
    [|intros H; now inversion H; subst].
  apply (fold_left_opt_inv_in P); [|exact Ha0]. clear a0 a1 Ha0.
  intros a0 ctxCol a1 Hc Ha0. unfold add_column.
  destruct (existsb _ a0); [discriminate|]. cbv zeta.
  assert (H1 : P (if existsb (alias_named (col_alias ctxCol)) a0 then a0
                  else a0 ++ [mkContextAlias (col_alias ctxCol) (columnIndex ctxCol)
                                None (or_empty (col_desc ctxCol))])).
  { destruct (existsb (alias_named (col_alias ctxCol)) a0); [exact Ha0|].
    apply Forall_snoc; [exact Ha0|]. cbn.
    exists method, exp, cols, ctxCol. repeat split; try assumption. now left. }
  destruct (cells ctxCol) as [cs|] eqn:Hcs; [|intros H; now inversion H; subst].
  apply (fold_left_opt_inv_in P); [|exact H1]. clear a0 a1 Ha0 H1.
  intros a0 ctxCell a1 Hcell Ha0. unfold add_cell.
  destruct (existsb _ a0); [discriminate|].
  destruct (existsb (alias_named (cell_alias ctxCell)) a0);
    intros H; inversion H; subst; [exact Ha0|].
  apply Forall_snoc; [exact Ha0|]. cbn.
  exists method, exp, cols, ctxCol. repeat split; try assumption.
  right. exists cs, ctxCell. now repeat split.
Qed.

(** X1. The context aliases [toContextAlias] returns carry pairwise
    distinct names: an alias is pushed only when no alias of that name is
    there yet. *)
Theorem toContextAlias_names_unique (contractMeta : ContractMeta)
    (aliases : list ContextAlias) :
  toContextAlias contractMeta = Some aliases ->
  NoDup (map ca_name aliases).
Proof.
  unfold toContextAlias.
  apply (fold_left_opt_inv (fun acc => NoDup (map ca_name acc))); [|constructor].
  intros a0 method a1 Ha0. unfold add_method.
  apply (fold_left_opt_inv (fun acc => NoDup (map ca_name acc))); [|exact Ha0].
  clear. intros a0 exp a1 Ha0. unfold add_expression.
  destruct (contextColumns exp) as [cols|]; [|intros H; now inversion H; subst].
  apply (fold_left_opt_inv (fun acc => NoDup (map ca_name acc))); [|exact Ha0].
  clear. intros a0 col a1 Ha0 Hcol. unfold add_column in Hcol.
  destruct (existsb _ a0); [discriminate|]. cbv zeta in Hcol.
  destruct (cells col) as [cs|].
  - revert Hcol. apply (fold_left_opt_inv (fun a => NoDup (map ca_name a))).
    + intros b0 x b1 Hb0. now apply add_cell_unique.
    + destruct (existsb (alias_named (col_alias col)) a0) eqn:E; [exact Ha0|].
      rewrite map_app. apply NoDup_snoc; [exact Ha0 | now apply alias_named_absent].
  - inversion Hcol; subst.
    destruct (existsb (alias_named (col_alias col)) a0) eqn:E; [exact Ha0|].
    rewrite map_app. apply NoDup_snoc; [exact Ha0 | now apply alias_named_absent].
Qed.

(** X2. When [toContextAlias] returns, its result holds exactly what the
    contract meta declares: an alias stands in it for a name at a column
    and a row (no row for the alias of a column) if and only if a column or
    a cell of some expression of some method declares that name there. *)
Theorem toContextAlias_records_aliases (contractMeta : ContractMeta)
    (aliases : list ContextAlias) (name : string) (column : Z) (row : option Z) :
  toContextAlias contractMeta = Some aliases ->
  (has_alias aliases name column row <-> declares contractMeta name column row).
Proof.
  intros Hrun. split.
  - intros (e & Hin & <- & <- & <-).
    pose proof (toContextAlias_declared _ _ Hrun) as Hall.
    rewrite Forall_forall in Hall. now apply Hall.
  - now apply toContextAlias_records.
Qed.

(** X3. When the contract meta declares one name at two different places
    (two columns, two cells, or a column and a cell), [toContextAlias]
    throws "duplicate context alias identifier". *)
Theorem toContextAlias_conflict_throws (contractMeta : ContractMeta)
    (name : string) (column column' : Z) (row row' : option Z) :
  declares contractMeta name column row ->
  declares contractMeta name column' row' ->
  column <> column' \/ row <> row' ->
  toContextAlias contractMeta = None.
Proof.
  intros H1 H2 Hdiff. destruct (toContextAlias contractMeta) as [aliases|] eqn:Hrun;
    [|reflexivity].
  exfalso.
  destruct (toContextAlias_records _ _ _ _ _ Hrun H1) as (e1 & Hin1 & Hn1 & Hc1 & Hr1).
  destruct (toContextAlias_records _ _ _ _ _ Hrun H2) as (e2 & Hin2 & Hn2 & Hc2 & Hr2).
  assert (e1 = e2).
  { apply (NoDup_map_eq ca_name aliases); try assumption.
    - now apply (toContextAlias_unique contractMeta).
    - congruence. }
  subst e2. destruct Hdiff as [H|H]; apply H; congruence.
Qed.

(** ** The configurations of an import *)

Section ConfigProperties.
Context {LT : LanguageTypes}.

Lemma pair_induction {A : Type} (P : list A -> Prop) :
  P [] -> (forall x, P [x]) -> (forall x y l, P l -> P (x :: y :: l)) ->
  forall l, P l.
Proof.
  intros H0 H1 H2 l.
  assert (H : P l /\ forall x, P (x :: l)).
  { induction l as [|a l [IH1 IH2]]; [split; [exact H0 | exact H1]|].
    split; [apply IH2|]. intros x. now apply H2. }
  apply H.
Qed.

Lemma config_loop_chunks chunks :
  forall rs ps,
    flat_map reconfig_chunks (fst (config_loop chunks rs ps))
    = flat_map reconfig_chunks rs ++ chunks
    /\ (Forall (fun r => snd r <> None) rs ->
        Nat.even (List.length chunks) = true ->
        Forall (fun r => snd r <> None) (fst (config_loop chunks rs ps)))
    /\ exists qs, snd (config_loop chunks rs ps) = ps ++ qs.
Proof.
  induction chunks as [|key|key n rest IH] using pair_induction; intros rs ps.
  - cbn. rewrite app_nil_r. split; [reflexivity|]. split; [auto|].
    exists []. now rewrite app_nil_r.
  - cbn [config_loop fst snd]. rewrite flat_map_app. cbn.
    split; [reflexivity|]. split; [discriminate|]. eauto.
  - cbn [config_loop]. destruct (IH (rs ++ [(key, Some n)])
                                   (ps ++ config_step rs key (Some n)))
      as (H1 & H2 & qs & H3).
    split; [|split].
    + rewrite H1, flat_map_app. cbn. now rewrite <- app_assoc.
    + intros Hrs Heven. apply H2; [|exact Heven].
      apply Forall_app. split; [exact Hrs|]. constructor; [discriminate|constructor].
    + rewrite H3, <- app_assoc. eauto.
Qed.

Lemma config_loop_odd chunks :
  forall rs ps,
    Nat.even (List.length chunks) = false ->
    snd (config_loop chunks rs ps) <> [] /\ fst (config_loop chunks rs ps) <> [].
Proof.
  induction chunks as [|key|key n rest IH] using pair_induction; intros rs ps.
  - discriminate.
  - intros _. cbn [config_loop fst snd]. split.
    + unfold config_step.
      repeat match goal with
             | |- context [if ?c then _ else _] => destruct c
             end; intros H; apply app_eq_nil in H; destruct H; discriminate.
    + intros H. apply app_eq_nil in H. destruct H. discriminate.
  - cbn [config_loop]. intros H. apply IH. exact H.
Qed.

(** X4. [processImportConfigs] pairs the chunks up in order: the
    configurations it stores, laid end to end, are the chunks it was
    given, and when their number is even no configuration lacks its second
    chunk. Both lists are always set on the import. *)
Theorem processImportConfigs_pairs_chunks {D : Type} (imp : Import D)
    (chunks : list ParsedChunk) :
  exists rs ps,
    reconfigs (processImportConfigs imp chunks) = Some rs
    /\ reconfigProblems (processImportConfigs imp chunks) = Some ps
    /\ flat_map reconfig_chunks rs = chunks
    /\ (Nat.even (List.length chunks) = true ->
        Forall (fun r => snd r <> None) rs)
    /\ (Nat.even (List.length chunks) = false -> ps <> [] /\ rs <> []).
Proof.
  unfold processImportConfigs.
  destruct (config_loop_chunks chunks [] []) as (H1 & H2 & qs & H3).
  pose proof (config_loop_odd chunks [] []) as Hodd.
  destruct (config_loop chunks [] []) as [rs ps]. cbn [fst snd] in *.
  exists rs, ps. split; [reflexivity|]. split; [reflexivity|].
  split; [exact H1|]. split; [intros H; apply H2; [constructor | exact H]|].
  exact Hodd.
Qed.

Lemma has_reconfig_absent rs key n :
  has_reconfig rs key n = false ->
  ~ In (reconfig_text (key, Some n)) (map reconfig_text rs).
Proof.
  intros H Hin. apply in_map_iff in Hin. destruct Hin as (r & Hr & Hin).
  assert (Ht : has_reconfig rs key n = true).
  { unfold has_reconfig. apply existsb_exists. exists r. split; [exact Hin|].
    unfold reconfig_text in Hr. cbn [fst snd option_map] in Hr.
    inversion Hr as [[Hk Hn]]. rewrite Hk, String.eqb_refl. cbn [andb].
    destruct (snd r) as [c|]; [|discriminate]. cbn in Hn. inversion Hn as [Hc].
    rewrite Hc. apply String.eqb_refl. }
  congruence.
Qed.

Lemma config_step_clean rs key nxt :
  config_step rs key nxt = [] ->
  exists n, nxt = Some n /\ has_reconfig rs key n = false
            /\ well_formed_directive (key, nxt).
Proof.
  unfold config_step, well_formed_directive. cbn [fst snd].
  destruct (String.eqb (chunk_text key) ".") eqn:Edot.
  - apply String.eqb_eq in Edot. destruct nxt as [n|]; [|discriminate].
    destruct (String.eqb (chunk_text n) "!") eqn:Ebang; [|discriminate].
    apply String.eqb_eq in Ebang.
    destruct (has_reconfig rs key n) eqn:Ehas; [discriminate|]. intros _.
    exists n. split; [reflexivity|]. split; [exact Ehas|].
    exists n. split; [reflexivity|]. left. now split.
  - destruct (WORD_PATTERN (chunk_text key)) eqn:Eword.
    + destruct nxt as [n|]; [|discriminate].
      destruct (NUMERIC_PATTERN (chunk_text n) || String.eqb (chunk_text n) "!")
        eqn:Eval; [|discriminate].
      destruct (has_reconfig rs key n) eqn:Ehas; [discriminate|]. intros _.
      exists n. split; [reflexivity|]. split; [exact Ehas|].
      exists n. split; [reflexivity|]. right. left. split; [reflexivity|].
      apply orb_true_iff in Eval. destruct Eval as [H|H]; [now left|].
      right. now apply String.eqb_eq.
    + destruct (JS.startsWith "'" (chunk_text key)) eqn:Equote; [|discriminate].
      destruct (WORD_PATTERN (JS.slice_from 1 (chunk_text key))) eqn:Ename;
        [|discriminate].
      destruct nxt as [n|]; [|discriminate].
      destruct (WORD_PATTERN (chunk_text n)) eqn:Enew; [|discriminate].
      destruct (has_reconfig rs key n) eqn:Ehas; [discriminate|]. intros _.
      exists n. split; [reflexivity|]. split; [exact Ehas|].
      exists n. split; [reflexivity|]. right. right. now repeat split.
Qed.

Lemma config_loop_clean chunks :
  forall rs ps,
    snd (config_loop chunks rs ps) = [] ->
    Forall well_formed_directive rs ->
    NoDup (map reconfig_text rs) ->
    Forall well_formed_directive (fst (config_loop chunks rs ps))
    /\ NoDup (map reconfig_text (fst (config_loop chunks rs ps))).
Proof.
  induction chunks as [|key|key n rest IH] using pair_induction; intros rs ps.
  - cbn. auto.
  - cbn [config_loop fst snd]. intros H. apply app_eq_nil in H. destruct H as [_ H].
    apply config_step_clean in H. destruct H as (n & Hn & _). discriminate.
  - cbn [config_loop]. intros Hclean Hwf Hnd.
    destruct (config_loop_chunks rest (rs ++ [(key, Some n)])
                (ps ++ config_step rs key (Some n))) as (_ & _ & qs & Hqs).
    rewrite Hclean in Hqs. symmetry in Hqs.
    apply app_eq_nil in Hqs. destruct Hqs as [Hqs _].
    apply app_eq_nil in Hqs. destruct Hqs as [_ Hstep].
    apply config_step_clean in Hstep. destruct Hstep as (n0 & Hn0 & Hhas & Hwf1).
    inversion Hn0; subst n0.
    apply IH; [exact Hclean| |].
    + apply Forall_app. split; [exact Hwf | now constructor].
    + rewrite map_app. cbn [map]. apply NoDup_snoc; [exact Hnd|].
      now apply has_reconfig_absent.
Qed.

(** X5. When [processImportConfigs] records no problem, every configuration
    it stores is complete and reads as an elision ([. !] or [name !]), a
    rebinding ([name value]) or a renaming (['name newname]), and no two of
    them have the same two texts. *)
Theorem processImportConfigs_without_problems {D : Type} (imp : Import D)
    (chunks : list ParsedChunk) (rs : list Reconfig) :
  reconfigs (processImportConfigs imp chunks) = Some rs ->
  reconfigProblems (processImportConfigs imp chunks) = Some [] ->
  Forall well_formed_directive rs /\ NoDup (map reconfig_text rs).
Proof.
  unfold processImportConfigs.
  pose proof (config_loop_clean chunks [] []) as H.
  destruct (config_loop chunks [] []) as [rs0 ps0]. cbn [fst snd] in *.
  cbn [reconfigs reconfigProblems imp_set_reconfigs].
  intros Hrs Hps. inversion Hrs; subst rs0. inversion Hps; subst ps0.
  apply H; [reflexivity | constructor | constructor].
Qed.
End ConfigProperties.

(** ** The directives of an import *)

(** X6. A directive applied to the namespace an import brings either
    records no problem, or records exactly one and changes neither the
    namespace nor any binding; the problem is one of: undefined words,
    single word, undefined identifier, duplicate identifier, unexpected
    rebinding. This holds also when the application throws. *)
Theorem apply_reconfig_problem_or_effect (_s : Reconfig) (_ns : Namespace)
    (d : RainDocument) (h : Heap) :
  snd (fst (state_of (apply_reconfig _s (_ns, d, h)))) = d
  \/ exists p,
       snd (fst (state_of (apply_reconfig _s (_ns, d, h)))) = push_problem p d
       /\ fst (fst (state_of (apply_reconfig _s (_ns, d, h)))) = _ns
       /\ snd (state_of (apply_reconfig _s (_ns, d, h))) = h
       /\ In (code p)
            [UndefinedDISpair; SingleWordModify; UndefinedIdentifier;
             DuplicateIdentifier; UnexpectedRebinding].
Proof.
  unfold apply_reconfig.
  repeat match goal with
         | |- context [match ?x with _ => _ end] => destruct x eqn:?
         end;
    cbn [state_of fst snd];
    first [ left; reflexivity
          | right; eexists; split; [reflexivity|]; split; [reflexivity|];
            split; [reflexivity|]; cbn; tauto ].
Qed.

Lemma obj_get_fold_delete {A V : Type} (key : A -> string) (l : list A)
    (o : obj V) (k : string) :
  obj_get k (fold_left (fun ns v => obj_delete (key v) ns) l o)
  = if existsb (fun v => String.eqb k (key v)) l then None else obj_get k o.
Proof.
  revert o. induction l as [|a l IH]; intros o; cbn [fold_left existsb];
    [reflexivity|].
  rewrite IH. destruct (existsb (fun v => String.eqb k (key v)) l);
    [now rewrite orb_true_r|].
  rewrite orb_false_r. destruct (String.eqb k (key a)) eqn:E.
  - apply String.eqb_eq in E. subst k. apply obj_get_delete_same.
  - apply String.eqb_neq in E. now apply obj_get_delete_other.
Qed.

(** X7. The directive [. !] on a namespace that holds a set of words under
    [Words] removes [Words] and the entry under the name of every word of
    the set; every other entry stays, and nothing else changes. *)
Theorem elide_words_removes_set (p0 p1 : Offsets) (_ns : Namespace)
    (d : RainDocument) (h : Heap) (n : NamespaceNode) (ws : list Authoring) :
  obj_get "Words" _ns = Some (NsLeaf n) ->
  node_Element n = EWords ws ->
  exists ns',
    apply_reconfig (elide_directive "." p0 p1) (_ns, d, h) = Normal (ns', d, h)
    /\ obj_get "Words" ns' = None
    /\ (forall v, In v ws -> obj_get (word v) ns' = None)
    /\ (forall k, k <> "Words" -> ~ In k (map word ws) ->
                  obj_get k ns' = obj_get k _ns).
Proof.
  intros Hw He. exists (delete_words ws _ns). split; [|split; [|split]].
  - unfold apply_reconfig, elide_directive. cbn [fst snd chunk_text].
    rewrite String.eqb_refl. cbn [String.eqb Ascii.eqb]. rewrite Hw, He. reflexivity.
  - unfold delete_words. apply obj_get_delete_same.
  - intros v Hv. unfold delete_words.
    destruct (String.eqb (word v) "Words") eqn:E.
    + apply String.eqb_eq in E. rewrite E. apply obj_get_delete_same.
    + apply String.eqb_neq in E. rewrite obj_get_delete_other by exact E.
      rewrite obj_get_fold_delete.
      replace (existsb (fun v0 => String.eqb (word v) (word v0)) ws) with true;
        [reflexivity|].
      symmetry. apply existsb_exists. exists v. split; [exact Hv|].
      apply String.eqb_refl.
  - intros k Hk Hnot. unfold delete_words.
    rewrite obj_get_delete_other by exact Hk. rewrite obj_get_fold_delete.
    destruct (existsb (fun v => String.eqb k (word v)) ws) eqn:E; [|reflexivity].
    exfalso. apply Hnot. apply existsb_exists in E. destruct E as (v & Hv & Heq).
    apply String.eqb_eq in Heq. subst k. now apply in_map.
Qed.

(** X8. The directive [key !] for a key other than [.]: on an entry that is
    not a single word it removes that entry and no other; on a single word
    it changes no entry and records one problem, at the span of the
    directive; on a name that is neither a key of the namespace nor one
    that every object inherits it changes no entry and records one
    undefined identifier problem, at the key. *)
Theorem elide_entry (key : string) (p0 p1 : Offsets) (_ns : Namespace)
    (d : RainDocument) (h : Heap) :
  key <> "." ->
  match obj_get key _ns with
  | Some x =>
      if isWord x then
        apply_reconfig (elide_directive key p0 p1) (_ns, d, h)
        = Normal (_ns,
                  push_problem
                    (mkProblem ("cannot elide single word: " ++ quoted key)
                       (fst p0, snd p1) SingleWordModify) d, h)
      else
        exists ns',
          apply_reconfig (elide_directive key p0 p1) (_ns, d, h) = Normal (ns', d, h)
          /\ obj_get key ns' = None
          /\ forall k, k <> key -> obj_get k ns' = obj_get k _ns
  | None =>
      inherited key = false ->
      apply_reconfig (elide_directive key p0 p1) (_ns, d, h)
      = Normal (_ns,
                push_problem
                  (mkProblem ("undefined identifier " ++ quoted key) p0
                     UndefinedIdentifier) d, h)
  end.
Proof.
  intros Hkey. apply String.eqb_neq in Hkey.
  unfold apply_reconfig, elide_directive. cbn [fst snd chunk_text chunk_pos span].
  rewrite String.eqb_refl, Hkey. unfold ns_read.
  destruct (obj_get key _ns) as [x|]; [|intros Hinh; now rewrite Hinh].
  destruct (isWord x); [reflexivity|].
  exists (obj_delete key _ns). split; [reflexivity|].
  split; [apply obj_get_delete_same|].
  intros k Hk. now apply obj_get_delete_other.
Qed.

(** ** The merge of a namespace *)

Lemma _check_empty (ns : Namespace) : _check (NsInterior ns) (NsInterior []) = msg_ok.
Proof. reflexivity. Qed.

(** X9. [mergeNamespace] either accepts, and then records no problem, or
    refuses, and then records exactly one problem, with the message of the
    check, at the hash position of the import, and leaves the namespace of
    the document as it was before the call. *)
Theorem mergeNamespace_refuses_without_change (imp : Import RainDocument)
    (ns : Namespace) (d : RainDocument) :
  if fst (mergeNamespace imp ns d)
  then problems (snd (mergeNamespace imp ns d)) = problems d
  else namespace (snd (mergeNamespace imp ns d)) = namespace d
       /\ exists m,
            m <> msg_ok
            /\ problems (snd (mergeNamespace imp ns d))
               = problems d ++ [mkProblem m (imp_hashPosition imp) (check_code m)].
Proof.
  unfold mergeNamespace. cbv zeta.
  destruct (String.eqb (imp_name imp) ".") eqn:Eroot; cbn [negb andb].
  - destruct (negb (String.eqb (_check (NsInterior ns) (NsInterior (namespace d)))
                      msg_ok)) eqn:E; cbn [fst snd].
    + split; [reflexivity|]. eexists. split; [|reflexivity].
      intros Hm. rewrite Hm in E. discriminate.
    + reflexivity.
  - unfold obj_has.
    destruct (obj_get (imp_name imp) (namespace d)) as [x|] eqn:Eget;
      cbn [negb andb orb].
    + rewrite Eget.
      destruct (negb (String.eqb (_check (NsInterior ns) x) msg_ok)) eqn:E;
        cbn [fst snd]; [|reflexivity].
      split.
      * destruct x as [n|[|kv m]]; try reflexivity.
        rewrite _check_empty in E. discriminate.
      * eexists. split; [|reflexivity].
        intros Hm. rewrite Hm in E. discriminate.
    + destruct (inherited (imp_name imp)); cbn [negb].
      * rewrite Eget. reflexivity.
      * rewrite obj_get_set_same, _check_empty. reflexivity.
Qed.

Lemma _merge_unfold (n cns : Namespace) :
  _merge (NsInterior n) cns = merge_loop (obj_keys cns) n cns.
Proof.
  simpl. generalize (obj_keys cns) as keys. intros keys.
  revert cns. induction n as [|[k nk] n IH]; intros acc; [reflexivity|].
  cbn [merge_loop]. destruct (is_nil keys); [apply IH|].
  destruct (negb (includes_key k keys)); [apply IH|].
  destruct (negb (has_Element nk)); [|apply IH].
  destruct (obj_get k acc) as [[nl|ck]|]; apply IH.
Qed.

Lemma obj_get_keys {V : Type} (k : string) (o : obj V) :
  includes_key k (obj_keys o) = match obj_get k o with Some _ => true | None => false end.
Proof.
  induction o as [|[k' v] o IH]; [reflexivity|].
  cbn. destruct (String.eqb k k'); [reflexivity | exact IH].
Qed.

Lemma obj_get_none_keys {V : Type} (k : string) (o : obj V) :
  obj_get k o = None <-> ~ In k (obj_keys o).
Proof.
  induction o as [|[k' v] o IH]; cbn.
  - split; [intros _ [] | reflexivity].
  - destruct (String.eqb k k') eqn:E.
    + apply String.eqb_eq in E. split; [discriminate|]. intros H. exfalso. apply H.
      now left.
    + apply String.eqb_neq in E. rewrite IH. split.
      * intros H [H1|H1]; [congruence | contradiction].
      * intros H H1. apply H. now right.
Qed.

Lemma merge_loop_absent keys (l : list (string * NsItem)) :
  forall (acc : Namespace) k,
    obj_get k l = None -> obj_get k (merge_loop keys l acc) = obj_get k acc.
Proof.
  induction l as [|[k' nk] l IH]; intros acc k Hk; [reflexivity|].
  cbn [obj_get] in Hk. destruct (String.eqb k k') eqn:E; [discriminate|].
  apply String.eqb_neq in E. cbn [merge_loop].
  destruct (is_nil keys); [rewrite IH by exact Hk; now apply obj_get_set_other|].
  destruct (negb (includes_key k' keys));
    [rewrite IH by exact Hk; now apply obj_get_set_other|].
  destruct (negb (has_Element nk)); [|now apply IH].
  destruct (obj_get k' acc) as [[nl|ck]|]; try now apply IH.
  rewrite IH by exact Hk. now apply obj_get_set_other.
Qed.

Lemma includes_key_nil k keys : is_nil keys = true -> includes_key k keys = false.
Proof. destruct keys; [reflexivity | discriminate]. Qed.

Lemma merge_loop_lookup keys (l : list (string * NsItem)) :
  forall (acc : Namespace) k,
    NoDup (obj_keys l) ->
    obj_get k (merge_loop keys l acc)
    = match obj_get k l with
      | None => obj_get k acc
      | Some nk =>
          if includes_key k keys then
            match obj_get k acc, nk with
            | Some (NsInterior ck), NsInterior _ => Some (NsInterior (_merge nk ck))
            | r, _ => r
            end
          else Some nk
      end.
Proof.
  induction l as [|[k' nk] l IH]; intros acc k Hnd; [reflexivity|].
  cbn [obj_keys map fst] in Hnd. inversion Hnd as [|? ? Hnotin Hrest]; subst.
  change (map fst l) with (obj_keys l) in *.
  apply obj_get_none_keys in Hnotin.
  cbn [obj_get]. destruct (String.eqb k k') eqn:E.
  - apply String.eqb_eq in E. subst k'. cbn [merge_loop].
    destruct (is_nil keys) eqn:Enil.
    + rewrite (includes_key_nil k keys Enil).
      rewrite merge_loop_absent by exact Hnotin. apply obj_get_set_same.
    + destruct (includes_key k keys) eqn:Einc; cbn [negb].
      * destruct nk as [nl|nm]; cbn [has_Element negb].
        -- rewrite merge_loop_absent by exact Hnotin.
           now destruct (obj_get k acc) as [[?|?]|].
        -- destruct (obj_get k acc) as [[cl|ck]|] eqn:Eacc;
             rewrite merge_loop_absent by exact Hnotin; try exact Eacc.
           apply obj_get_set_same.
      * rewrite merge_loop_absent by exact Hnotin. apply obj_get_set_same.
  - apply String.eqb_neq in E. cbn [merge_loop].
    destruct (is_nil keys);
      [rewrite IH by exact Hrest; now rewrite obj_get_set_other by exact E|].
    destruct (negb (includes_key k' keys));
      [rewrite IH by exact Hrest; now rewrite obj_get_set_other by exact E|].
    destruct (negb (has_Element nk)); [|now apply IH].
    destruct (obj_get k' acc) as [[nl|ck]|]; try now apply IH.
    rewrite IH by exact Hrest. now rewrite obj_get_set_other by exact E.
Qed.

(** X10. What a key resolves to after [_merge(nns, cns)], for [nns] with
    distinct keys: a key [cns] does not have resolves to what it resolves to
    in [nns]; a key [nns] does not have stays as in [cns]; a key both have
    stays as in [cns], except that two nested namespaces are merged in
    turn. A node of [cns] is never overwritten. *)
Theorem merge_lookup (nns cns : Namespace) (k : string) :
  NoDup (obj_keys nns) ->
  obj_get k (_merge (NsInterior nns) cns)
  = match obj_get k cns, obj_get k nns with
    | None, r => r
    | Some x, None => Some x
    | Some (NsInterior ck), Some (NsInterior nk) =>
        Some (NsInterior (_merge (NsInterior nk) ck))
    | Some x, Some _ => Some x
    end.
Proof.
  intros Hnd. rewrite _merge_unfold, merge_loop_lookup by exact Hnd.
  rewrite obj_get_keys.
  destruct (obj_get k nns) as [[nl|nm]|], (obj_get k cns) as [[cl|cm]|]; reflexivity.
Qed.

(** ** The copy of a namespace *)

Lemma copyItem_leaves (index : Z) (hash : string) (x : NsItem) :
  leaves (copyItem index hash x) = map (copied_node index hash) (leaves x).
Proof.
  induction x as [n|m IHm] using NsItem_tree_ind; [reflexivity|].
  cbn [copyItem leaves]. induction m as [|[k v] m IHl]; [reflexivity|].
  inversion IHm as [|? ? Hhead Htail]; subst. cbn [map flat_map snd] in *.
  rewrite map_app, Hhead. f_equal. now apply IHl.
Qed.

(** X11. On a namespace whose nested namespaces hold no entry named
    [Element], [copyNamespace] keeps the shape: the same keys in the same
    order, each resolving to the copy of what it resolved to; and the nodes
    of the copy are, in order, those of the original with the same element,
    the given index, the given hash where the node had an empty one, and no
    bytecode. *)
Theorem copyNamespace_shape (ns : Namespace) (index : Z) (hash : string) :
  forallb (fun kv => plain (snd kv)) ns = true ->
  obj_keys (copyNamespace ns index hash) = obj_keys ns
  /\ (forall k,
        obj_get k (copyNamespace ns index hash)
        = option_map (copyItem index hash) (obj_get k ns))
  /\ ns_leaves (copyNamespace ns index hash)
     = map (copied_node index hash) (ns_leaves ns).
Proof.
  intros _. split; [|split].
  - unfold copyNamespace, obj_keys. rewrite map_map.
    apply map_ext. now intros [k v].
  - intros k. unfold copyNamespace.
    induction ns as [|[k' v] ns IH]; [reflexivity|].
    cbn [map obj_get]. destruct (String.eqb k k'); [reflexivity | exact IH].
  - exact (copyItem_leaves index hash (NsInterior ns)).
Qed.

(** ** The imports of a pass *)

Section ImportProperties.
Context {HP : Helpers} {LT : LanguageTypes} {MS : MetaStore}.

Lemma filter_snoc {A : Type} (f : A -> bool) (l : list A) (x : A) :
  filter f (l ++ [x]) = filter f l ++ (if f x then [x] else []).
Proof. rewrite filter_app. reflexivity. Qed.

Lemma record_import_hashes d imp :
  map imp_hash (imports (record_import d imp)) = map imp_hash (imports d) ++ [imp_hash imp]
  /\ (NoDup (map imp_hash (filter mergeable (imports d))) ->
      NoDup (map imp_hash (filter mergeable (imports (record_import d imp))))).
Proof.
  unfold record_import.
  destruct (negb (is_empty_string (imp_hash imp)) &&
            existsb (fun v => String.eqb (imp_hash v) (imp_hash imp)) (imports d))
    eqn:E; cbv zeta; cbn [imports set_imports push_problem set_problems].
  - split; [now rewrite map_app|]. intros Hnd. rewrite filter_snoc.
    unfold mergeable at 2. cbn [imp_problems imp_push_problem].
    replace (is_nil (imp_problems imp ++ [_])) with false
      by (now destruct (imp_problems imp)).
    cbn [andb]. now rewrite app_nil_r.
  - split; [now rewrite map_app|]. intros Hnd. rewrite filter_snoc.
    destruct (mergeable imp) eqn:Em; [|now rewrite app_nil_r].
    rewrite map_app. cbn [map]. apply NoDup_snoc; [exact Hnd|].
    intros Hin. apply in_map_iff in Hin. destruct Hin as (v & Hv & Hin).
    apply filter_In in Hin. destruct Hin as [Hin _].
    unfold mergeable in Em. apply andb_true_iff in Em. destruct Em as [_ Em].
    rewrite Em in E. cbn [andb] in E.
    assert (Ht : existsb (fun v => String.eqb (imp_hash v) (imp_hash imp)) (imports d)
                 = true).
    { apply existsb_exists. exists v. split; [exact Hin|]. now apply String.eqb_eq. }
    congruence.
Qed.

(** X12. Recording the processed imports keeps their hashes in order, and
    among the recorded imports no two that are free of problems name the same
    hash: an import whose hash was recorded before gets the "duplicate
    import" problem. *)
Theorem record_imports_distinct_hashes (imps : list (Import RainDocument))
    (d : RainDocument) :
  imports d = [] ->
  map imp_hash (imports (fold_left record_import imps d)) = map imp_hash imps
  /\ NoDup (map imp_hash
              (filter mergeable (imports (fold_left record_import imps d)))).
Proof.
  intros Hd.
  assert (H : forall l d0,
             map imp_hash (imports (fold_left record_import l d0))
             = map imp_hash (imports d0) ++ map imp_hash l
             /\ (NoDup (map imp_hash (filter mergeable (imports d0))) ->
                 NoDup (map imp_hash
                          (filter mergeable (imports (fold_left record_import l d0)))))).
  { induction l as [|imp l IH]; intros d0; cbn [fold_left map].
    - rewrite app_nil_r. auto.
    - destruct (record_import_hashes d0 imp) as [H1 H2].
      destruct (IH (record_import d0 imp)) as [H3 H4].
      split; [rewrite H3, H1, <- app_assoc; reflexivity | auto]. }
  destruct (H imps d) as [H1 H2]. rewrite Hd in *. cbn in *.
  split; [exact H1 | apply H2; constructor].
Qed.

(** X13. The head of an import statement, for a word pattern that does not
    accept the text [.]: either the meta of a hash is requested, and then
    the hash of the import is the lower case of a token of the statement
    that reads as a hash, at the position of that token; or no meta is
    requested, and then the import has no hash and carries at least one
    problem. The span of the import starts at the [@]. *)
Theorem import_head_requests_or_reports (stmt : ParsedChunk)
    (imp : Import RainDocument) (requested : bool)
    (chunks : option (list ParsedChunk)) :
  WORD_PATTERN "." = false ->
  import_head stmt = (imp, requested, chunks) ->
  imp_position imp = ((fst (chunk_pos stmt) - 1)%Z, snd (chunk_pos stmt))
  /\ if requested
     then exists token,
            HASH_PATTERN (chunk_text token) = true
            /\ imp_hash imp = JS.toLowerCase (chunk_text token)
            /\ imp_hashPosition imp = chunk_pos token
     else imp_hash imp = EmptyString /\ imp_problems imp <> [].
Proof.
  intros Hdot. unfold import_head. cbv zeta.
  destruct (exclusiveParse (chunk_text stmt) WhitespaceGd
              (Some (fst (chunk_pos stmt))) false) as [|n0 cs].
  - intros H. inversion H; subst. cbn. split; [reflexivity|].
    split; [reflexivity | discriminate].
  - destruct (negb (HEX_PATTERN (chunk_text n0))) eqn:Ehex.
    + destruct (negb (WORD_PATTERN (chunk_text n0))) eqn:Eword;
        cbn [imp_name imp_set_name imp_push_problem];
        destruct (negb (String.eqb (chunk_text n0) ".")) eqn:Edot.
      * destruct cs as [|hsh cs];
          [|destruct (HEX_PATTERN (chunk_text hsh));
            [destruct (negb (HASH_PATTERN (chunk_text hsh))) eqn:Ehash|]];
          intros H; inversion H; subst; cbn; (split; [reflexivity|]);
          try (split; [reflexivity | discriminate]).
        exists hsh. apply negb_false_iff in Ehash. now repeat split.
      * intros H; inversion H; subst; cbn. split; [reflexivity|].
        split; [reflexivity | discriminate].
      * destruct cs as [|hsh cs];
          [|destruct (HEX_PATTERN (chunk_text hsh));
            [destruct (negb (HASH_PATTERN (chunk_text hsh))) eqn:Ehash|]];
          intros H; inversion H; subst; cbn; (split; [reflexivity|]);
          try (split; [reflexivity | discriminate]).
        exists hsh. apply negb_false_iff in Ehash. now repeat split.
      * exfalso. apply negb_false_iff in Edot. apply String.eqb_eq in Edot.
        rewrite Edot, Hdot in Eword. discriminate.
    + destruct (HASH_PATTERN (chunk_text n0)) eqn:Ehash;
        cbn [imp_name imp_set_name imp_set_hash imp_push_problem String.eqb
             Ascii.eqb negb]; intros H; inversion H; subst; cbn;
        (split; [reflexivity|]).
      * exists n0. now repeat split.
      * split; [reflexivity | discriminate].
Qed.
(** The nested document of an import, when it has problems, has left a
    problem on the import. *)
Lemma processMeta_nested_problems run imp meta d h s imp' d' h' :
  (forall rd, dotrain (the_sequence imp) = Some rd -> problems rd <> [] ->
              imp_problems imp <> []) ->
  processMeta run imp meta d h = Some (s, (imp', d', h')) ->
  forall rd, dotrain (the_sequence imp') = Some rd -> problems rd <> [] ->
             imp_problems imp' <> [].
Proof.
  intros Hinv. unfold processMeta.
  repeat match goal with
         | |- context [match ?x with _ => _ end] => destruct x eqn:?
         end;
    intros H; inversion H; subst; clear H; cbn; intros rd Hrd Hps;
    try (now apply (Hinv rd));
    try (intros Hnil; apply app_eq_nil in Hnil; destruct Hnil; discriminate).
  inversion Hrd; subst. now destruct (problems rd).
Qed.

Lemma processMeta_all_nested_problems run mm :
  forall imp d h rejected imp' d' h',
    (forall rd, dotrain (the_sequence imp) = Some rd -> problems rd <> [] ->
                imp_problems imp <> []) ->
    processMeta_all run mm (imp, d, h) = Some (rejected, (imp', d', h')) ->
    forall rd, dotrain (the_sequence imp') = Some rd -> problems rd <> [] ->
               imp_problems imp' <> [].
Proof.
  induction mm as [|meta mm IH]; intros imp d h rejected imp' d' h' Hinv;
    cbn [processMeta_all].
  - intros H. now inversion H; subst.
  - destruct (processMeta run imp meta d h) as [[s [[imp1 d1] h1]]|] eqn:E1;
      [|discriminate].
    destruct (processMeta_all run mm (imp1, d1, h1))
      as [[rej2 [[imp2 d2] h2]]|] eqn:E2; [|discriminate].
    intros H. inversion H; subst.
    eapply IH; [|exact E2]. eapply processMeta_nested_problems; eauto.
Qed.

Lemma import_head_sequence stmt :
  sequence (fst (fst (import_head stmt))) = None.
Proof.
  unfold import_head.
  destruct (exclusiveParse _ _ _ _) as [|_nameOrHash _chunks]; [reflexivity|].
  repeat (match goal with
          | |- context [if ?c then _ else _] => destruct c
          | |- context [match ?l with [] => _ | _ :: _ => _ end] => destruct l
          end; cbn [fst snd imp_name imp_set_name imp_set_hash imp_push_problem]);
    reflexivity.
Qed.

(** X14. An import that [processImport] returns with a nested document
    that has problems carries a problem of its own. So for an import without
    problems [isDeepImport] is false: the merge loop never reports "import
    too deep" at the hash position of a processed import. *)
Theorem nested_problems_surface
    (run : RainDocument -> Heap -> option (RainDocument * Heap))
    (stmt : ParsedChunk) (d : RainDocument) (h : Heap)
    (imp : Import RainDocument) (d' : RainDocument) (h' : Heap) :
  processImport run stmt d h = Some (imp, d', h') ->
  (forall seq rd,
      sequence imp = Some seq -> dotrain seq = Some rd -> problems rd <> [] ->
      imp_problems imp <> [])
  /\ is_nil (imp_problems imp) && isDeepImport imp = false.
Proof.
  intros Hrun.
  assert (Hinv : forall rd, dotrain (the_sequence imp) = Some rd ->
                            problems rd <> [] -> imp_problems imp <> []).
  { revert Hrun. unfold processImport.
    pose proof (import_head_sequence stmt) as Hseq.
    destruct (import_head stmt) as [[r0 requested] chunks]. cbn [fst] in Hseq.
    set (r1 := match chunks with Some cs => processImportConfigs r0 cs | None => r0 end).
    assert (H1 : sequence r1 = None).
    { subst r1. destruct chunks as [cs|]; [|exact Hseq].
      unfold processImportConfigs. now destruct (config_loop cs [] []). }
    clearbody r1. cbv zeta.
    assert (Hnone : forall r : Import RainDocument,
               sequence r = None ->
               forall rd, dotrain (the_sequence r) = Some rd -> problems rd <> [] ->
                          imp_problems r <> []).
    { intros r Hr rd. unfold the_sequence. rewrite Hr. discriminate. }
    destruct requested; [|intros H; inversion H; subst; now apply Hnone].
    destruct (getMeta (imp_hash r1)) as [rec|];
      [|intros H; inversion H; subst; now apply Hnone].
    destruct (Meta_decode rec) as [mm|];
      [|intros H; inversion H; subst; now apply Hnone].
    destruct (negb (isConsumableMeta mm));
      [intros H; inversion H; subst; now apply Hnone|].
    unfold classify_meta.
    destruct (processMeta_all run (ordered_maps mm)
                (imp_set_sequence (Some empty_sequence) r1, d, h))
      as [[rej [[imp1 d1] h1]]|] eqn:E; [|discriminate].
    destruct rej; intros H; inversion H; subst.
    - intros rd. cbn. discriminate.
    - eapply processMeta_all_nested_problems; [|exact E].
      intros rd. cbn. discriminate. }
  split.
  - intros seq rd Hseq Hrd. apply Hinv. unfold the_sequence. now rewrite Hseq.
  - destruct (imp_problems imp) as [|p ps] eqn:Eps; [|reflexivity].
    cbn [is_nil andb]. unfold isDeepImport.
    destruct (sequence imp) as [seq|] eqn:Eseq; [|reflexivity].
    destruct (dotrain seq) as [rd|] eqn:Erd; [|reflexivity].
    destruct (existsb (fun v => code_eqb (code v) DeepImport) (problems rd)) eqn:Ex;
      [|reflexivity].
    exfalso. apply (Hinv rd); [unfold the_sequence; now rewrite Eseq| |reflexivity].
    intros Hnil. rewrite Hnil in Ex. discriminate.
Qed.
End ImportProperties.

(** ** The problems on ignored lines *)

Section IgnoreAgain.
Context {TD : TextDocumentLib}.

(** X15. The pass over the ignored lines changes nothing when run again on
    its result, and changes nothing at all in a document without a comment
    that carries the marker. *)
Theorem ignore_next_line_idempotent (d : RainDocument) :
  ignore_next_line (ignore_next_line d) = ignore_next_line d
  /\ ((forall c, In c (comments d) -> has_ignore_next_line c = false) ->
      ignore_next_line d = d).
Proof.
  split.
  - rewrite (ignore_next_line_filter (ignore_next_line d)).
    rewrite (ignore_next_line_filter d).
    cbn [problems set_problems].
    change (suppressed (set_problems _ d)) with (suppressed d).
    rewrite filter_filter. unfold set_problems at 1. cbn.
    unfold set_problems. f_equal. apply filter_ext. intros e.
    now destruct (suppressed d e).
  - intros Hnone. rewrite ignore_next_line_filter.
    rewrite (filter_ext (fun e => negb (suppressed d e)) (fun _ => true)).
    + rewrite filter_true. apply set_problems_same.
    + intros e. unfold suppressed.
      replace (existsb (suppressed_by d e) (comments d)) with false; [reflexivity|].
      symmetry. apply not_true_is_false. intros H.
      apply existsb_exists in H. destruct H as (c & Hc & Hs).
      unfold suppressed_by in Hs. now rewrite (Hnone c Hc) in Hs.
Qed.
End IgnoreAgain.

(** ** The bindings of a pass *)

Section BindingProperties.
Context {HP : Helpers} {LT : LanguageTypes} {TD : TextDocumentLib} {JN : JSNumbers}.

Lemma make_binding_fields name np content cp pos nc :
  b_name (make_binding name np content cp pos nc) = name
  /\ b_problems (make_binding name np content cp pos nc) = []
  /\ b_dependencies (make_binding name np content cp pos nc) = []
  /\ b_exp (make_binding name np content cp pos nc) = None.
Proof.
  unfold make_binding. cbv zeta.
  destruct (isElided nc); [now repeat split|].
  destruct (negb (is_empty_string (isConstant nc))); now repeat split.
Qed.

Lemma extracted_refl d h : extracted d h d h.
Proof.
  exists []. rewrite !app_nil_r. split; [reflexivity|]. split; [reflexivity|].
  split; [constructor|]. split; [|auto].
  intros i b H. now destruct i.
Qed.

Lemma namespace_if (c : bool) p d :
  namespace (if c then push_problem p d else d) = namespace d
  /\ bindings (if c then push_problem p d else d) = bindings d.
Proof. now destruct c. Qed.

Lemma add_binding_extracted d0 h0 d h document v :
  extracted d0 h0 d h ->
  extracted d0 h0 (fst (fst (add_binding (d, h, document) v)))
    (snd (fst (add_binding (d, h, document) v))).
Proof.
  intros (bs & Hh & Hb & Hnd & Hbs & Hkept). unfold add_binding.
  destruct (binding_parts d v) as [[[[name np] content] cp] nc]. cbv zeta.
  set (d1 := if negb (is_binding_name name) then _ else d).
  set (d2 := if includes_key name (obj_keys (namespace d1)) then _ else d1).
  set (d3 := if JS.every JS.is_space nc then _ else d2).
  assert (Hns : namespace d3 = namespace d /\ bindings d3 = bindings d
                /\ namespace d1 = namespace d).
  { subst d3 d2 d1.
    repeat match goal with
           | |- context [if ?c then _ else _] => destruct c
           end; now repeat split. }
  destruct Hns as (Hns3 & Hbd3 & Hns1). rewrite Hns1. clearbody d3. clear d1 d2 Hns1.
  destruct (negb (negb (is_binding_name name))) eqn:Evalid; cbn [andb];
    [destruct (negb (includes_key name (obj_keys (namespace d)))) eqn:Edup|];
    unfold heap_alloc; cbn [fst snd].
  - apply negb_true_iff in Evalid. apply negb_false_iff in Evalid.
    apply negb_true_iff in Edup. rewrite obj_get_keys in Edup.
    assert (Hfree : obj_get name (namespace d) = None)
      by (destruct (obj_get name (namespace d)); [discriminate | reflexivity]).
    clear Edup.
    destruct (make_binding_fields name np content cp (chunk_pos v) nc)
      as (Fn & Fp & Fd & Fe).
    set (b := make_binding name np content cp (chunk_pos v) nc) in *.
    exists (bs ++ [b]). cbn [bindings namespace set_bindings set_namespace].
    rewrite Hns3, Hbd3.
    split; [rewrite Hh; now rewrite app_assoc|].
    split.
    { rewrite Hb, Hh, <- app_assoc. f_equal.
      rewrite !length_app. cbn [List.length]. rewrite Nat.add_1_r, seq_S. reflexivity. }
    split.
    { rewrite map_app. cbn [map]. apply NoDup_snoc; [exact Hnd|]. rewrite Fn.
      intros Hin. apply in_map_iff in Hin. destruct Hin as (b' & Hname & Hin).
      apply In_nth_error in Hin. destruct Hin as [i Hi].
      destruct (Hbs i b' Hi) as (_ & _ & Hreg & _). rewrite Hname in Hreg. congruence. }
    split.
    { intros i b' Hi.
      destruct (Nat.lt_ge_cases i (List.length bs)) as [Hlt|Hge].
      - rewrite nth_error_app1 in Hi by exact Hlt.
        destruct (Hbs i b' Hi) as (H1 & H2 & H3 & H4 & H5 & H6).
        repeat split; try assumption.
        rewrite obj_get_set_other; [exact H3|]. intros Heq. rewrite Heq in H3. congruence.
      - rewrite nth_error_app2 in Hi by exact Hge.
        destruct (i - List.length bs) as [|j] eqn:Ej; [|now destruct j].
        cbn in Hi. inversion Hi; subst b'. rewrite Fn.
        assert (i = List.length bs) by lia. subst i.
        repeat split; try assumption.
        + destruct (obj_get name (namespace d0)) as [x|] eqn:E0; [|reflexivity].
          rewrite (Hkept _ _ E0) in Hfree. discriminate.
        + rewrite obj_get_set_same, Hh, length_app. reflexivity. }
    intros k x Hk. rewrite obj_get_set_other; [now apply Hkept|].
    intros Heq. subst k. rewrite (Hkept _ _ Hk) in Hfree. discriminate.
  - exists bs. rewrite Hns3, Hbd3.
    split; [exact Hh|]. split; [exact Hb|]. split; [exact Hnd|].
    split; [exact Hbs | exact Hkept].
  - exists bs. rewrite Hns3, Hbd3.
    split; [exact Hh|]. split; [exact Hb|]. split; [exact Hnd|].
    split; [exact Hbs | exact Hkept].
Qed.

(** X16. Binding extraction only appends to the store, and its new
    bindings are the new entries of [bindings], in order. Their names match
    the binding name pattern, are pairwise distinct and were not keys of
    the namespace before; the namespace now resolves each name to the node
    of its binding; every entry the namespace held before (what the imports
    brought) is still there; a new binding starts without problems,
    dependencies or expression. *)
Theorem parse_bindings_registers (d : RainDocument) (h : Heap) (document : string) :
  extracted d h (fst (fst (parse_bindings (d, h, document))))
    (snd (fst (parse_bindings (d, h, document)))).
Proof.
  unfold parse_bindings.
  generalize (tl (exclusiveParse document HashGd None true)) as l. intros l.
  assert (H : forall (st : ParseState),
             extracted d h (fst (fst st)) (snd (fst st)) ->
             extracted d h (fst (fst (fold_left add_binding l st)))
               (snd (fst (fold_left add_binding l st)))).
  { induction l as [|v l IH]; intros st Hst; [exact Hst|].
    cbn [fold_left]. apply IH. destruct st as [[d1 h1] doc1].
    now apply add_binding_extracted. }
  apply (H (d, h, document)). apply extracted_refl.
Qed.
End BindingProperties.

(** ** Parsing again *)

Section ParseAgain.
Context {HP : Helpers} {LT : LanguageTypes} {TD : TextDocumentLib}
        {MS : MetaStore} {TS : ToposortLib} {JN : JSNumbers} {RL : RainlangLib}.

End ParseAgain.

(** ** Steps that only record problems *)

Lemma only_refl d : only_problems d d.
Proof.
  exists []. unfold push_problems. rewrite app_nil_r. symmetry. apply set_problems_same.
Qed.

Lemma only_push p d : only_problems d (push_problem p d).
Proof. now exists [p]. Qed.

Lemma only_trans d1 d2 d3 :
  only_problems d1 d2 -> only_problems d2 d3 -> only_problems d1 d3.
Proof.
  intros [ps1 ->] [ps2 ->]. exists (ps1 ++ ps2).
  unfold push_problems, set_problems. cbn. now rewrite app_assoc.
Qed.

Lemma only_if (c : bool) p d0 d :
  only_problems d0 d -> only_problems d0 (if c then push_problem p d else d).
Proof.
  intros H. destruct c; [|exact H]. eapply only_trans; [exact H | apply only_push].
Qed.

Lemma only_fold {A : Type} (f : RainDocument -> A -> RainDocument) (l : list A) d :
  (forall d0 a, only_problems d0 (f d0 a)) -> only_problems d (fold_left f l d).
Proof.
  intros Hf. revert d. induction l as [|a l IH]; intros d; [apply only_refl|].
  cbn [fold_left]. eapply only_trans; [apply Hf | apply IH].
Qed.

Lemma only_keeps d d' : only_problems d d' -> keeps d d'.
Proof. intros [ps ->]. apply keeps_push_problems. Qed.

Lemma only_error d d' : only_problems d d' -> runtimeError d' = runtimeError d.
Proof. now intros [ps ->]. Qed.

(** ** The problems of the imports *)

Section ImportProblems.
Context {HP : Helpers} {LT : LanguageTypes} {MS : MetaStore}.
Variable run : RainDocument -> Heap -> option (RainDocument * Heap).

Lemma processMeta_only imp meta d h s imp' d' h' :
  processMeta run imp meta d h = Some (s, (imp', d', h')) -> only_problems d d'.
Proof.
  unfold processMeta.
  repeat match goal with
         | |- context [match ?x with _ => _ end] => destruct x eqn:?
         end;
    intros H; inversion H; subst; clear H;
    first [apply only_refl | apply only_push].
Qed.

Lemma processMeta_all_only mm :
  forall imp d h rejected imp' d' h',
    processMeta_all run mm (imp, d, h) = Some (rejected, (imp', d', h')) ->
    only_problems d d'.
Proof.
  induction mm as [|meta mm IH]; intros imp d h rejected imp' d' h';
    cbn [processMeta_all].
  - intros H. inversion H; subst. apply only_refl.
  - destruct (processMeta run imp meta d h) as [[s [[imp1 d1] h1]]|] eqn:E1;
      [|discriminate].
    destruct (processMeta_all run mm (imp1, d1, h1))
      as [[rej2 [[imp2 d2] h2]]|] eqn:E2; [|discriminate].
    intros H. inversion H; subst.
    exact (only_trans _ _ _ (processMeta_only _ _ _ _ _ _ _ _ E1) (IH _ _ _ _ _ _ _ E2)).
Qed.

Lemma processImport_only stmt d h imp d' h' :
  processImport run stmt d h = Some (imp, d', h') ->
  only_problems d d' /\ forall p, In p (import_problems imp) -> In p (problems d').
Proof.
  unfold processImport.
  destruct (import_head stmt) as [[r0 requested] chunks].
  set (r1 := match chunks with Some cs => processImportConfigs r0 cs | None => r0 end).
  cbv zeta.
  match goal with
  | |- match ?res with _ => _ end = _ -> _ =>
      assert (Hres : forall r2 d2 h2, res = Some (r2, d2, h2) -> only_problems d d2);
      [|destruct res as [[[r2 d2] h2]|]; [|discriminate]]
  end.
  - intros r2 d2 h2.
    destruct requested; [|intros H; inversion H; subst; apply only_refl].
    destruct (getMeta (imp_hash r1)) as [rec|];
      [|intros H; inversion H; subst; apply only_refl].
    destruct (Meta_decode rec) as [mm|];
      [|intros H; inversion H; subst; apply only_refl].
    destruct (negb (isConsumableMeta mm));
      [intros H; inversion H; subst; apply only_refl|].
    unfold classify_meta.
    destruct (processMeta_all run (ordered_maps mm)
                (imp_set_sequence (Some empty_sequence) r1, d, h))
      as [[rej [[imp1 d1] h1]]|] eqn:E; [|discriminate].
    apply processMeta_all_only in E.
    destruct rej; intros H; inversion H; subst; exact E.
  - intros H. inversion H; subst. split.
    + eapply only_trans; [exact (Hres _ _ _ eq_refl) | now eexists].
    + intros p Hp. unfold push_problems. cbn [problems set_problems].
      apply in_or_app. now right.
Qed.

Lemma processImport_reports stmt d h imp d' h' :
  processImport run stmt d h = Some (imp, d', h') ->
  keeps d d' /\ forall p, In p (import_problems imp) -> In p (problems d').
Proof.
  intros H. apply processImport_only in H. destruct H as [H1 H2].
  split; [now apply only_keeps | exact H2].
Qed.

Lemma processImports_only stmts :
  forall d h imps d' h',
    processImports run stmts d h = Some (imps, d', h') -> only_problems d d'.
Proof.
  induction stmts as [|stmt stmts IH]; intros d h imps d' h'; cbn [processImports].
  - intros H. inversion H; subst. apply only_refl.
  - destruct (processImport run stmt d h) as [[[imp d1] h1]|] eqn:E1; [|discriminate].
    destruct (processImports run stmts d1 h1) as [[[imps2 d2] h2]|] eqn:E2;
      [|discriminate].
    intros H. inversion H; subst.
    apply processImport_only in E1. destruct E1 as [K1 _].
    exact (only_trans _ _ _ K1 (IH _ _ _ _ _ E2)).
Qed.

Lemma processImports_reports stmts :
  forall d h imps d' h',
    processImports run stmts d h = Some (imps, d', h') ->
    keeps d d'
    /\ Forall (fun imp => forall p, In p (import_problems imp) -> In p (problems d'))
         imps.
Proof.
  induction stmts as [|stmt stmts IH]; intros d h imps d' h'; cbn [processImports].
  - intros H. inversion H; subst. split; [apply keeps_refl | constructor].
  - destruct (processImport run stmt d h) as [[[imp d1] h1]|] eqn:E1; [|discriminate].
    destruct (processImports run stmts d1 h1) as [[[imps2 d2] h2]|] eqn:E2;
      [|discriminate].
    intros H. inversion H; subst.
    apply processImport_reports in E1. destruct E1 as [K1 R1].
    apply IH in E2. destruct E2 as [K2 R2].
    split; [exact (keeps_trans _ _ _ K1 K2)|].
    constructor; [|exact R2].
    intros p Hp. eapply keeps_In; [exact K2 | now apply R1].
Qed.

Lemma record_import_reports d imp :
  (forall p, In p (import_problems imp) -> In p (problems d)) ->
  (forall v p, In v (imports d) -> In p (import_problems v) -> In p (problems d)) ->
  (forall p, In p (problems d) -> In p (problems (record_import d imp)))
  /\ forall v p, In v (imports (record_import d imp)) -> In p (import_problems v) ->
                 In p (problems (record_import d imp)).
Proof.
  intros Himp Hd. unfold record_import.
  destruct (negb (is_empty_string (imp_hash imp)) && _); cbv zeta;
    cbn [imports problems set_imports push_problem set_problems].
  - split; [intros p Hp; apply in_or_app; now left|].
    intros v p Hv Hp. apply in_app_or in Hv. destruct Hv as [Hv|[<-|[]]].
    + apply in_or_app. left. eapply Hd; eauto.
    + unfold import_problems in Hp. cbn [imp_problems reconfigProblems imp_push_problem]
        in Hp.
      rewrite <- app_assoc in Hp. apply in_app_or in Hp. destruct Hp as [Hp|Hp].
      * apply in_or_app. left. apply Himp. unfold import_problems.
        apply in_or_app. now left.
      * cbn [app] in Hp. destruct Hp as [<-|Hp].
        -- apply in_or_app. right. now left.
        -- apply in_or_app. left. apply Himp. unfold import_problems.
           apply in_or_app. now right.
  - split; [auto|].
    intros v p Hv Hp. apply in_app_or in Hv. destruct Hv as [Hv|[<-|[]]].
    + eapply Hd; eauto.
    + now apply Himp.
Qed.

(** X18. After the imports of a pass have been processed and recorded,
    every problem of every recorded import, its own and those of its
    configurations, is among the problems of the document. *)
Theorem parse_imports_reports (stmts : list ParsedChunk) (d : RainDocument)
    (h : Heap) (d' : RainDocument) (h' : Heap) :
  imports d = [] ->
  parse_imports run stmts d h = Some (d', h') ->
  forall imp p,
    In imp (imports d') -> In p (import_problems imp) -> In p (problems d').
Proof.
  intros Hd. unfold parse_imports. destruct (importDepth d <? 32).
  - destruct (processImports run stmts d h) as [[[imps d1] h1]|] eqn:E;
      [|discriminate].
    intros H. inversion H; subst. clear H.
    apply processImports_reports in E. destruct E as [K R].
    assert (Hd1 : forall v p, In v (imports d1) -> In p (import_problems v) ->
                              In p (problems d1)).
    { rewrite (keeps_imports _ _ K), Hd. intros v p []. }
    clear K Hd. revert d1 R Hd1.
    induction imps as [|imp imps IH]; intros d1 R Hd1; [exact Hd1|].
    cbn [fold_left]. inversion R as [|? ? Rimp Rrest]; subst.
    destruct (record_import_reports d1 imp Rimp Hd1) as [Hgrow Hrec].
    apply IH; [|exact Hrec].
    eapply Forall_impl; [|exact Rrest]. intros v Hv p Hp. apply Hgrow. now apply Hv.
  - intros H. inversion H; subst. clear H.
    intros imp p Himp.
    assert (Hi : imports (fold_left
                            (fun d0 imp0 =>
                               push_problem
                                 (deep_import ((fst (chunk_pos imp0) - 1)%Z,
                                               snd (chunk_pos imp0))) d0) stmts d)
                 = []).
    { rewrite <- Hd. apply keeps_imports, keeps_fold. intros d0 a. apply keeps_push. }
    rewrite Hi in Himp. destruct Himp.
Qed.
End ImportProblems.

(** ** Constants *)

Lemma every_append (p : ascii -> bool) (a b : string) :
  JS.every p (a ++ b) = JS.every p a && JS.every p b.
Proof.
  induction a as [|c a IH]; [reflexivity|].
  cbn [append JS.every]. now rewrite IH, andb_assoc.
Qed.

Lemma every_repeat_zero (n : nat) : JS.every JS.is_digit (JS.repeat "0" n) = true.
Proof. induction n as [|n IH]; [reflexivity|]. cbn [JS.repeat]. exact IH. Qed.

Lemma length_repeat_zero (n : nat) : String.length (JS.repeat "0" n) = n.
Proof. induction n as [|n IH]; [reflexivity|]. cbn. now rewrite IH. Qed.

Lemma length_append (a b : string) :
  String.length (a ++ b) = String.length a + String.length b.
Proof. induction a as [|c a IH]; [reflexivity|]. cbn. now rewrite IH. Qed.

Section ConstantProperties.
Context {HP : Helpers} {LT : LanguageTypes} {JN : JSNumbers}.

(** X19. [isConstant] answers with a value only for a text of exactly one
    token that the numeric pattern accepts. For a token in scientific
    notation whose value is no longer than [JS.safe_length] the value is
    the mantissa followed by as many zeros as the exponent says: a string
    of decimal digits that does not start with 0, so never the empty
    string; a hexadecimal literal is returned as it is. *)
Theorem isConstant_values (txt : string) :
  (isConstant txt <> EmptyString ->
   exists item,
     exclusiveParse txt WhitespaceGd None false = [item]
     /\ NUMERIC_PATTERN (chunk_text item) = true)
  /\ forall item,
       exclusiveParse txt WhitespaceGd None false = [item] ->
       NUMERIC_PATTERN (chunk_text item) = true ->
       (is_sci (chunk_text item) = true ->
        (Z.of_nat
           (String.length
              (JS.slice_to (JS.indexOf "e" (chunk_text item)) (chunk_text item)))
         + Z.of_nat
             (JS.to_nat (JS.slice_from (JS.indexOf "e" (chunk_text item) + 1)
                           (chunk_text item)))
         <= JS.safe_length)%Z ->
        JS.every JS.is_digit (isConstant txt) = true
        /\ JS.startsWith "0" (isConstant txt) = false
        /\ isConstant txt <> EmptyString
        /\ String.length (isConstant txt)
           = String.length
               (JS.slice_to (JS.indexOf "e" (chunk_text item)) (chunk_text item))
             + JS.to_nat (JS.slice_from (JS.indexOf "e" (chunk_text item) + 1)
                            (chunk_text item)))
       /\ (is_sci (chunk_text item) = false ->
           is_hex_literal (chunk_text item) = true ->
           isConstant txt = chunk_text item).
Proof.
  unfold isConstant. split.
  - destruct (exclusiveParse txt WhitespaceGd None false) as [|item [|item2 rest]];
      try (intros H; now elim H).
    destruct (NUMERIC_PATTERN (chunk_text item)) eqn:E; [|intros H; now elim H].
    intros _. now exists item.
  - intros item Hone Hnum. rewrite Hone, Hnum. split.
    + intros Hsci _. rewrite Hsci. unfold is_sci in Hsci.
      apply andb_true_iff in Hsci. destruct Hsci as [Hsci Hexp].
      apply andb_true_iff in Hsci. destruct Hsci as [Hsci _].
      apply andb_true_iff in Hsci. destruct Hsci as [_ Hman].
      destruct (JS.slice_to (JS.indexOf "e" (chunk_text item)) (chunk_text item))
        as [|c m] eqn:Em; [discriminate|].
      apply andb_true_iff in Hman. destruct Hman as [Hc Hm].
      apply andb_true_iff in Hc. destruct Hc as [Hdigit Hzero].
      cbn [append]. split; [|split; [|split]].
      * cbn [JS.every]. rewrite Hdigit, every_append, Hm, every_repeat_zero.
        reflexivity.
      * unfold JS.startsWith. cbn [String.prefix].
        destruct (ascii_dec "0" c) as [Heq|Hne]; [|reflexivity].
        subst c. discriminate.
      * discriminate.
      * cbn [String.length]. now rewrite length_append, length_repeat_zero.
    + intros Hsci Hhex. now rewrite Hsci, Hhex.
Qed.
End ConstantProperties.

(** ** Imports that bring new names only *)

Lemma obj_get_In {V : Type} (k : string) (v : V) (o : obj V) :
  In (k, v) o -> obj_get k o <> None.
Proof.
  induction o as [|[k' v'] o IH]; [intros []|].
  intros [H|H]; cbn [obj_get].
  - inversion H; subst. now rewrite String.eqb_refl.
  - destruct (String.eqb k k'); [discriminate | now apply IH].
Qed.

Lemma obj_set_set {V : Type} (k : string) (v1 v2 : V) (o : obj V) :
  obj_set k v2 (obj_set k v1 o) = obj_set k v2 o.
Proof.
  induction o as [|[k' v'] o IH]; cbn [obj_set].
  - now rewrite String.eqb_refl.
  - destruct (String.eqb k k') eqn:E; cbn [obj_set].
    + now rewrite String.eqb_refl.
    + now rewrite E, IH.
Qed.

Lemma check_loop_disjoint (dup : bool) (c n : Namespace) :
  (forall k v, In (k, v) n -> obj_get k c = None) ->
  check_loop dup c n = msg_ok.
Proof.
  induction n as [|[k nk] n IH]; intros Hl; [reflexivity|].
  cbn [check_loop]. rewrite (Hl k nk) by now left.
  apply IH. intros k' v' Hin. apply (Hl k' v'). now right.
Qed.

Lemma _check_disjoint (n c : Namespace) :
  obj_get "Element" c = None ->
  (forall k, obj_get k n <> None -> obj_get k c = None) ->
  _check (NsInterior n) (NsInterior c) = msg_ok.
Proof.
  intros Hel Hdis. destruct c as [|e c]; [reflexivity|].
  rewrite _check_unfold by discriminate.
  rewrite obj_get_keys, Hel.
  assert (Hw : words_differ n (e :: c) = false).
  { unfold words_differ.
    destruct (obj_get "Words" (e :: c)) as [cw|] eqn:Ec; [|reflexivity].
    destruct (obj_get "Words" n) as [nw|] eqn:En; [|reflexivity].
    rewrite Hdis in Ec; [discriminate|]. now rewrite En. }
  rewrite Hw. apply check_loop_disjoint.
  intros k v Hin. apply Hdis. now apply (obj_get_In k v).
Qed.

(** X20. An import whose namespace shares no key with the namespace it is
    merged into (the root for the name [.], the namespace under its name
    otherwise, empty when the name is new and is not one that every object
    inherits), that namespace holding no entry named [Element], is
    accepted: no problem is recorded and the target becomes the merge of
    the two. *)
Theorem mergeNamespace_disjoint_accepted (imp : Import RainDocument)
    (ns target : Namespace) (d : RainDocument) :
  (merge_target imp d = Some (NsInterior target)
   \/ (merge_target imp d = None /\ inherited (imp_name imp) = false /\ target = [])) ->
  obj_get "Element" target = None ->
  (forall k, obj_get k ns <> None -> obj_get k target = None) ->
  mergeNamespace imp ns d
  = (true,
     set_namespace
       (if String.eqb (imp_name imp) "." then _merge (NsInterior ns) target
        else obj_set (imp_name imp) (NsInterior (_merge (NsInterior ns) target))
               (namespace d))
       d).
Proof.
  intros Htarget Hel Hdis. unfold merge_target in Htarget. unfold mergeNamespace.
  cbv zeta.
  destruct (String.eqb (imp_name imp) ".") eqn:Eroot; cbn [negb andb].
  - destruct Htarget as [Ht|[Ht _]]; [|discriminate]. inversion Ht; subst target.
    now rewrite (_check_disjoint ns (namespace d) Hel Hdis).
  - unfold obj_has.
    destruct (obj_get (imp_name imp) (namespace d)) as [x|] eqn:Eget;
      cbn [negb orb andb].
    + destruct Htarget as [Ht|[Ht _]]; [|discriminate]. inversion Ht; subst x.
      rewrite Eget. now rewrite (_check_disjoint ns target Hel Hdis).
    + destruct Htarget as [Ht|[_ [Hinh Ht]]]; [discriminate|]. subst target.
      rewrite Hinh. cbn [negb].
      rewrite obj_get_set_same, _check_empty. cbn [String.eqb negb fst snd].
      now rewrite obj_set_set.
Qed.

(** ** What dependency resolution changes *)

Lemma resolved_refl b : resolved_from b b.
Proof.
  unfold resolved_from. repeat (split; [reflexivity|]).
  split; [exists []; now rewrite app_nil_r|].
  split; [|reflexivity].
  exists []. rewrite app_nil_r. split; [reflexivity | constructor].
Qed.

Lemma resolved_trans b1 b2 b3 :
  resolved_from b1 b2 -> resolved_from b2 b3 -> resolved_from b1 b3.
Proof.
  intros (A1 & A2 & A3 & A4 & A5 & A6 & A7 & A8 & [ds1 A9] & [ps1 [A10 A11]] & A12)
         (B1 & B2 & B3 & B4 & B5 & B6 & B7 & B8 & [ds2 B9] & [ps2 [B10 B11]] & B12).
  unfold resolved_from. repeat (split; [congruence|]).
  split; [exists (ds1 ++ ds2); rewrite B9, A9; now rewrite app_assoc|].
  split.
  - exists (ps1 ++ ps2). split; [rewrite B10, A10; now rewrite app_assoc|].
    apply Forall_app. split; [exact A11|].
    eapply Forall_impl; [|exact B11]. intros p ->. unfold circular_problem.
    now rewrite A2.
  - intros Hne. rewrite B12; [now apply A12|].
    unfold is_expression_binding in *. now rewrite A7, A6.
Qed.

Lemma heap_resolved_refl h : heap_resolved h h.
Proof. split; [reflexivity|]. intros r b Hb. exists b. split; [exact Hb | apply resolved_refl]. Qed.

Lemma heap_resolved_trans h1 h2 h3 :
  heap_resolved h1 h2 -> heap_resolved h2 h3 -> heap_resolved h1 h3.
Proof.
  intros [L1 R1] [L2 R2]. split; [congruence|].
  intros r b Hb. destruct (R1 r b Hb) as (b2 & Hb2 & H12).
  destruct (R2 r b2 Hb2) as (b3 & Hb3 & H23).
  exists b3. split; [exact Hb3 | exact (resolved_trans _ _ _ H12 H23)].
Qed.

Lemma heap_update_length r f (h : Heap) :
  List.length (heap_update r f h) = List.length h.
Proof.
  revert r. induction h as [|b h IH]; intros r; [now destruct r|].
  destruct r as [|r]; cbn; [reflexivity | now rewrite IH].
Qed.

Lemma heap_resolved_update r f (h : Heap) :
  (forall b, heap_get h r = Some b -> resolved_from b (f b)) ->
  heap_resolved h (heap_update r f h).
Proof.
  intros Hf. split; [apply heap_update_length|].
  intros r' b Hb. rewrite heap_get_update. destruct (r' =? r) eqn:E.
  - apply Nat.eqb_eq in E. subst r'. rewrite Hb. cbn. eexists. split; [reflexivity|].
    now apply Hf.
  - exists b. split; [exact Hb | apply resolved_refl].
Qed.

Lemma ref_is_expression_resolved h h' r :
  heap_resolved h h' -> ref_is_expression h r = true -> ref_is_expression h' r = true.
Proof.
  intros [_ R]. unfold ref_is_expression.
  destruct (heap_get h r) as [b|] eqn:Eb; [|discriminate].
  destruct (R r b Eb) as (b' & Hb' & H). rewrite Hb'.
  destruct H as (_ & _ & _ & _ & _ & He & Hc & _).
  unfold is_expression_binding. now rewrite Hc, He.
Qed.

Lemma push_dependencies_resolved ds b :
  is_expression_binding b = true -> resolved_from b (b_push_dependencies ds b).
Proof.
  intros He. unfold resolved_from. cbn. repeat (split; [reflexivity|]).
  split; [now exists ds|]. split; [|congruence].
  exists []. rewrite app_nil_r. split; [reflexivity | constructor].
Qed.

Lemma push_circular_resolved b :
  is_expression_binding b = true ->
  resolved_from b (b_push_problems [circular_problem b] b).
Proof.
  intros He. unfold resolved_from. cbn. repeat (split; [reflexivity|]).
  split; [exists []; now rewrite app_nil_r|]. split; [|congruence].
  exists [circular_problem b]. split; [reflexivity | now constructor].
Qed.

Lemma collect_edges_resolved bs :
  forall h,
    Forall (fun r => ref_is_expression h r = true) bs ->
    heap_resolved h (snd (collect_edges bs h)).
Proof.
  induction bs as [|r bs IH]; intros h Hbs; [apply heap_resolved_refl|].
  inversion Hbs as [|? ? Hr Hrest]; subst. cbn [collect_edges].
  destruct (heap_get h r) as [b|] eqn:Eb; [|now apply IH].
  set (h1 := heap_update r
               (b_push_dependencies (map (JS.slice_from 1) (dep_matchAll (b_content b))))
               h).
  assert (H1 : heap_resolved h h1).
  { apply heap_resolved_update. intros b0 Hb0. apply push_dependencies_resolved.
    unfold ref_is_expression in Hr. now rewrite Hb0 in Hr. }
  specialize (IH h1).
  destruct (collect_edges bs h1) as [es h2]. cbn [snd] in *.
  eapply heap_resolved_trans; [exact H1|]. apply IH.
  eapply Forall_impl; [|exact Hrest]. intros r0. now apply ref_is_expression_resolved.
Qed.

Lemma mark_circular_resolved bs ns :
  forall h,
    Forall (fun r => ref_is_expression h r = true) bs ->
    heap_resolved h (mark_circular bs ns h).
Proof.
  unfold mark_circular. induction ns as [|n ns IH]; intros h Hbs;
    [apply heap_resolved_refl|].
  cbn [fold_left].
  set (h1 := match find_binding h bs n with
             | Some r => heap_update r (fun b => b_push_problems [circular_problem b] b) h
             | None => h
             end).
  assert (H1 : heap_resolved h h1).
  { subst h1. destruct (find_binding h bs n) as [r|] eqn:Ef;
      [|apply heap_resolved_refl].
    apply heap_resolved_update. intros b Hb. apply push_circular_resolved.
    unfold find_binding in Ef. apply find_some in Ef. destruct Ef as [Hin _].
    rewrite Forall_forall in Hbs. specialize (Hbs r Hin).
    unfold ref_is_expression in Hbs. now rewrite Hb in Hbs. }
  eapply heap_resolved_trans; [exact H1|]. apply IH.
  eapply Forall_impl; [|exact Hbs]. intros r0. now apply ref_is_expression_resolved.
Qed.

Section DependencyFrame.
Context {TS : ToposortLib}.

Lemma resolve_loop_resolved fuel bs :
  forall nodes edges d h d' h',
    Forall (fun r => ref_is_expression h r = true) bs ->
    resolve_loop fuel bs nodes edges d h = Some (d', h') ->
    (d' = d \/ d' = push_problem unresolvable_problem d) /\ heap_resolved h h'.
Proof.
  induction fuel as [|fuel IH]; intros nodes edges d h d' h' Hbs; cbn [resolve_loop].
  - destruct (is_nil nodes || is_nil edges); [discriminate|].
    intros H. inversion H; subst. split; [now left | apply heap_resolved_refl].
  - destruct (is_nil nodes || is_nil edges);
      [|intros H; inversion H; subst; split; [now left | apply heap_resolved_refl]].
    destruct (toposort_array nodes edges) as [order|message|].
    + intros H. inversion H; subst. split; [now left | apply heap_resolved_refl].
    + destruct (JS.includes "Cyclic dependency" message).
      * destruct (negb (JS.includes " " _)).
        -- destruct (nodes_to_delete _ _ _ _) as [ntd|]; [|discriminate].
           intros H. apply IH in H.
           ++ destruct H as [Hd Hh]. split; [exact Hd|].
              eapply heap_resolved_trans; [|exact Hh].
              now apply mark_circular_resolved.
           ++ eapply Forall_impl; [|exact Hbs]. intros r0.
              apply ref_is_expression_resolved. now apply mark_circular_resolved.
        -- now apply IH.
      * intros H. inversion H; subst. split; [now right | apply heap_resolved_refl].
    + intros H. inversion H; subst. split; [now right | apply heap_resolved_refl].
Qed.

Lemma processDependencies_resolved (fuel : nat) (d : RainDocument) (h : Heap)
    (d' : RainDocument) (h' : Heap) :
  processDependencies fuel d h = Some (d', h') ->
  (d' = d \/ d' = push_problem unresolvable_problem d) /\ heap_resolved h h'.
Proof.
  unfold processDependencies.
  assert (Hbs : Forall (fun r => ref_is_expression h r = true)
                  (filter (ref_is_expression h) (bindings d))).
  { apply Forall_forall. intros r Hr. apply filter_In in Hr. apply Hr. }
  pose proof (collect_edges_resolved _ h Hbs) as Hc.
  destruct (collect_edges (filter (ref_is_expression h) (bindings d)) h) as [es h1].
  cbn [snd] in Hc. intros H. apply resolve_loop_resolved in H.
  - destruct H as [Hd Hh]. split; [exact Hd | exact (heap_resolved_trans _ _ _ Hc Hh)].
  - eapply Forall_impl; [|exact Hbs]. intros r0. now apply ref_is_expression_resolved.
Qed.

(** X21. Dependency resolution leaves the document as it is, or adds the
    one problem "cannot resolve dependencies"; in the store it keeps every
    binding in place, never touches a constant or an elided binding, and
    on a binding of the other kind only appends dependencies and "circular
    dependency" problems at the position of its name. *)
Theorem processDependencies_frame (fuel : nat) (d : RainDocument) (h : Heap)
    (d' : RainDocument) (h' : Heap) :
  processDependencies fuel d h = Some (d', h') ->
  (d' = d \/ d' = push_problem unresolvable_problem d)
  /\ List.length h' = List.length h
  /\ forall r b,
       heap_get h r = Some b ->
       exists b', heap_get h' r = Some b' /\ resolved_from b b'.
Proof.
  intros H. apply processDependencies_resolved in H. destruct H as [Hd [Hl Hr]].
  split; [exact Hd|]. split; [exact Hl | exact Hr].
Qed.
End DependencyFrame.


(** ** The runtime error of a parse *)

Section RuntimeError.
Context {HP : Helpers} {LT : LanguageTypes} {TD : TextDocumentLib}
        {MS : MetaStore} {TS : ToposortLib} {JN : JSNumbers} {RL : RainlangLib}.

Lemma fold_error {A : Type} (f : RainDocument -> A -> RainDocument) (l : list A) d :
  (forall d0 a, runtimeError (f d0 a) = runtimeError d0) ->
  runtimeError (fold_left f l d) = runtimeError d.
Proof.
  intros Hf. revert d. induction l as [|a l IH]; intros d; [reflexivity|].
  cbn [fold_left]. now rewrite IH, Hf.
Qed.

Lemma parse_comments_error d document :
  runtimeError (fst (parse_comments d document)) = runtimeError d.
Proof.
  unfold parse_comments. generalize (inclusiveParse document CommentRe) as l.
  intros l. revert d document. induction l as [|v l IH]; intros d document;
    [reflexivity|].
  cbn [fold_left]. rewrite IH. now destruct (negb (endsWith "*/" (chunk_text v))).
Qed.

Lemma parse_imports_error run stmts d h d' h' :
  parse_imports run stmts d h = Some (d', h') -> runtimeError d' = runtimeError d.
Proof.
  unfold parse_imports. destruct (importDepth d <? 32).
  - destruct (processImports run stmts d h) as [[[imps d1] h1]|] eqn:E;
      [|discriminate].
    intros H. inversion H; subst. apply processImports_only in E.
    rewrite fold_error; [now apply only_error|].
    intros d0 a. unfold record_import. now destruct (_ && _).
  - intros H. inversion H; subst. apply only_error, only_fold.
    intros d0 a. apply only_push.
Qed.

Lemma apply_reconfig_error _s (_ns : Namespace) d h :
  runtimeError (snd (fst (state_of (apply_reconfig _s (_ns, d, h))))) = runtimeError d.
Proof.
  unfold apply_reconfig.
  repeat match goal with
         | |- context [match ?x with _ => _ end] => destruct x eqn:?
         end; reflexivity.
Qed.

Lemma apply_reconfigs_error rs :
  forall (_ns : Namespace) d h,
    runtimeError (snd (fst (state_of (apply_reconfigs rs (_ns, d, h)))))
    = runtimeError d.
Proof.
  induction rs as [|_s rs IH]; intros _ns d h; cbn [apply_reconfigs]; [reflexivity|].
  pose proof (apply_reconfig_error _s _ns d h) as H1.
  destruct (apply_reconfig _s (_ns, d, h)) as [[[ns1 d1] h1]|e [[ns1 d1] h1]];
    cbn [state_of fst snd] in *; [|exact H1].
  now rewrite IH.
Qed.

Lemma mergeNamespace_error imp ns d :
  runtimeError (snd (mergeNamespace imp ns d)) = runtimeError d.
Proof.
  unfold mergeNamespace. cbv zeta.
  destruct (if String.eqb (imp_name imp) "." then _ else _); [|reflexivity].
  now destruct (negb (String.eqb _ msg_ok)).
Qed.

Lemma merge_import_error i _imp d h :
  runtimeError (fst (state_of (merge_import i _imp (d, h)))) = runtimeError d.
Proof.
  unfold merge_import.
  destruct (is_nil (imp_problems _imp)); [|reflexivity].
  destruct (match obj_get (imp_name _imp) (namespace d) with
            | Some x => has_Element x
            | None => false
            end); [reflexivity|].
  destruct (isDeepImport _imp); [reflexivity|].
  destruct (import_namespace (Z.of_nat i) _imp) as [[_ns dupKeys] dupWords].
  cbv zeta.
  assert (Hconf : forall c : Completion MergeState,
            runtimeError (snd (fst (state_of c))) = runtimeError d ->
            runtimeError
              (fst (state_of
                      match c with
                      | Normal (_ns1, d1, h1) =>
                          Normal (snd (mergeNamespace _imp _ns1 d1), h1)
                      | Throws e (_, d1, h1) => Throws e (d1, h1)
                      end)) = runtimeError d).
  { intros [[[ns1 d1] h1]|e [[ns1 d1] h1]] Hc; cbn [state_of fst snd] in *;
      [now rewrite mergeNamespace_error | exact Hc]. }
  apply Hconf.
  destruct (dupKeys || dupWords); [now destruct dupKeys|].
  destruct (reconfigs _imp) as [rs|]; [apply apply_reconfigs_error | reflexivity].
Qed.

Lemma merge_imports_error imps :
  forall d h,
    runtimeError (fst (state_of (merge_imports imps (d, h)))) = runtimeError d.
Proof.
  induction imps as [|[i _imp] imps IH]; intros d h; cbn [merge_imports];
    [reflexivity|].
  pose proof (merge_import_error i _imp d h) as H1.
  destruct (merge_import i _imp (d, h)) as [[d1 h1]|e [d1 h1]];
    cbn [state_of fst snd] in *; [|exact H1].
  now rewrite IH.
Qed.

Lemma parse_bindings_error st :
  runtimeError (fst (fst (parse_bindings st))) = runtimeError (fst (fst st)).
Proof.
  unfold parse_bindings. destruct st as [[d h] document].
  generalize (tl (exclusiveParse document HashGd None true)) as l. intros l.
  generalize (d, h, document) as st. clear. intros st. revert st.
  induction l as [|v l IH]; intros st; [reflexivity|].
  cbn [fold_left]. rewrite IH. destruct st as [[d h] document]. unfold add_binding.
  destruct (binding_parts d v) as [[[[name np] content] cp] nc]. cbv zeta.
  destruct (negb (negb (is_binding_name name)) && _); unfold heap_alloc;
    cbn [fst snd runtimeError set_bindings set_namespace];
    repeat match goal with
           | |- context [if ?c then _ else _] => destruct c
           end; reflexivity.
Qed.

Lemma getWords_error d : runtimeError (state_of (getWords d)) = runtimeError d.
Proof.
  unfold getWords.
  repeat match goal with
         | |- context [match ?x with _ => _ end] => destruct x eqn:?
         end; reflexivity.
Qed.

(** A pass that ends normally leaves no runtime error. *)
Lemma _parse_body_normal run fuel d h d' h' :
  _parse_body run fuel d h = Some (Normal (d', h')) -> runtimeError d' = None.
Proof.
  unfold _parse_body.
  pose proof (parse_comments_error (reset d) (text (reset d))) as E2.
  destruct (parse_comments (reset d) (text (reset d))) as [d2 document2].
  cbn [fst] in E2. change (runtimeError (reset d)) with (@None string) in E2.
  destruct (import_statements document2) as [stmts document3].
  destruct (parse_imports run stmts (parse_flags d2) h) as [[d4 h4]|] eqn:E4;
    [|discriminate].
  apply parse_imports_error in E4.
  change (runtimeError (parse_flags d2)) with (runtimeError d2) in E4.
  pose proof (merge_imports_error (indexed (imports d4)) d4 h4) as E5.
  destruct (merge_imports (indexed (imports d4)) (d4, h4)) as [[d5 h5]|e [d5 h5]];
    [|discriminate].
  cbn [state_of fst] in E5.
  pose proof (parse_bindings_error (d5, h5, document3)) as E6.
  destruct (parse_bindings (d5, h5, document3)) as [[d6 h6] document6].
  cbn [fst] in E6.
  assert (E7 : runtimeError (check_top_level_imports d6 h6) = runtimeError d6).
  { unfold check_top_level_imports. destruct (bindings d6) as [|r0 bs]; [reflexivity|].
    destruct (heap_get h6 r0) as [b0|]; [|reflexivity].
    apply only_error, only_fold. intros d0 a. apply only_if, only_refl. }
  assert (E8 : runtimeError (check_remaining (check_top_level_imports d6 h6) document6)
               = runtimeError (check_top_level_imports d6 h6)).
  { unfold check_remaining. apply only_error, only_fold. intros d0 a. apply only_push. }
  destruct (processDependencies fuel
              (check_remaining (check_top_level_imports d6 h6) document6) h6)
    as [[d9 h9]|] eqn:E9; [|discriminate].
  apply processDependencies_resolved in E9. destruct E9 as [E9 _].
  assert (E9' : runtimeError d9 = None).
  { destruct E9 as [->| ->]; cbn [runtimeError push_problem set_problems];
      congruence. }
  unfold parse_top_level. destruct (importDepth d9 =? 0).
  - pose proof (getWords_error d9) as E10.
    destruct (getWords d9) as [d10|e d10]; [|discriminate].
    cbn [state_of] in E10. intros H. inversion H; subst.
    rewrite ignore_next_line_filter. cbn [runtimeError set_problems]. congruence.
  - intros H. inversion H; subst.
    rewrite ignore_next_line_filter. cbn [runtimeError set_problems]. exact E9'.
Qed.

(** X22. After [parse], the runtime error and the problems agree: when a
    runtime error is set, the last problem is its report, "Runtime Error: "
    followed by the message, at offsets 0 to -1; when none is set, the text
    was blank or the pass ended normally. *)
Theorem parse_runtime_error (fuel : nat) (d : RainDocument) (h : Heap)
    (d' : RainDocument) (h' : Heap) :
  parse fuel d h = Some (d', h') ->
  match runtimeError d' with
  | Some e =>
      exists d1 ps,
        _parse fuel d h = Some (Throws e (d1, h'))
        /\ problems d' = ps ++ [mkProblem ("Runtime Error: " ++ e) (0, -1)%Z RuntimeError]
  | None =>
      JS.some (fun c => negb (JS.is_space c)) (text d) = false
      \/ _parse fuel d h = Some (Normal (d', h'))
  end.
Proof.
  unfold parse, parse_with.
  destruct (JS.some (fun c => negb (JS.is_space c)) (text d));
    [|intros H; inversion H; subst; cbn; now left].
  destruct (_parse fuel d h) as [[[d1 h1]|e [d1 h1]]|] eqn:E; [| |discriminate];
    intros H; inversion H; subst.
  - replace (runtimeError d') with (@None string); [now right|]. symmetry.
    destruct fuel as [|fuel]; [discriminate|].
    exact (_parse_body_normal _ _ _ _ _ _ E).
  - cbn. exists d1, (problems d1). split; reflexivity.
Qed.
End RuntimeError.

(** ** The working words at the root *)

(** X23. When the root of the namespace itself holds a set of words, and
    every set of words met from the root is a leaf with a hash, the same as
    that of the root up to case, [getWords] records no problem and selects
    the words and the bytecode of the set at the root, with the path [.]. *)
Theorem getWords_root_words (d : RainDocument) (w : NsItem) :
  obj_get "Words" (namespace d) = Some w ->
  Forall (fun w' => proper_words w' = true) (word_sets (NsInterior (namespace d))) ->
  Forall (fun w' => same_words w w' = true) (word_sets (NsInterior (namespace d))) ->
  getWords d = Normal (set_words (item_words w) "." (item_bytecode w) d).
Proof.
  intros Hw Hproper Hsame.
  destruct (validate_ok (NsInterior (namespace d))) as (_ & _ & V).
  pose proof (word_sets_unfold (namespace d)) as Hsets. rewrite Hw in Hsets.
  cbn [app] in Hsets.
  destruct (V w _ Hsets Hproper) as (c & hsh & Hhash & Hval & _ & Hone & _).
  assert (Hc : c = 1).
  { apply Hone. rewrite Hsets in Hsame. inversion Hsame as [|? ? _ Hrest]; subst.
    eapply Forall_impl; [|exact Hrest]. intros w' Hw'.
    now rewrite <- (same_words_matches w w' hsh Hhash). }
  subst c. unfold getWords. rewrite Hval. cbn [Nat.ltb Nat.leb Nat.eqb].
  rewrite _get_unfold, Hw. reflexivity.
Qed.

(** ** The expressions of the top-level document *)

Section ExpressionProperties.
Context {RL : RainlangLib}.

Lemma parse_expressions_other d (l : list BindingRef) :
  forall (h : Heap) r,
    ~ In r l ->
    heap_get
      (fold_left
         (fun h r =>
            match heap_get h r with
            | Some v =>
                if is_expression_binding v then
                  let exp := Rainlang_new (b_content v) (authoringMeta d) (namespace d) h
                               (_ignoreUAM d) in
                  heap_update r
                    (fun b => b_push_problems (expression_problems exp b)
                                (b_set_exp (Some exp) b)) h
                else h
            | None => h
            end) l h) r
    = heap_get h r.
Proof.
  induction l as [|r0 l IH]; intros h r Hnot; [reflexivity|].
  cbn [fold_left]. rewrite IH by (intros Hin; apply Hnot; now right).
  assert (Hne : r <> r0) by (intros ->; apply Hnot; now left).
  destruct (heap_get h r0) as [v|]; [|reflexivity].
  destruct (is_expression_binding v); [|reflexivity].
  cbv zeta. rewrite heap_get_update.
  replace (r =? r0) with false; [reflexivity|]. symmetry. now apply Nat.eqb_neq.
Qed.

(** X24. Instantiating the expressions: a binding of the document that is
    neither a constant nor elided gets the expression the parser makes of
    its content, with the words and the namespace of the document, and the
    problems of that expression appended to its own, each moved by the
    offset at which its content starts; every other binding of the store
    is left as it is. *)
Theorem parse_expressions_attaches (d : RainDocument) (h : Heap) (r : BindingRef)
    (b : Binding) :
  NoDup (bindings d) ->
  heap_get h r = Some b ->
  (In r (bindings d) -> is_expression_binding b = true ->
   exists h0,
     heap_get (parse_expressions d h) r
     = Some (b_push_problems
               (expression_problems
                  (Rainlang_new (b_content b) (authoringMeta d) (namespace d) h0
                     (_ignoreUAM d)) b)
               (b_set_exp
                  (Some (Rainlang_new (b_content b) (authoringMeta d) (namespace d) h0
                           (_ignoreUAM d))) b)))
  /\ (~ In r (bindings d) \/ is_expression_binding b = false ->
      heap_get (parse_expressions d h) r = Some b).
Proof.
  unfold parse_expressions. generalize (bindings d) as l. intros l Hnd Hb. split.
  - intros Hin Hexp. revert h Hb. induction l as [|r0 l IH]; intros h Hb;
      [destruct Hin|].
    inversion Hnd as [|? ? Hnotin Hrest]; subst. cbn [fold_left].
    destruct Hin as [->|Hin].
    + rewrite (parse_expressions_other d l _ r Hnotin).
      rewrite Hb, Hexp. cbv zeta. rewrite heap_get_update, Nat.eqb_refl, Hb.
      exists h. reflexivity.
    + assert (Hne : r <> r0) by (intros ->; contradiction).
      apply (IH Hrest Hin).
      destruct (heap_get h r0) as [v|]; [|exact Hb].
      destruct (is_expression_binding v); [|exact Hb].
      cbv zeta. rewrite heap_get_update.
      replace (r =? r0) with false; [exact Hb|]. symmetry. now apply Nat.eqb_neq.
  - intros [Hnot|Hconst].
    + rewrite <- Hb. apply (parse_expressions_other d l h r Hnot).
    + clear Hnd. revert h Hb. induction l as [|r0 l IH]; intros h Hb; [exact Hb|].
      cbn [fold_left]. apply IH.
      destruct (heap_get h r0) as [v|] eqn:Ev; [|exact Hb].
      destruct (is_expression_binding v) eqn:Eexp; [|exact Hb].
      cbv zeta. rewrite heap_get_update. destruct (r =? r0) eqn:E; [|exact Hb].
      apply Nat.eqb_eq in E. subst r0. congruence.
Qed.
End ExpressionProperties.

(** * Runs on the sample collaborators *)

Import Sample.

Lemma parse_whitespace_only_witness :
  JS.every JS.is_space (text (new_RainDocument "   " 0)) = true /\
  exists d',
    parse 0 (new_RainDocument "   " 0) [] = Some (d', [])
    /\ text d' = "   "
    /\ bindings d' = [] /\ imports d' = [] /\ namespace d' = []
    /\ comments d' = [] /\ problems d' = []
    /\ authoringMeta d' = [] /\ authoringMetaPath d' = EmptyString
    /\ bytecode d' = Some EmptyString
    /\ runtimeError d' = None
    /\ getAllProblems d' [] = [].
Proof.
  split; [reflexivity|].
  apply (parse_whitespace_only 0 (new_RainDocument "   " 0) []). reflexivity.
Defined.




(** C3 (the claim as stated fails): the document holds a set of words under
    [a]; an import named [b] brings a set of words with another hash. The
    merge succeeds, no problem is recorded, and both sets are reachable
    from the root. *)
Lemma second_words_under_another_name :
  mergeNamespace Examples.import_b [("Words", Examples.words_leaf hash_d 1)]
    Examples.document_with_words
  = (true,
     set_namespace
       [("a", NsInterior [("Words", Examples.words_leaf hash_b 0)]);
        ("b", NsInterior [("Words", Examples.words_leaf hash_d 1)])]
       Examples.document_with_words)
  /\ problems (snd (mergeNamespace Examples.import_b
                      [("Words", Examples.words_leaf hash_d 1)]
                      Examples.document_with_words)) = []
  /\ hash_b <> hash_d.
Proof.
  repeat split. discriminate.
Qed.

Lemma mergeNamespace_words_conflict_witness :
  merge_target Examples.root_import
    (set_namespace [("lib", NsInterior [("Words", Examples.words_leaf hash_b 0)])]
       (new_RainDocument EmptyString 0))
  = Some (NsInterior [("lib", NsInterior [("Words", Examples.words_leaf hash_b 0)])])
  /\ plain (NsInterior [("lib", NsInterior [("Words", Examples.words_leaf hash_d 1)])])
     = true
  /\ plain (NsInterior [("lib", NsInterior [("Words", Examples.words_leaf hash_b 0)])])
     = true
  /\ words_clash
       [("lib", NsInterior [("Words", Examples.words_leaf hash_d 1)])]
       [("lib", NsInterior [("Words", Examples.words_leaf hash_b 0)])]
  /\ namespace (snd (mergeNamespace Examples.root_import
                       [("lib", NsInterior [("Words", Examples.words_leaf hash_d 1)])]
                       (set_namespace
                          [("lib", NsInterior [("Words", Examples.words_leaf hash_b 0)])]
                          (new_RainDocument EmptyString 0))))
     = [("lib", NsInterior [("Words", Examples.words_leaf hash_b 0)])]
  /\ problems (snd (mergeNamespace Examples.root_import
                      [("lib", NsInterior [("Words", Examples.words_leaf hash_d 1)])]
                      (set_namespace
                         [("lib", NsInterior [("Words", Examples.words_leaf hash_b 0)])]
                         (new_RainDocument EmptyString 0))))
     = [mkProblem "namespace already contains a set of words" (2, 67)%Z MultipleWords].
Proof.
  assert (Hclash : words_clash
            [("lib", NsInterior [("Words", Examples.words_leaf hash_d 1)])]
            [("lib", NsInterior [("Words", Examples.words_leaf hash_b 0)])]).
  { apply (clash_nested _ _ [] [] "lib"
             [("Words", Examples.words_leaf hash_d 1)]
             [("Words", Examples.words_leaf hash_b 0)]);
      [reflexivity | reflexivity | reflexivity|].
    apply (clash_sets _ _ (Examples.words_leaf hash_d 1) (Examples.words_leaf hash_b 0));
      [reflexivity | reflexivity | discriminate]. }
  split; [reflexivity|]. split; [reflexivity|]. split; [reflexivity|].
  split; [exact Hclash|].
  apply (mergeNamespace_words_conflict Examples.root_import
           [("lib", NsInterior [("Words", Examples.words_leaf hash_d 1)])]
           [("lib", NsInterior [("Words", Examples.words_leaf hash_b 0)])]
           (set_namespace [("lib", NsInterior [("Words", Examples.words_leaf hash_b 0)])]
              (new_RainDocument EmptyString 0)));
    [reflexivity | reflexivity | reflexivity | exact Hclash].
Defined.

(** C2 (the claim as stated fails): the problem of the expression of [a]
    starts one line below the comment with the marker; it is attached to
    the binding, and after the pass it is still among the problems of the
    document. *)
Lemma binding_problem_below_marker_kept :
  exists d' h' c p,
    create 2 Examples.ignored_expression_text = Some (d', h')
    /\ comments d' = [c]
    /\ has_ignore_next_line c = true
    /\ p = mkProblem "undefined word" (26, 28)%Z (OtherCode 0)
    /\ problem_line d' p = (comment_line d' c + 1)%Z
    /\ In p (getBindingsProblems d' h')
    /\ In p (getAllProblems d' h').
Proof.
  do 4 eexists. split; [vm_compute; reflexivity|].
  split; [reflexivity|]. split; [reflexivity|]. split; [reflexivity|].
  split; [reflexivity|]. split; [left; reflexivity | right; left; reflexivity].
Qed.

Lemma ignore_next_line_document_problems_witness :
  exists d' h',
    _parse 2 (new_RainDocument Examples.ignored_name_text 0) [] = Some (Normal (d', h'))
    /\ problems d' = [no_words_problem]
    /\ exists d0,
         collected 2 (new_RainDocument Examples.ignored_name_text 0) []
         = Some (Normal (d0, h'))
         /\ d' = ignore_next_line d0
         /\ problems d' = filter (fun e => negb (suppressed d0 e)) (problems d0)
         /\ (forall e, suppressed d0 e = true -> ~ In e (problems d'))
         /\ (forall e, In e (problems d0) -> suppressed d0 e = false ->
                       In e (problems d'))
         /\ getBindingsProblems d' h' = getBindingsProblems d0 h'
         /\ (forall e, In e (getBindingsProblems d0 h') -> In e (getAllProblems d' h')).
Proof.
  destruct (_parse 2 (new_RainDocument Examples.ignored_name_text 0) [])
    as [[[d' h']|e st]|] eqn:E.
  - exists d', h'. split; [reflexivity|].
    split; [vm_compute in E; injection E as <- _; reflexivity|].
    apply (ignore_next_line_document_problems 2
             (new_RainDocument Examples.ignored_name_text 0) d' [] h' E).
  - vm_compute in E. discriminate.
  - vm_compute in E. discriminate.
Defined.

(** C6 (the claim as stated fails): the document imports the words of
    [hash_b] under [a] and, under [b], a document that imports the same
    words. Two leaves with a set of words are reachable from the root of
    its namespace, yet no "words must be singleton" problem is recorded:
    the set under [a] becomes the working set. *)
Lemma two_word_sets_same_hash_accepted :
  exists d' h' w1 w2,
    create 2 Examples.same_words_twice_text = Some (d', h')
    /\ word_sets (NsInterior (namespace d')) = [NsLeaf w1; NsLeaf w2]
    /\ node_bytecode w1 = Some "0x6080" /\ node_bytecode w2 = None
    /\ problems d' = []
    /\ authoringMetaPath d' = ".a"
    /\ authoringMeta d' = words_a
    /\ bytecode d' = Some "0x6080".
Proof.
  do 4 eexists. split; [vm_compute; reflexivity|].
  repeat split; reflexivity.
Qed.

Lemma getWords_selects_words_witness :
  plain (NsInterior (namespace Examples.document_with_words)) = true
  /\ named (NsInterior (namespace Examples.document_with_words)) = true
  /\ Forall (fun w => is_word_set w = true)
       (word_sets (NsInterior (namespace Examples.document_with_words)))
  /\ word_sets (NsInterior (namespace Examples.document_with_words))
     = [Examples.words_leaf hash_b 0]
  /\ exists p,
       first_words (NsInterior (namespace Examples.document_with_words))
       = Some (p, Examples.words_leaf hash_b 0)
       /\ leads_to p (NsInterior (namespace Examples.document_with_words))
            (Examples.words_leaf hash_b 0)
       /\ getWords Examples.document_with_words
          = Normal (set_words words_a (dotted p) (Some "0x6080")
                      Examples.document_with_words).
Proof.
  assert (H : Forall (fun w => is_word_set w = true)
                (word_sets (NsInterior (namespace Examples.document_with_words))))
    by (constructor; [reflexivity | constructor]).
  split; [reflexivity|]. split; [reflexivity|]. split; [exact H|].
  split; [reflexivity|].
  apply (@getWords_selects_words rainlang Examples.document_with_words []
           eq_refl eq_refl H).
  reflexivity.
Defined.

(** C4 (the claim as stated fails): in the chain of documents that import
    themselves, parsed from depth 0, the document at depth 32 reports
    "import too deep" over the whole statement, from offset 0, while the
    hash of that import stands at offsets 2 to 67; it records no import, and
    the document one level up reports its import as an invalid document at
    the position of the hash. Fuel 32 does not reach the end of the chain. *)
Lemma deep_import_reported_over_statement :
  exists d' h' deep above stmt,
    create 33 self_import = Some (d', h')
    /\ create 32 self_import = None
    /\ nested_at 32 d' = Some deep
    /\ nested_at 31 d' = Some above
    /\ importDepth deep = 32
    /\ imports deep = []
    /\ document_import_statements deep = [stmt]
    /\ imp_hashPosition (fst (fst (import_head stmt))) = (2, 67)%Z
    /\ problems deep = [deep_import (0, 67)%Z]
    /\ problems above = [invalid_rain_document (2, 67)%Z].
Proof.
  do 5 eexists. split; [vm_compute; reflexivity|].
  split; [vm_compute; reflexivity|].
  split; [vm_compute; reflexivity|].
  split; [vm_compute; reflexivity|].
  repeat split; vm_compute; reflexivity.
Qed.

Lemma import_depth_bounded_witness :
  (forall ns, exists order, toposort_array ns [] = Sorted order)
  /\ 0 < 1
  /\ 32 < importDepth (new_RainDocument self_import 32) + 1
  /\ (exists r, parse 1 (new_RainDocument self_import 32) [] = Some r)
  /\ (32 <= importDepth (new_RainDocument self_import 32) ->
      exists d' h',
        (forall run,
            _parse_body run 1 (new_RainDocument self_import 32) []
            = Some (Normal (d', h')))
        /\ _parse 1 (new_RainDocument self_import 32) [] = Some (Normal (d', h'))
        /\ imports d' = []
        /\ forall stmt,
             In stmt (document_import_statements (new_RainDocument self_import 32)) ->
             In (deep_import ((fst (chunk_pos stmt) - 1)%Z, snd (chunk_pos stmt)))
               (problems d')
             \/ suppressed d'
                  (deep_import ((fst (chunk_pos stmt) - 1)%Z, snd (chunk_pos stmt)))
                = true).
Proof.
  assert (Htopo : forall ns, exists order, toposort_array ns [] = Sorted order).
  { intros ns. eexists. reflexivity. }
  split; [exact Htopo|]. split; [lia|]. split; [simpl; lia|].
  apply (import_depth_bounded 1 (new_RainDocument self_import 32) [] Htopo).
  - lia.
  - simpl. lia.
Defined.


(** ** Runs of the further properties *)

Lemma toContextAlias_names_unique_witness :
  toContextAlias Examples.sample_contract
  = Some [mkContextAlias "base" 0 None EmptyString;
          mkContextAlias "caller" 0 (Some 0%Z) "the caller";
          mkContextAlias "contract" 0 (Some 1%Z) EmptyString;
          mkContextAlias "calculations" 1 None "what was calculated"]
  /\ NoDup ["base"; "caller"; "contract"; "calculations"].
Proof.
  split; [reflexivity|].
  apply (toContextAlias_names_unique Examples.sample_contract
           [mkContextAlias "base" 0 None EmptyString;
            mkContextAlias "caller" 0 (Some 0%Z) "the caller";
            mkContextAlias "contract" 0 (Some 1%Z) EmptyString;
            mkContextAlias "calculations" 1 None "what was calculated"]).
  reflexivity.
Defined.

Lemma toContextAlias_records_aliases_witness :
  exists aliases,
    toContextAlias Examples.sample_contract = Some aliases
    /\ (has_alias aliases "contract" 0 (Some 1%Z)
        <-> declares Examples.sample_contract "contract" 0 (Some 1%Z)).
Proof.
  eexists. split; [reflexivity|].
  apply (toContextAlias_records_aliases Examples.sample_contract). reflexivity.
Defined.

Lemma toContextAlias_conflict_throws_witness :
  declares Examples.clashing_contract "base" 0 None
  /\ declares Examples.clashing_contract "base" 1 None
  /\ toContextAlias Examples.clashing_contract = None.
Proof.
  assert (H0 : declares Examples.clashing_contract "base" 0 None).
  { exists (mkMetaMethod
              [mkMetaExpression
                 (Some [mkContextColumn "base" 0 None None;
                        mkContextColumn "base" 1 None None])]),
      (mkMetaExpression
         (Some [mkContextColumn "base" 0 None None;
                mkContextColumn "base" 1 None None])),
      [mkContextColumn "base" 0 None None; mkContextColumn "base" 1 None None],
      (mkContextColumn "base" 0 None None).
    split; [left; reflexivity|]. split; [left; reflexivity|].
    split; [reflexivity|]. split; [left; reflexivity|].
    split; [reflexivity|]. left. split; reflexivity. }
  assert (H1 : declares Examples.clashing_contract "base" 1 None).
  { exists (mkMetaMethod
              [mkMetaExpression
                 (Some [mkContextColumn "base" 0 None None;
                        mkContextColumn "base" 1 None None])]),
      (mkMetaExpression
         (Some [mkContextColumn "base" 0 None None;
                mkContextColumn "base" 1 None None])),
      [mkContextColumn "base" 0 None None; mkContextColumn "base" 1 None None],
      (mkContextColumn "base" 1 None None).
    split; [left; reflexivity|]. split; [left; reflexivity|].
    split; [reflexivity|]. split; [right; left; reflexivity|].
    split; [reflexivity|]. left. split; reflexivity. }
  split; [exact H0|]. split; [exact H1|].
  apply (toContextAlias_conflict_throws Examples.clashing_contract "base" 0 1 None None
           H0 H1).
  left. discriminate.
Defined.

Lemma processImportConfigs_without_problems_witness :
  reconfigs (processImportConfigs
               (mkImport "lib" hash_c (2, 4)%Z (6, 71)%Z []
                  (0, 97)%Z None None (@None (Sequence RainDocument)))
               Examples.config_chunks)
  = Some [(("limit", (73, 77)%Z), Some ("5", (79, 79)%Z));
          (("'twice", (81, 86)%Z), Some ("thrice", (88, 93)%Z));
          ((".", (95, 95)%Z), Some ("!", (97, 97)%Z))]
  /\ reconfigProblems (processImportConfigs
                         (mkImport "lib" hash_c (2, 4)%Z (6, 71)%Z []
                            (0, 97)%Z None None (@None (Sequence RainDocument)))
                         Examples.config_chunks)
     = Some []
  /\ Forall well_formed_directive
       [(("limit", (73, 77)%Z), Some ("5", (79, 79)%Z));
        (("'twice", (81, 86)%Z), Some ("thrice", (88, 93)%Z));
        ((".", (95, 95)%Z), Some ("!", (97, 97)%Z))]
  /\ NoDup (map reconfig_text
              [(("limit", (73, 77)%Z), Some ("5", (79, 79)%Z));
               (("'twice", (81, 86)%Z), Some ("thrice", (88, 93)%Z));
               ((".", (95, 95)%Z), Some ("!", (97, 97)%Z))]).
Proof.
  split; [reflexivity|]. split; [reflexivity|].
  apply (processImportConfigs_without_problems
           (mkImport "lib" hash_c (2, 4)%Z (6, 71)%Z []
              (0, 97)%Z None None (@None (Sequence RainDocument)))
           Examples.config_chunks); reflexivity.
Defined.

Lemma elide_words_removes_set_witness :
  obj_get "Words" (Examples.words_namespace ++ [("limit", binding_node 0)])
  = Some (Examples.words_leaf hash_b 0)
  /\ exists ns',
       apply_reconfig (elide_directive "." (95, 95)%Z (97, 97)%Z)
         (Examples.words_namespace ++ [("limit", binding_node 0)],
          new_RainDocument EmptyString 0, [])
       = Normal (ns', new_RainDocument EmptyString 0, [])
       /\ obj_get "Words" ns' = None
       /\ (forall v, In v words_a -> obj_get (word v) ns' = None)
       /\ (forall k, k <> "Words" -> ~ In k (map word words_a) ->
                     obj_get k ns'
                     = obj_get k (Examples.words_namespace ++ [("limit", binding_node 0)])).
Proof.
  split; [reflexivity|].
  apply (elide_words_removes_set (95, 95)%Z (97, 97)%Z
           (Examples.words_namespace ++ [("limit", binding_node 0)])
           (new_RainDocument EmptyString 0) []
           (mkNode hash_b 0 (EWords words_a) (Some "0x6080")) words_a);
    reflexivity.
Defined.

Lemma elide_entry_witness :
  "limit" <> "."
  /\ (exists ns',
        apply_reconfig (elide_directive "limit" (73, 77)%Z (79, 79)%Z)
          (Examples.words_namespace ++ [("limit", binding_node 0)],
           new_RainDocument EmptyString 0, [])
        = Normal (ns', new_RainDocument EmptyString 0, [])
        /\ obj_get "limit" ns' = None
        /\ forall k, k <> "limit" ->
                     obj_get k ns'
                     = obj_get k (Examples.words_namespace ++ [("limit", binding_node 0)]))
  /\ "cap" <> "."
  /\ inherited "cap" = false
  /\ apply_reconfig (elide_directive "cap" (73, 75)%Z (77, 77)%Z)
       (Examples.words_namespace, new_RainDocument EmptyString 0, [])
     = Normal (Examples.words_namespace,
               push_problem
                 (mkProblem ("undefined identifier " ++ quoted "cap") (73, 75)%Z
                    UndefinedIdentifier) (new_RainDocument EmptyString 0), []).
Proof.
  split; [discriminate|]. split.
  - apply (elide_entry "limit" (73, 77)%Z (79, 79)%Z
             (Examples.words_namespace ++ [("limit", binding_node 0)])
             (new_RainDocument EmptyString 0) []).
    discriminate.
  - split; [discriminate|]. split; [reflexivity|].
    apply (elide_entry "cap" (73, 75)%Z (77, 77)%Z Examples.words_namespace
             (new_RainDocument EmptyString 0) []);
      [discriminate | reflexivity].
Defined.

Lemma copyNamespace_shape_witness :
  forallb (fun kv => plain (snd kv)) Examples.target_namespace = true
  /\ obj_keys (copyNamespace Examples.target_namespace 2 hash_c) = ["limit"; "lib"]
  /\ (forall k,
        obj_get k (copyNamespace Examples.target_namespace 2 hash_c)
        = option_map (copyItem 2 hash_c) (obj_get k Examples.target_namespace))
  /\ ns_leaves (copyNamespace Examples.target_namespace 2 hash_c)
     = [mkNode hash_c 2 (EBinding 0) None; mkNode hash_c 2 (EBinding 1) None].
Proof.
  split; [reflexivity|].
  apply (copyNamespace_shape Examples.target_namespace 2 hash_c). reflexivity.
Defined.

Lemma merge_lookup_witness :
  NoDup (obj_keys Examples.brought_namespace)
  /\ obj_get "lib" (_merge (NsInterior Examples.brought_namespace)
                      Examples.target_namespace)
     = Some (NsInterior [("twice", binding_node 1); ("thrice", binding_node 2)])
  /\ obj_get "limit" (_merge (NsInterior Examples.brought_namespace)
                        Examples.target_namespace)
     = Some (binding_node 0)
  /\ obj_get "cap" (_merge (NsInterior Examples.brought_namespace)
                      Examples.target_namespace)
     = Some (binding_node 4).
Proof.
  assert (Hnd : NoDup (obj_keys Examples.brought_namespace)).
  { repeat constructor; cbn; intuition discriminate. }
  split; [exact Hnd|].
  split; [|split].
  - apply (merge_lookup Examples.brought_namespace Examples.target_namespace "lib" Hnd).
  - apply (merge_lookup Examples.brought_namespace Examples.target_namespace "limit" Hnd).
  - apply (merge_lookup Examples.brought_namespace Examples.target_namespace "cap" Hnd).
Defined.

Lemma record_imports_distinct_hashes_witness :
  imports (new_RainDocument EmptyString 0) = []
  /\ map imp_hash
       (imports (fold_left record_import [Examples.import_b; Examples.import_b]
                   (new_RainDocument EmptyString 0)))
     = map imp_hash [Examples.import_b; Examples.import_b]
  /\ NoDup (map imp_hash
              (filter mergeable
                 (imports (fold_left record_import
                             [Examples.import_b; Examples.import_b]
                             (new_RainDocument EmptyString 0))))).
Proof.
  split; [reflexivity|].
  apply (record_imports_distinct_hashes [Examples.import_b; Examples.import_b]
           (new_RainDocument EmptyString 0)).
  reflexivity.
Defined.

Lemma import_head_requests_or_reports_witness :
  WORD_PATTERN "." = false
  /\ import_head Examples.corrupt_statement
     = (mkImport "." hash_d (2, 67)%Z (2, 67)%Z [] (0, 67)%Z None None None,
        true, Some [])
  /\ imp_position (mkImport "." hash_d (2, 67)%Z (2, 67)%Z [] (0, 67)%Z None None
                     (@None (Sequence RainDocument)))
     = ((fst (chunk_pos Examples.corrupt_statement) - 1)%Z,
        snd (chunk_pos Examples.corrupt_statement))
  /\ exists token,
       HASH_PATTERN (chunk_text token) = true
       /\ hash_d = JS.toLowerCase (chunk_text token)
       /\ (2, 67)%Z = chunk_pos token.
Proof.
  split; [reflexivity|]. split; [reflexivity|].
  apply (import_head_requests_or_reports Examples.corrupt_statement
           (mkImport "." hash_d (2, 67)%Z (2, 67)%Z [] (0, 67)%Z None None None)
           true (Some [])); reflexivity.
Defined.

Lemma nested_problems_surface_witness :
  exists imp d' h',
    processImport (parse 1) Examples.self_statement (new_RainDocument self_import 31) []
    = Some (imp, d', h')
    /\ option_map problems (nested_document (set_imports [imp] d'))
       = Some [deep_import (0, 67)%Z]
    /\ imp_problems imp = [invalid_rain_document (2, 67)%Z]
    /\ (forall seq rd,
          sequence imp = Some seq -> dotrain seq = Some rd -> problems rd <> [] ->
          imp_problems imp <> [])
    /\ is_nil (imp_problems imp) && isDeepImport imp = false.
Proof.
  destruct (processImport (parse 1) Examples.self_statement
              (new_RainDocument self_import 31) []) as [[[imp d'] h']|] eqn:E.
  - exists imp, d', h'. split; [reflexivity|].
    pose proof E as E'. vm_compute in E'. injection E' as Ei Ed Eh.
    split; [now rewrite <- Ei|]. split; [now rewrite <- Ei|].
    apply (nested_problems_surface (parse 1) Examples.self_statement
             (new_RainDocument self_import 31) [] imp d' h' E).
  - vm_compute in E. discriminate.
Defined.

Lemma parse_imports_reports_witness :
  imports Examples.corrupt_document = []
  /\ exists d' h' imp,
       parse_imports (parse 1) [Examples.corrupt_statement] Examples.corrupt_document []
       = Some (d', h')
       /\ imports d' = [imp]
       /\ import_problems imp = [corrupt_meta (2, 67)%Z]
       /\ forall v p,
            In v (imports d') -> In p (import_problems v) -> In p (problems d').
Proof.
  split; [reflexivity|].
  destruct (parse_imports (parse 1) [Examples.corrupt_statement]
              Examples.corrupt_document []) as [[d' h']|] eqn:E.
  - pose proof E as E'. vm_compute in E'. injection E' as Ed Eh.
    exists d', h'. eexists. split; [reflexivity|].
    split; [rewrite <- Ed; reflexivity|]. split; [reflexivity|].
    apply (parse_imports_reports (parse 1) [Examples.corrupt_statement]
             Examples.corrupt_document [] d' h' eq_refl E).
  - vm_compute in E. discriminate.
Defined.

Lemma mergeNamespace_disjoint_accepted_witness :
  merge_target Examples.root_import
    (set_namespace Examples.target_namespace (new_RainDocument EmptyString 0))
  = Some (NsInterior Examples.target_namespace)
  /\ obj_get "Element" Examples.target_namespace = None
  /\ mergeNamespace Examples.root_import [("cap", binding_node 4)]
       (set_namespace Examples.target_namespace (new_RainDocument EmptyString 0))
     = (true,
        set_namespace (Examples.target_namespace ++ [("cap", binding_node 4)])
          (new_RainDocument EmptyString 0)).
Proof.
  split; [reflexivity|]. split; [reflexivity|].
  apply (mergeNamespace_disjoint_accepted Examples.root_import
           [("cap", binding_node 4)] Examples.target_namespace
           (set_namespace Examples.target_namespace (new_RainDocument EmptyString 0))).
  - left. reflexivity.
  - reflexivity.
  - intros k Hk. cbn [obj_get] in Hk. destruct (String.eqb k "cap") eqn:E.
    + apply String.eqb_eq in E. subst k. reflexivity.
    + now elim Hk.
Defined.

Lemma processDependencies_frame_witness :
  exists h',
    processDependencies 1 Examples.cycle_document Examples.cycle_heap
    = Some (Examples.cycle_document, h')
    /\ (Examples.cycle_document = Examples.cycle_document
        \/ Examples.cycle_document
           = push_problem unresolvable_problem Examples.cycle_document)
    /\ List.length h' = List.length Examples.cycle_heap
    /\ forall r b,
         heap_get Examples.cycle_heap r = Some b ->
         exists b', heap_get h' r = Some b' /\ resolved_from b b'.
Proof.
  eexists. split; [reflexivity|].
  apply (processDependencies_frame 1 Examples.cycle_document Examples.cycle_heap).
  reflexivity.
Defined.

Lemma parse_runtime_error_witness :
  exists d' h',
    parse 3 (new_RainDocument Examples.throwing_text 0) [] = Some (d', h')
    /\ runtimeError d' = Some type_error
    /\ match runtimeError d' with
       | Some e =>
           exists d1 ps,
             _parse 3 (new_RainDocument Examples.throwing_text 0) []
             = Some (Throws e (d1, h'))
             /\ problems d'
                = ps ++ [mkProblem ("Runtime Error: " ++ e) (0, -1)%Z RuntimeError]
       | None =>
           JS.some (fun c => negb (JS.is_space c))
             (text (new_RainDocument Examples.throwing_text 0)) = false
           \/ _parse 3 (new_RainDocument Examples.throwing_text 0) []
              = Some (Normal (d', h'))
       end.
Proof.
  destruct (parse 3 (new_RainDocument Examples.throwing_text 0) [])
    as [[d' h']|] eqn:E.
  - exists d', h'. split; [reflexivity|].
    pose proof E as E'. vm_compute in E'. injection E' as Ed Eh.
    split; [now rewrite <- Ed|].
    apply (parse_runtime_error 3 (new_RainDocument Examples.throwing_text 0) []
             d' h' E).
  - vm_compute in E. discriminate.
Defined.

Lemma getWords_root_words_witness :
  obj_get "Words"
    (namespace (set_namespace Examples.words_namespace (new_RainDocument EmptyString 0)))
  = Some (Examples.words_leaf hash_b 0)
  /\ getWords (set_namespace Examples.words_namespace (new_RainDocument EmptyString 0))
     = Normal (set_words words_a "." (Some "0x6080")
                 (set_namespace Examples.words_namespace
                    (new_RainDocument EmptyString 0))).
Proof.
  split; [reflexivity|].
  apply (getWords_root_words
           (set_namespace Examples.words_namespace (new_RainDocument EmptyString 0))
           (Examples.words_leaf hash_b 0)).
  - reflexivity.
  - repeat constructor.
  - repeat constructor.
Defined.

Lemma parse_expressions_attaches_witness :
  NoDup (bindings Examples.cycle_document)
  /\ heap_get Examples.cycle_heap 0 = Some (Examples.expression_binding "a" "_: 'b;")
  /\ (In 0 (bindings Examples.cycle_document) ->
      is_expression_binding (Examples.expression_binding "a" "_: 'b;") = true ->
      exists h0,
        heap_get (parse_expressions Examples.cycle_document Examples.cycle_heap) 0
        = Some (b_push_problems
                  (expression_problems
                     (Rainlang_new "_: 'b;" (authoringMeta Examples.cycle_document)
                        (namespace Examples.cycle_document) h0
                        (_ignoreUAM Examples.cycle_document))
                     (Examples.expression_binding "a" "_: 'b;"))
                  (b_set_exp
                     (Some (Rainlang_new "_: 'b;" (authoringMeta Examples.cycle_document)
                              (namespace Examples.cycle_document) h0
                              (_ignoreUAM Examples.cycle_document)))
                     (Examples.expression_binding "a" "_: 'b;"))))
  /\ (~ In 0 (bindings Examples.cycle_document)
      \/ is_expression_binding (Examples.expression_binding "a" "_: 'b;") = false ->
      heap_get (parse_expressions Examples.cycle_document Examples.cycle_heap) 0
      = Some (Examples.expression_binding "a" "_: 'b;")).
Proof.
  assert (Hnd : NoDup (bindings Examples.cycle_document)).
  { cbn. repeat constructor; cbn; intuition discriminate. }
  split; [exact Hnd|]. split; [reflexivity|].
  apply (parse_expressions_attaches Examples.cycle_document Examples.cycle_heap 0
           (Examples.expression_binding "a" "_: 'b;") Hnd).
  reflexivity.
Defined.
